(** * Content-to-vector pipeline of the repository ingestion tool

    A shallow embedding of the pipeline primitives of [repo_ingestion]
    (chunking, embedding dispatch, vector packaging, batched upsert,
    post-ingestion validation) together with the properties that the
    design document states about them. *)

From Stdlib Require Import String Ascii.
From Stdlib Require Import QArith Qabs.
From Stdlib Require Import ZArith List Bool Lia.
From Stdlib Require Import Floats.PrimFloat Floats.FloatOps Floats.SpecFloat.
From Stdlib Require Import Numbers.Cyclic.Int63.Uint63.
Import ListNotations.
Open Scope Z_scope.
#[local] Set Warnings "-inexact-float".

(** ** Python values

    A Python [str] is a sequence of Unicode code points; a [bytes] object
    is a sequence of octets.  Both are lists of integers here.  Texts are
    taken to consist of Unicode scalar values (what reading a UTF-8 file
    produces). *)

Module Py.

Definition codepoint := Z.
Definition str := list codepoint.
Definition bytes := list Z.

(** A string literal of the source. *)
Definition lit (s : string) : str :=
  map (fun a => Z.of_N (N_of_ascii a)) (list_ascii_of_string s).
Arguments lit s%_string.

(** [len(s)] *)
Definition len {A : Type} (s : list A) : Z := Z.of_nat (List.length s).

(** Truth value of a sequence: [if s:] *)
Definition truthy {A : Type} (s : list A) : bool :=
  match s with [] => false | _ :: _ => true end.

Fixpoint str_eqb (a b : str) : bool :=
  match a, b with
  | [], [] => true
  | x :: a', y :: b' => (x =? y) && str_eqb a' b'
  | _, _ => false
  end.

(** Index normalisation of a slice bound ([PySlice_AdjustIndices],
    step 1): negative bounds count from the end, everything is clamped
    to [0, n]. *)
Definition adjust_index (n i : Z) : Z :=
  if i <? 0 then Z.max 0 (i + n) else Z.min i n.

(** [s[start:stop]] *)
Definition slice {A : Type} (s : list A) (start stop : Z) : list A :=
  let n := len s in
  let a := adjust_index n start in
  let b := adjust_index n stop in
  firstn (Z.to_nat (b - a)) (skipn (Z.to_nat a) s).

(** [s[:stop]] *)
Definition slice_to {A : Type} (s : list A) (stop : Z) : list A :=
  firstn (Z.to_nat (adjust_index (len s) stop)) s.

(** [str.isspace] for one code point ([_PyUnicode_IsWhitespace]). *)
Definition isspace (c : codepoint) : bool :=
  ((9 <=? c) && (c <=? 13)) || ((28 <=? c) && (c <=? 32))
  || (c =? 133) || (c =? 160) || (c =? 5760)
  || ((8192 <=? c) && (c <=? 8202))
  || (c =? 8232) || (c =? 8233) || (c =? 8239) || (c =? 8287)
  || (c =? 12288).

Fixpoint lstrip (s : str) : str :=
  match s with
  | [] => []
  | c :: s' => if isspace c then lstrip s' else s
  end.

Definition rstrip (s : str) : str := rev (lstrip (rev s)).

(** [s.strip()] *)
Definition strip (s : str) : str := rstrip (lstrip s).

(** Strings of white space only. *)
Definition all_space (s : str) : Prop :=
  Forall (fun c => isspace c = true) s.

(** Position of the last occurrence of [ch] in [w], if any. *)
Fixpoint last_index (ch : codepoint) (w : str) : option nat :=
  match w with
  | [] => None
  | c :: w' =>
      match last_index ch w' with
      | Some i => Some (S i)
      | None => if c =? ch then Some O else None
      end
  end.

(** [s.rfind(ch, start, stop)] for a one-character needle: the bounds
    are normalised as for a slice (the lower one is not clamped to the
    length), and [-1] means that there is no occurrence. *)
Definition rfind (s : str) (ch : codepoint) (start stop : Z) : Z :=
  let n := len s in
  let b := adjust_index n stop in
  let a := if start <? 0 then Z.max 0 (start + n) else start in
  match last_index ch (firstn (Z.to_nat (b - a)) (skipn (Z.to_nat a) s)) with
  | Some i => a + Z.of_nat i
  | None => -1
  end.

(** *** UTF-8

    The octets of [s.encode('utf-8')] when that call returns, which it
    does unless [s] holds a surrogate ([encode] below has the raise), and
    [b.decode('utf-8', errors='ignore')]. *)

Definition encode_codepoint (c : codepoint) : bytes :=
  if c <? 128 then [c]
  else if c <? 2048 then [192 + c / 64; 128 + c mod 64]
  else if c <? 65536 then
    [224 + c / 4096; 128 + (c / 64) mod 64; 128 + c mod 64]
  else
    [240 + c / 262144; 128 + (c / 4096) mod 64; 128 + (c / 64) mod 64;
     128 + c mod 64].

Definition encode_utf8 (s : str) : bytes := flat_map encode_codepoint s.

Definition in_range (lo hi b : Z) : bool := (lo <=? b) && (b <=? hi).

Definition continuation (b : Z) : bool := in_range 128 191 b.

(** Admissible second octet after the lead octet [b0] of a three or four
    octet sequence (no overlong forms, no surrogates, nothing above
    U+10FFFF). *)
Definition second_octet (b0 b1 : Z) : bool :=
  if b0 =? 224 then in_range 160 191 b1
  else if b0 =? 237 then in_range 128 159 b1
  else if b0 =? 240 then in_range 144 191 b1
  else if b0 =? 244 then in_range 128 143 b1
  else continuation b1.

(** The decoder drops every malformed octet sequence (the maximal
    ill-formed prefix at each error) and goes on with the next octet;
    a sequence cut short by the end of the input is dropped as well. *)
Fixpoint decode_utf8_ignore (bs : bytes) : str :=
  match bs with
  | [] => []
  | b0 :: r0 =>
      if b0 <? 128 then b0 :: decode_utf8_ignore r0
      else if in_range 194 223 b0 then
        match r0 with
        | [] => []
        | b1 :: r1 =>
            if continuation b1
            then ((b0 - 192) * 64 + (b1 - 128)) :: decode_utf8_ignore r1
            else decode_utf8_ignore r0
        end
      else if in_range 224 239 b0 then
        match r0 with
        | [] => []
        | b1 :: r1 =>
            if second_octet b0 b1 then
              match r1 with
              | [] => []
              | b2 :: r2 =>
                  if continuation b2
                  then ((b0 - 224) * 4096 + (b1 - 128) * 64 + (b2 - 128))
                         :: decode_utf8_ignore r2
                  else decode_utf8_ignore r1
              end
            else decode_utf8_ignore r0
        end
      else if in_range 240 244 b0 then
        match r0 with
        | [] => []
        | b1 :: r1 =>
            if second_octet b0 b1 then
              match r1 with
              | [] => []
              | b2 :: r2 =>
                  if continuation b2 then
                    match r2 with
                    | [] => []
                    | b3 :: r3 =>
                        if continuation b3
                        then ((b0 - 240) * 262144 + (b1 - 128) * 4096
                              + (b2 - 128) * 64 + (b3 - 128))
                               :: decode_utf8_ignore r3
                        else decode_utf8_ignore r2
                    end
                  else decode_utf8_ignore r1
              end
            else decode_utf8_ignore r0
        end
      else decode_utf8_ignore r0
  end.

(** *** [json.dumps] with its defaults ([ensure_ascii=True], separators
    [", "] and [": "]) on a flat dictionary of strings and booleans. *)

Inductive value :=
| VStr (s : str)
| VBool (b : bool).

(** A [dict]: the items in insertion order, no key twice. *)
Definition dict := list (str * value).

Fixpoint dict_get (d : dict) (k : str) : option value :=
  match d with
  | [] => None
  | (k', v) :: d' => if str_eqb k' k then Some v else dict_get d' k
  end.

(** [d[k] = v] *)
Fixpoint dict_set (d : dict) (k : str) (v : value) : dict :=
  match d with
  | [] => [(k, v)]
  | (k', v') :: d' =>
      if str_eqb k' k then (k', v) :: d' else (k', v') :: dict_set d' k v
  end.

Definition hex_digit (d : Z) : codepoint :=
  if d <? 10 then 48 + d else 87 + d.

(** [\uXXXX] *)
Definition u_escape (c : Z) : str :=
  [92; 117; hex_digit (c / 4096); hex_digit ((c / 256) mod 16);
   hex_digit ((c / 16) mod 16); hex_digit (c mod 16)].

Definition json_escape (c : codepoint) : str :=
  if c =? 34 then [92; 34]
  else if c =? 92 then [92; 92]
  else if c =? 10 then [92; 110]
  else if c =? 13 then [92; 114]
  else if c =? 9 then [92; 116]
  else if c =? 8 then [92; 98]
  else if c =? 12 then [92; 102]
  else if in_range 32 126 c then [c]
  else if c <? 65536 then u_escape c
  else
    let v := c - 65536 in
    u_escape (55296 + v / 1024) ++ u_escape (56320 + v mod 1024).

Definition json_string (s : str) : str :=
  [34] ++ flat_map json_escape s ++ [34].

Definition json_value (v : value) : str :=
  match v with
  | VStr s => json_string s
  | VBool true => lit "true"
  | VBool false => lit "false"
  end.

Definition json_item (kv : str * value) : str :=
  json_string (fst kv) ++ lit ": " ++ json_value (snd kv).

Fixpoint json_items (d : dict) : str :=
  match d with
  | [] => []
  | [kv] => json_item kv
  | kv :: d' => json_item kv ++ lit ", " ++ json_items d'
  end.

Definition json_dumps (d : dict) : str :=
  lit "{" ++ json_items d ++ lit "}".

(** A Unicode scalar value: a code point that is not a surrogate. *)
Definition scalar (c : codepoint) : Prop :=
0 <= c < 55296 \/ 57344 <= c < 1114112.

(** A surrogate code point, which a [str] may hold on its own. *)
Definition surrogate (c : codepoint) : bool :=
(55296 <=? c) && (c <=? 57343).

(** [s.encode('utf-8')]; [None] is the [UnicodeEncodeError] that a
surrogate in [s] raises. *)
Definition encode (s : str) : option bytes :=
if existsb surrogate s then None else Some (encode_utf8 s).

(** [t] is [s] cut after some character. *)
Definition prefix_of (t s : str) : Prop := exists rest, s = t ++ rest.

(** A printable ASCII character that JSON writes as it is. *)
Definition plain (c : codepoint) : Prop :=
32 <= c <= 126 /\ c <> 34 /\ c <> 92.

End Py.

(** ** Content chunker ([firecrawl/crawler.py]) *)

Module Chunker.
Import Py.

Definition space : codepoint := 32.

(** Right edge of the window that starts at [start]: the body of the
    loop up to the extraction of the chunk. *)
Definition window_end (content : str) (max_chunk_size start : Z) : Z :=
  let e := start + max_chunk_size in
  if e <? len content then
    let last_space := rfind content space start e in
    if negb (last_space =? -1) then last_space else e
  else len content.

(** The [while start < len(content)] loop.  One unit of fuel is one
    iteration; [None] means that the fuel ran out with the loop
    condition still true. *)
Fixpoint chunk_loop (fuel : nat) (content : str) (max_chunk_size overlap : Z)
    (start : Z) (chunks : list str) : option (list str) :=
  match fuel with
  | O => None
  | S fuel' =>
      if start <? len content then
        let e := window_end content max_chunk_size start in
        let chunk := strip (slice content start e) in
        let chunks' := if truthy chunk then chunks ++ [chunk] else chunks in
        chunk_loop fuel' content max_chunk_size overlap (e - overlap) chunks'
      else Some chunks
  end.

Definition chunk_firecrawl_content (fuel : nat) (content : str)
    (max_chunk_size overlap : Z) : option (list str) :=
  if len content <=? max_chunk_size then Some [content]
  else chunk_loop fuel content max_chunk_size overlap 0 [].

(** The text that [tests/test_firecrawl_crawler.py] chunks with
    [max_chunk_size=100], first without overlap and then with
    [overlap=20]. *)
Definition test_content : str :=
  concat (repeat
    (lit "This is a longer content that needs to be split into multiple chunks. ")
    10).






(** A piece that is not empty and has no white space at either end. *)
Definition trimmed (p : str) : Prop :=
match p with
| [] => False
| c :: _ => isspace c = false /\ isspace (last p 0) = false
end.

(** The windows of [max_chunk_size] characters that follow each other
from the start of the text, the last one possibly shorter. *)
Definition cut (content : str) (max_chunk_size : Z) (j : nat) : str :=
slice content (Z.of_nat j * max_chunk_size)
      (Z.of_nat j * max_chunk_size + max_chunk_size).

Definition hard_cuts (content : str) (max_chunk_size : Z) : list str :=
map (cut content max_chunk_size)
    (seq 0 (Z.to_nat ((len content + max_chunk_size - 1) / max_chunk_size))).

End Chunker.

(** ** Chunks

    The pipeline passes chunks around as dictionaries with a fixed set of
    keys; a key that may be missing is an optional field. *)

Module Chunk.
Import Py.

Record chunk := mk_chunk {
  text : option str;
  source_type : option str;
  file_path : option str;
  source_url : option str;
  url : option str;
  embedding : option (list float)
}.

(** [chunk.get(key, default)] *)
Definition get {A : Type} (field : option A) (default : A) : A :=
  match field with Some v => v | None => default end.

(** [key in chunk] *)
Definition has {A : Type} (field : option A) : bool :=
  match field with Some _ => true | None => false end.

(** [chunk.get(key) == s] *)
Definition is_str (field : option str) (s : str) : bool :=
  match field with Some v => str_eqb v s | None => false end.

(** [c = chunk.copy(); c["embedding"] = e] *)
Definition with_embedding (c : chunk) (e : list float) : chunk :=
  {| text := text c; source_type := source_type c;
     file_path := file_path c; source_url := source_url c;
     url := url c; embedding := Some e |}.

End Chunk.

(** ** Vector packager ([pinecone/index_manager.py]) *)

Module Packager.
Import Py Chunk.

Record vector := mk_vector {
  id : str;
  values : list float;
  metadata : dict
}.

Definition MAX_METADATA_SIZE : Z := 40 * 1024.

(** [len(json.dumps(metadata).encode('utf-8'))]; [json.dumps] escapes
    everything outside ASCII, so this [encode] cannot raise. *)
Definition serialized_size (metadata : dict) : Z :=
  len (encode_utf8 (json_dumps metadata)).

(** [generate_vector_id], given the string of the UUID that it draws. *)
Definition generate_vector_id (unique_id prefix : str) : str :=
  if truthy prefix then prefix ++ lit "-" ++ unique_id else unique_id.

(** The metadata before the text goes in. *)
Definition base_metadata (c : chunk) : dict :=
  let metadata := [(lit "source_type", VStr (get (source_type c) (lit "unknown")))] in
  if is_str (source_type c) (lit "repository") && has (file_path c) then
    dict_set metadata (lit "file_path") (VStr (get (file_path c) []))
  else if is_str (source_type c) (lit "firecrawl") && has (source_url c) then
    dict_set metadata (lit "source_url") (VStr (get (source_url c) []))
  else metadata.

Definition available_space (metadata : dict) : Z :=
  MAX_METADATA_SIZE - serialized_size metadata - 10.

(** The metadata of the record of one chunk, on the path where
    [text.encode('utf-8')] returns; [raises] below tells when it does
    not. *)
Definition chunk_metadata (c : chunk) : dict :=
  let metadata := base_metadata c in
  let text := get (text c) [] in
  let available_space := available_space metadata in
  if len (encode_utf8 text) >? available_space then
    let truncated_text :=
      decode_utf8_ignore (slice_to (encode_utf8 text) available_space) in
    dict_set (dict_set metadata (lit "text") (VStr truncated_text))
             (lit "truncated") (VBool true)
  else dict_set metadata (lit "text") (VStr text).

(** The record that the body of the loop makes of one chunk, on the
    same path; [unique_id] is the UUID drawn for it. *)
Definition package (unique_id : str) (c : chunk) : vector :=
  {| id := generate_vector_id unique_id (get (source_type c) []);
     values := get (embedding c) [];
     metadata := chunk_metadata c |}.

(** What [text.encode] can raise in the size test. *)
Inductive text_error :=
| UnicodeEncodeError
| AttributeError.

(** A chunk as the packager receives it: the value under [text] is a
string (or the key is missing), or it is a value of another type, which
has no [encode]; then [c] holds the other keys and [text c] is not looked
at. *)
Inductive received :=
| Textual (c : chunk)
| NonTextual (c : chunk).

Definition chunk_of (r : received) : chunk :=
match r with Textual c | NonTextual c => c end.

(** What [len(text.encode('utf-8'))], the first use of the text, raises
for a chunk, if anything. *)
Definition raises (r : received) : option text_error :=
match r with
| NonTextual _ => Some AttributeError
| Textual c =>
    match encode (get (text c) []) with
    | Some _ => None
    | None => Some UnicodeEncodeError
    end
end.

(** How the function ends: with the list of records, or with the
exception of a text. *)
Inductive packaging :=
| Packaged (vectors : list vector)
| PackagingRaises (e : text_error).

(** The loop; [uuid4 n] is the [n]-th UUID that the generator hands
out. *)
Fixpoint prepare_loop (uuid4 : nat -> str) (drawn : nat)
    (chunks_with_embeddings : list received) (vectors : list vector)
    : packaging :=
match chunks_with_embeddings with
| [] => Packaged vectors
| chunk :: rest =>
    match raises chunk with
    | Some e => PackagingRaises e
    | None =>
        prepare_loop uuid4 (S drawn) rest
          (vectors ++ [package (uuid4 drawn) (chunk_of chunk)])
    end
end.

Definition prepare_vectors_for_upsert (uuid4 : nat -> str)
    (chunks_with_embeddings : list received) : packaging :=
prepare_loop uuid4 0 chunks_with_embeddings [].

(** The records of chunks none of which raises. *)
Fixpoint records (uuid4 : nat -> str) (drawn : nat) (chunks : list chunk)
    : list vector :=
match chunks with
| [] => []
| c :: rest => package (uuid4 drawn) c :: records uuid4 (S drawn) rest
end.

(** A chunk whose text is one high surrogate on its own, as a page cut
in the middle of an emoji leaves it. *)
Definition surrogate_chunk : chunk :=
{| text := Some [55357]; source_type := Some (lit "web");
   file_path := None; source_url := None; url := Some (lit "https://example.com");
   embedding := Some [] |}.

(** What [firecrawl/crawler.py]'s [process_firecrawl_results] builds for
    one scraped or searched page that has content. *)
Definition firecrawl_chunk (page_url content page_source_type : str) : chunk :=
  {| text := Some content; source_type := Some page_source_type;
     file_path := None; source_url := None; url := Some page_url;
     embedding := None |}.

(** A repository chunk with a text of 50000 letters [a]. *)
Definition oversized_chunk : chunk :=
  {| text := Some (repeat 97 (Z.to_nat 50000));
     source_type := Some (lit "repository");
     file_path := Some (lit "docs/big.txt");
     source_url := None; url := None; embedding := Some [] |}.

(** The keys that the packager writes. *)
Definition packager_keys : list str :=
[lit "source_type"; lit "file_path"; lit "source_url"; lit "text";
 lit "truncated"].

(** A repository chunk with 30000 letters [e] with an acute accent, two
octets each. *)
Definition accented_chunk : chunk :=
{| text := Some (repeat 233 (Z.to_nat 30000));
   source_type := Some (lit "repository");
   file_path := Some (lit "docs/resume.txt");
   source_url := None; url := None; embedding := Some [] |}.

(** A generator of distinct strings of 36 characters. *)
Definition counter_uuid (n : nat) : str :=
repeat 48 35 ++ [256 + Z.of_nat n].

End Packager.

(** ** Embedding of chunk sequences ([embedding/embedder.py]) *)

Module Embedder.
Import Py Chunk.

(** What a call of an embedding function does. *)
Inductive outcome :=
| Returns (v : list float)
| RaisesEmbeddingError (msg : str)
| RaisesException (msg : str).

Definition embedding_function := str -> outcome.

(** The [EmbeddingError]s that leave [embed_chunks]. *)
Inductive embedding_error :=
| DimensionMismatch (expected got : Z)
| Reraised (msg : str)
| Unexpected (i : nat) (msg : str).

Inductive result :=
| Ok (embedded_chunks : list chunk)
| Raise (e : embedding_error).

(** The loop of [embed_chunks] from position [i] on.  The second
    component lists the texts handed to the embedding function, in
    call order. *)
Fixpoint embed_loop (f : embedding_function) (dimension : Z) (i : nat)
    (chunks embedded_chunks : list chunk) (calls : list str)
    : result * list str :=
  match chunks with
  | [] => (Ok embedded_chunks, calls)
  | c :: rest =>
      let text := get (text c) [] in
      if negb (truthy text) then
        embed_loop f dimension (S i) rest embedded_chunks calls
      else
        match f text with
        | Returns e =>
            if negb (len e =? dimension) then
              (Raise (DimensionMismatch dimension (len e)), calls ++ [text])
            else
              embed_loop f dimension (S i) rest
                (embedded_chunks ++ [with_embedding c e]) (calls ++ [text])
        | RaisesEmbeddingError msg => (Raise (Reraised msg), calls ++ [text])
        | RaisesException msg => (Raise (Unexpected i msg), calls ++ [text])
        end
  end.

Definition embed_chunks (chunks : list chunk) (f : embedding_function)
    (dimension : Z) : result * list str :=
  embed_loop f dimension 0 chunks [] [].

(** The chunks that are not skipped. *)
Definition has_text (c : chunk) : bool := truthy (get (text c) []).

(** [get_text c] is [chunk.get("text", "")]. *)
Definition get_text (c : chunk) : str := get (text c) [].

(** The embedded chunk that [embed_chunks] makes of [c] when the
    function returns [v] with the expected length. *)
Definition embedded_as (f : embedding_function) (dimension : Z)
    (c o : chunk) : Prop :=
  exists v, f (get_text c) = Returns v /\ len v = dimension /\
            o = with_embedding c v.

(** The function returns a vector (it does not raise) on the text of
    every chunk that is not skipped. *)
Definition returns_on (f : embedding_function) (chunks : list chunk) : Prop :=
  forall c, In c chunks -> has_text c = true ->
            exists v, f (get_text c) = Returns v.

Definition plain_chunk (t : str) : chunk :=
  {| text := Some t; source_type := Some (lit "repository");
     file_path := Some (lit "a.py"); source_url := None; url := None;
     embedding := None |}.



End Embedder.

(** ** Batched upsert ([pinecone/index_manager.py]) *)

Module Upsert.
Import Py Packager.

(** The shapes of an answer of [index.upsert] that the engine tells
    apart: something with a [get] method (a mapping, which may lack the
    count), something with an [upserted_count] attribute, anything else. *)
Inductive upsert_response :=
| RestResponse (upserted_count : option Z)
| GrpcResponse (upserted_count : Z)
| OpaqueResponse.

(** A call of [index.upsert] answers and leaves the index in a new
    state, or raises. *)
Inductive call_outcome (Index : Type) :=
| Responds (r : upsert_response) (index' : Index)
| Throws (msg : str).
Arguments Responds {Index} r index'.
Arguments Throws {Index} msg.

Inductive upsert_result :=
| Upserted (total_upserted : Z)
| PineconeError (msg : str).

(** [range(0, stop, step)]; [None] is the [ValueError] of a zero step. *)
Definition range0 (stop step : Z) : option (list Z) :=
  if step =? 0 then None
  else if step <? 0 then Some []
  else Some (map (fun k => Z.of_nat k * step)
                 (seq 0 (Z.to_nat ((stop + step - 1) / step)))).

Definition batch_upserted (r : upsert_response) (batch : list vector) : Z :=
  match r with
  | RestResponse (Some n) => n
  | RestResponse None => len batch
  | GrpcResponse n => n
  | OpaqueResponse => len batch
  end.

Section Engine.
Variable Index : Type.
Variable upsert : Index -> list vector -> str -> call_outcome Index.

(** The [for i in range(...)] loop.  Besides the result it gives the
    final state of the index and the batches sent, in call order. *)
Fixpoint upsert_loop (index : Index) (vectors : list vector)
    (namespace : str) (batch_size : Z) (starts : list Z)
    (total_upserted : Z) (sent : list (list vector))
    : upsert_result * Index * list (list vector) :=
  match starts with
  | [] => (Upserted total_upserted, index, sent)
  | i :: starts' =>
      let batch := slice vectors i (i + batch_size) in
      match upsert index batch namespace with
      | Throws msg =>
          (PineconeError (lit "Error upserting vectors: " ++ msg),
           index, sent ++ [batch])
      | Responds r index' =>
          upsert_loop index' vectors namespace batch_size starts'
            (total_upserted + batch_upserted r batch) (sent ++ [batch])
      end
  end.

Definition upsert_vectors (index : Index) (vectors : list vector)
    (namespace : str) (batch_size : Z)
    : upsert_result * Index * list (list vector) :=
  match range0 (len vectors) batch_size with
  | None =>
      (PineconeError (lit "Error upserting vectors: "
                        ++ lit "range() arg 3 must not be zero"),
       index, [])
  | Some starts =>
      upsert_loop index vectors namespace batch_size starts 0 []
  end.

End Engine.


(** [MockIndex]: per namespace, the stored vectors by id. *)
Definition MockIndex := list (str * list (str * vector)).

Fixpoint store (ns : list (str * vector)) (v : vector)
    : list (str * vector) :=
  match ns with
  | [] => [(id v, v)]
  | (k, w) :: ns' =>
      if str_eqb k (id v) then (k, v) :: ns' else (k, w) :: store ns' v
  end.

Definition store_all (ns : list (str * vector)) (vectors : list vector)
    : list (str * vector) :=
  fold_left (fun acc v => if truthy (id v) then store acc v else acc)
            vectors ns.

Fixpoint mock_namespaces (index : MockIndex) (namespace : str)
    (vectors : list vector) : MockIndex :=
  match index with
  | [] => [(namespace, store_all [] vectors)]
  | (k, ns) :: index' =>
      if str_eqb k namespace then (k, store_all ns vectors) :: index'
      else (k, ns) :: mock_namespaces index' namespace vectors
  end.

Definition mock_upsert (index : MockIndex) (vectors : list vector)
    (namespace : str) : call_outcome MockIndex :=
  Responds (RestResponse (Some (len vectors)))
           (mock_namespaces index namespace vectors).




(** The 250 records of the end-to-end scenario. *)
Definition scenario_vectors : list vector :=
  map (fun i => {| id := lit "repository-" ++ [1000 + Z.of_nat i];
                   values := []; metadata := [] |})
      (seq 0 250).


(** [self.namespaces[namespace][vector_id]], when both keys are there. *)
Fixpoint lookup {A : Type} (d : list (str * A)) (k : str) : option A :=
match d with
| [] => None
| (k', v) :: d' => if str_eqb k' k then Some v else lookup d' k
end.

Definition mock_fetch (index : MockIndex) (namespace vector_id : str)
    : option vector :=
match lookup index namespace with
| Some ns => lookup ns vector_id
| None => None
end.


End Upsert.

(** ** Chunk extractor ([repomix/processor.py]) *)

Module Extractor.
Import Py Chunk.

Inductive exception :=
| FileNotFoundError (msg : str)
| ParseError (msg : str)
| OtherException (msg : str).

Definition message (e : exception) : str :=
  match e with
  | FileNotFoundError m | ParseError m | OtherException m => m
  end.

Inductive io (A : Type) :=
| Value (a : A)
| Raised (e : exception).
Arguments Value {A} a.
Arguments Raised {A} e.

(** A [<file>] element of the parsed tree: its [path] attribute and its
    text. *)
Record file_elem := mk_file_elem {
  path_attr : option str;
  elem_text : option str
}.

(** What the function reaches outside itself: opening and reading the
    file, the XML parser (with the [.//file] elements of the tree it
    builds, in document order) and the regular-expression search for file
    sections. *)
Record environment := mk_environment {
  open_read : str -> io str;
  ET_parse : str -> io (list file_elem);
  findall_file_sections : str -> list (str * str)
}.

Fixpoint starts_with (prefix s : str) : bool :=
  match prefix, s with
  | [], _ => true
  | p :: prefix', c :: s' => (p =? c) && starts_with prefix' s'
  | _ :: _, [] => false
  end.

(** [sub in s] *)
Fixpoint contains (sub s : str) : bool :=
  starts_with sub s
  || match s with [] => false | _ :: s' => contains sub s' end.

(** [s.split(sep)] for a non-empty separator; [skip] counts the
    characters of a separator found that are still to pass over. *)
Fixpoint split_from (sep : str) (skip : nat) (cur : str) (s : str)
    : list str :=
  match s with
  | [] => [rev cur]
  | c :: s' =>
      match skip with
      | S k => split_from sep k cur s'
      | O =>
          if starts_with sep s
          then rev cur :: split_from sep (List.length sep - 1) [] s'
          else split_from sep O (c :: cur) s'
      end
  end.

Definition split (s sep : str) : list str := split_from sep O [] s.

Definition repository_chunk (content path : str) : chunk :=
  {| text := Some content; source_type := Some (lit "repository");
     file_path := Some path; source_url := None; url := None;
     embedding := None |}.

Definition error_chunk (e : exception) : chunk :=
  {| text := Some (lit "Error parsing Repomix output: " ++ message e);
     source_type := Some (lit "error");
     file_path := Some (lit "error.txt"); source_url := None; url := None;
     embedding := None |}.

(** The chunks of the [<file>] elements that carry a path. *)
Fixpoint xml_chunks (elems : list file_elem) : list chunk :=
  match elems with
  | [] => []
  | fe :: rest =>
      let file_path := get (path_attr fe) [] in
      if negb (truthy file_path) then xml_chunks rest
      else repository_chunk (get (elem_text fe) []) file_path
             :: xml_chunks rest
  end.

Definition directory_structure : str := lit "<directory_structure>".

(** The fallback extraction from the raw content. *)
Definition fallback_chunks (env : environment) (content : str) : list chunk :=
  let summary_match :=
    if contains directory_structure content
    then nth 0 (split content directory_structure) []
    else content in
  let chunks := [repository_chunk (strip summary_match)
                   (lit "repository_summary.txt")] in
  let chunks :=
    chunks ++ map (fun fc => repository_chunk (strip (snd fc)) (fst fc))
                  (findall_file_sections env content) in
  if (len chunks =? 1) && contains directory_structure content then
    chunks ++ [repository_chunk
                 (strip (nth 1 (split content directory_structure) []))
                 (lit "directory_structure.txt")]
  else chunks.

Definition parse_repomix_output (env : environment) (xml_path : str)
    : io (list chunk) :=
  match open_read env xml_path with
  | Raised (FileNotFoundError m) => Raised (FileNotFoundError m)
  | Raised e => Value [error_chunk e]
  | Value content =>
      match ET_parse env xml_path with
      | Value elems =>
          let chunks := xml_chunks elems in
          if truthy chunks then Value chunks
          else Value (fallback_chunks env content)
      | Raised (ParseError _) => Value (fallback_chunks env content)
      | Raised (FileNotFoundError m) => Raised (FileNotFoundError m)
      | Raised e => Value [error_chunk e]
      end
  end.



Definition is_not_found (e : exception) : bool :=
  match e with FileNotFoundError _ => true | _ => false end.



(** A [<file>] element with a path that is not empty. *)
Definition has_path (fe : file_elem) : bool := truthy (get (path_attr fe) []).

(** The chunk made of a [<file>] element that has a path. *)
Definition chunk_of_elem (fe : file_elem) : chunk :=
repository_chunk (get (elem_text fe) []) (get (path_attr fe) []).

(** [sep.join(pieces)] *)
Fixpoint join (sep : str) (pieces : list str) : str :=
match pieces with
| [] => []
| [p] => p
| p :: rest => p ++ sep ++ join sep rest
end.

(** [sub] occurs in [s]. *)
Definition substring (sub s : str) : Prop :=
exists before after, s = before ++ sub ++ after.

(** A well-formed chunk of the extractor: text, source type and path are
there, the source type is [repository] or [error], nothing is embedded. *)
Definition well_formed (c : chunk) : Prop :=
(exists t, text c = Some t) /\
(exists fp, file_path c = Some fp) /\
(source_type c = Some (lit "repository") \/ source_type c = Some (lit "error")) /\
embedding c = None.

(** A dump with two files, the second without a path. *)
Definition two_files_env : environment :=
{| open_read := fun _ => Value (lit "<repo><file path='a.py'>x = 1</file><file>lost</file></repo>");
   ET_parse := fun _ => Value [ {| path_attr := Some (lit "a.py");
                                   elem_text := Some (lit "x = 1") |};
                                {| path_attr := None;
                                   elem_text := Some (lit "lost") |} ];
   findall_file_sections := fun _ => [] |}.

(** A dump that is no XML, with a summary and a directory listing and no
file sections. *)
Definition listing_only_env : environment :=
{| open_read := fun _ =>
     Value (lit "A summary. <directory_structure> src/a.py src/b.py ");
   ET_parse := fun _ => Raised (ParseError (lit "syntax error: line 1, column 0"));
   findall_file_sections := fun _ => [] |}.

End Extractor.

(** ** Floating-point helpers *)

Module Flt.
(** The double nearest to a small non-negative integer. *)
Definition of_Z (z : Z) : float := PrimFloat.of_uint63 (Uint63.of_Z z).

(** [[x] * n] *)
Definition constant (x : float) (n : Z) : list float :=
  repeat x (Z.to_nat n).
End Flt.

(** ** Ingestion validator ([validation/validation.py]), from the sampling
    of the candidate paths on *)

Module Validator.
Import Py.

(** A match of a query answer: its metadata and score, when it has
    them. *)
Record query_match := mk_match {
  match_metadata : option dict;
  match_score : option float
}.

(** An answer of [index.query]: its [matches], when it has them. *)
Record query_response := mk_response {
  matches : option (list query_match)
}.

Inductive query_outcome (Index : Type) :=
| Answers (r : query_response) (index' : Index)
| Fails (msg : str) (index' : Index).
Arguments Answers {Index} r index'.
Arguments Fails {Index} msg index'.

(** One entry of [validation_results]. *)
Record validation_result := mk_result {
  file_path : str;
  found : bool;
  match_field : option str;
  match_value : option str;
  score : option float;
  error : option str
}.

Definition found_result (fp key val : str) (sc : option float) :=
  {| file_path := fp; found := true; match_field := Some key;
     match_value := Some val; score := sc; error := None |}.

Definition not_found_result (fp : str) (err : option str) :=
  {| file_path := fp; found := false; match_field := None;
     match_value := None; score := None; error := err |}.

(** First item of a metadata mapping whose value is a string that
    contains the path or is contained in it. *)
Fixpoint matching_item (fp : str) (items : dict) : option (str * str) :=
  match items with
  | [] => None
  | (key, VStr val) :: rest =>
      if Extractor.contains fp val || Extractor.contains val fp
      then Some (key, val) else matching_item fp rest
  | (_, VBool _) :: rest => matching_item fp rest
  end.

(** The scan of the matches: the entry of the first match that has a
    matching item. *)
Fixpoint scan_matches (fp : str) (ms : list query_match)
    : option validation_result :=
  match ms with
  | [] => None
  | m :: rest =>
      match matching_item fp (Chunk.get (match_metadata m) []) with
      | Some (key, val) => Some (found_result fp key val (match_score m))
      | None => scan_matches fp rest
      end
  end.

(** [[(0.2 if i % 2 == 0 else 0.3) for i in range(n)]] *)
Definition alternating (n : Z) : list float :=
  map (fun i => if Nat.even i then 0.2%float else 0.3%float)
      (seq 0 (Z.to_nat n)).

Section Validation.
Variable Index : Type.
(** [index.query(namespace, top_k, include_metadata=True, vector)] *)
Variable query : Index -> str -> Z -> list float -> query_outcome Index.

(** The body of the loop for one sampled path: the entry appended to
    [validation_results] and the state of the index afterwards. *)
Definition validate_path (index : Index) (namespace fp : str)
    (embedding_dimension : Z) : validation_result * Index :=
  match query index namespace 50 (Flt.constant 0.1%float embedding_dimension) with
  | Fails msg index1 => (not_found_result fp (Some msg), index1)
  | Answers r1 index1 =>
      match scan_matches fp (Chunk.get (matches r1) []) with
      | Some entry => (entry, index1)
      | None =>
          match query index1 namespace 100 (alternating embedding_dimension) with
          | Fails _ index2 => (not_found_result fp None, index2)
          | Answers r2 index2 =>
              match scan_matches fp (Chunk.get (matches r2) []) with
              | Some entry => (entry, index2)
              | None => (not_found_result fp None, index2)
              end
          end
      end
  end.

Fixpoint validate_paths (index : Index) (namespace : str)
    (sample_paths : list str) (embedding_dimension : Z)
    (validation_results : list validation_result)
    : list validation_result * Index :=
  match sample_paths with
  | [] => (validation_results, index)
  | fp :: rest =>
      let '(entry, index') :=
        validate_path index namespace fp embedding_dimension in
      validate_paths index' namespace rest embedding_dimension
        (validation_results ++ [entry])
  end.

Record report := mk_report {
  success : bool;
  success_rate : float;
  found_count : Z;
  total_count : Z;
  results : list validation_result
}.

(** The function from the point where [file_paths] is known to be
    non-empty; [random_sample] is [random.sample]. *)
Definition validate_file_paths (random_sample : list str -> Z -> list str)
    (index : Index) (namespace : str) (file_paths : list str)
    (embedding_dimension : Z) : report * list str * Index :=
  let sample_size := Z.min 5 (len file_paths) in
  let sample_paths := random_sample file_paths sample_size in
  let '(validation_results, index') :=
    validate_paths index namespace sample_paths embedding_dimension [] in
  let found_count :=
    len (filter found validation_results) in
  let success_rate :=
    if truthy validation_results
    then PrimFloat.div (Flt.of_Z found_count) (Flt.of_Z (len validation_results))
    else Flt.of_Z 0 in
  ({| success := PrimFloat.leb 0.6%float success_rate;
      success_rate := success_rate;
      found_count := found_count;
      total_count := len validation_results;
      results := validation_results |},
   sample_paths, index').
End Validation.



(** The first-[k] choice, one of the drawings that [random.sample] can
    make. *)
Definition first_k (population : list str) (k : Z) : list str :=
  firstn (Z.to_nat k) population.

(** An index that fails on its second call and otherwise answers with
    one match whose [file_path] is ["src/"]; the state counts the
    calls. *)
Definition flaky_query (calls : nat) (namespace : str) (top_k : Z)
    (vector : list float) : query_outcome nat :=
  if Nat.eqb calls 1 then Fails (lit "timed out") (S calls)
  else Answers
         {| matches := Some [ {| match_metadata :=
                                   Some [(lit "file_path", VStr (lit "src/"))];
                                 match_score := Some 0.9%float |} ] |}
         (S calls).


End Validator.

(** ** Embedding dispatcher ([embedding/embedder.py]) *)

Module Dispatcher.
Import Py Embedder.

(** [s.split()]: the maximal runs of non-whitespace characters. *)
Fixpoint split_whitespace (cur : str) (s : str) : list str :=
  match s with
  | [] => if truthy cur then [rev cur] else []
  | c :: s' =>
      if isspace c then
        (if truthy cur then [rev cur] else []) ++ split_whitespace [] s'
      else split_whitespace (c :: cur) s'
  end.

Definition split (s : str) : list str := split_whitespace [] s.

(** [embedding[index] = x] *)
Fixpoint set_item (embedding : list float) (index : nat) (x : float)
    : list float :=
  match embedding, index with
  | [], _ => []
  | _ :: rest, O => x :: rest
  | y :: rest, S i => y :: set_item rest i x
  end.

(** [np.linalg.norm] of a vector: the square root of the sum of squares. *)
Definition linalg_norm (v : list float) : float :=
  PrimFloat.sqrt (fold_left (fun acc x => PrimFloat.add acc (PrimFloat.mul x x)) v 0%float).

Section Sparse.
(** [str.lower] and the built-in [hash] on strings (salted per
    process). *)
Variable lower : str -> str.
Variable hash : str -> Z.

(** The [for word in words] loop. *)
Definition hash_words (words : list str) (embedding : list float)
    : list float :=
  fold_left (fun e word => set_item e (Z.to_nat (hash word mod 384)) 1%float)
            words embedding.

(** [embed_text] of [create_pinecone_sparse_embedding_function] *)
Definition sparse_embed_text (text : str) : list float :=
  if negb (truthy text) || negb (truthy (strip text)) then
    Flt.constant 0%float 384
  else
    let embedding := Flt.constant 0%float 384 in
    let words := split (lower text) in
    let embedding := hash_words words embedding in
    let norm := linalg_norm embedding in
    if PrimFloat.ltb 0%float norm
    then map (fun x => PrimFloat.div x norm) embedding
    else embedding.
End Sparse.

(** [embed_text] of [create_mock_embedding_function] *)
Definition mock_embed_text (text : str) : list float :=
  Flt.constant 0%float 384.

(** The part of the configuration that the pipeline reads for the
    embedding stage: [embedding.model] and [pinecone.dimension]. *)
Record config := mk_config {
  embedding_model : str;
  pinecone_dimension : Z
}.

Inductive dispatch :=
| Function (f : embedding_function)
| ValueError (msg : str).

(** [get_embedding_function]; [e5] is the function that asks the remote
    service. *)
Definition get_embedding_function (lower : str -> str) (hash : str -> Z)
    (e5 : embedding_function) (cfg : config) : dispatch :=
  let model_name := embedding_model cfg in
  if negb (truthy model_name) then
    ValueError (lit "Embedding model not specified in configuration")
  else if str_eqb model_name (lit "multilingual-e5-large") then Function e5
  else if str_eqb model_name (lit "llama-text-embed-v2") then
    Function (fun _ => Returns [])
  else if str_eqb model_name (lit "pinecone-sparse-english-v0") then
    Function (fun text => Returns (sparse_embed_text lower hash text))
  else if str_eqb model_name (lit "mock_embedding_model") then
    Function (fun text => Returns (mock_embed_text text))
  else ValueError (lit "Unsupported embedding model: " ++ model_name).

(** *** Exact values of doubles *)

(** The rational number that a finite double stands for. *)
Definition to_Q (x : float) : Q :=
  match Prim2SF x with
  | S754_finite s m e =>
      let v := if s then Z.neg m else Z.pos m in
      if 0 <=? e then inject_Z (v * 2 ^ e)
      else Qmake v (Z.to_pos (2 ^ (- e)))
  | _ => 0%Q
  end.

(** The sum of the squares of the entries, computed exactly. *)
Definition sum_squares (v : list float) : Q :=
  fold_right (fun x acc => (to_Q x * to_Q x + acc)%Q) 0%Q v.

(** A vector of doubles is L2-normalized when its exact Euclidean norm
    squared is 1 up to the rounding of the division and of the square
    root, here [2^-51]. *)
Definition l2_normalized (v : list float) : Prop :=
  (Qabs (sum_squares v - 1) <= 1 # 2251799813685248)%Q.

(** The vector with [x] at the marked positions and zero elsewhere. *)
Definition of_mask (x : float) (mask : list bool) : list float :=
  map (fun b : bool => if b then x else 0%float) mask.

Fixpoint mask_set (mask : list bool) (index : nat) : list bool :=
  match mask, index with
  | [], _ => []
  | _ :: rest, O => true :: rest
  | b :: rest, S i => b :: mask_set rest i
  end.

Definition marked (mask : list bool) : nat :=
  List.length (filter (fun b : bool => b) mask).

Definition of_nat (j : nat) : float := Flt.of_Z (Z.of_nat j).

(** The entry of the normalized vector at a marked position when [k]
    positions are marked. *)
Definition unit_entry (k : nat) : float :=
  PrimFloat.div 1%float (PrimFloat.sqrt (of_nat k)).

(** A property of all numbers below [n], as a conjunction. *)
Fixpoint holds_below (P : nat -> Prop) (n : nat) : Prop :=
  match n with
  | O => True
  | S m => P m /\ holds_below P m
  end.

(** The bucket of a word. *)
Definition bucket (hash : str -> Z) (word : str) : nat :=
  Z.to_nat (hash word mod 384).

Definition non_space (s : str) : bool :=
  existsb (fun c => negb (isspace c)) s.

(** The buckets that the words hit, as a mask over the 384 positions. *)
Definition hit_mask (hash : str -> Z) (words : list str) : list bool :=
fold_left (fun m word => mask_set m (bucket hash word)) words
          (repeat false 384%nat).

(** What the properties below need of [str.lower]: it does not turn a
    text with a visible character into white space. *)
Definition keeps_words (lower : str -> str) : Prop :=
  forall s, non_space s = true -> non_space (lower s) = true.

(** [str.lower] on texts of ASCII characters. *)
Definition ascii_lower (s : str) : str :=
  map (fun c => if in_range 65 90 c then c + 32 else c) s.

(** A stand-in for the salted [hash]. *)
Definition sum_hash (s : str) : Z := fold_left Z.add s 0.

Definition sparse_config : config :=
  {| embedding_model := lit "pinecone-sparse-english-v0";
     pinecone_dimension := 1536 |}.

(** The length of the vectors of the models that are computed locally:
the placeholder for [llama-text-embed-v2] returns the empty list. *)
Definition fixed_dimension (model_name : str) : option Z :=
if str_eqb model_name (lit "llama-text-embed-v2") then Some 0
else if str_eqb model_name (lit "pinecone-sparse-english-v0") then Some 384
else if str_eqb model_name (lit "mock_embedding_model") then Some 384
else None.

Definition recognized_models : list str :=
[lit "multilingual-e5-large"; lit "llama-text-embed-v2";
 lit "pinecone-sparse-english-v0"; lit "mock_embedding_model"].

Definition mock_config (dimension : Z) : config :=
{| embedding_model := lit "mock_embedding_model";
   pinecone_dimension := dimension |}.

(** An embedding function that breaks on the text ["boom"]. *)
Definition breaks_on_boom (text : str) : outcome :=
if str_eqb text (lit "boom") then RaisesException (lit "connection reset")
else Returns (Flt.constant 0%float 384).

End Dispatcher.

(** ** Research topics ([firecrawl/deep_research.py]) *)

Module Research.
Import Py.

(** What [extract_research_topics] reads of the metadata of a chunk. *)
Record chunk_metadata := mk_metadata {
  repository_name : option str;
  tech_stack : option (list str)
}.

(** What it reads of a chunk: the [metadata] key, when it is there. *)
Record content_chunk := mk_content_chunk {
  metadata : option chunk_metadata
}.

(** [x in topics] *)
Definition mem (x : str) (topics : list str) : bool :=
existsb (str_eqb x) topics.

(** [if t and t not in topics: topics.append(t)] *)
Definition add_topic (topics : list str) (t : str) : list str :=
if truthy t && negb (mem t topics) then topics ++ [t] else topics.

(** The body of the loop for one chunk. *)
Definition chunk_topics (topics : list str) (c : content_chunk) : list str :=
let md := Chunk.get (metadata c) {| repository_name := None; tech_stack := None |} in
let topics :=
  match repository_name md with
  | Some repo_name => add_topic topics repo_name
  | None => topics
  end in
fold_left add_topic (Chunk.get (tech_stack md) []) topics.

Definition extract_research_topics (content_chunks : list content_chunk)
    : list str :=
slice_to (fold_left chunk_topics content_chunks []) 5.

(** The topics that the metadata of the chunks name. *)
Definition named_by (content_chunks : list content_chunk) (t : str) : Prop :=
exists c md, In c content_chunks /\ metadata c = Some md /\
  (repository_name md = Some t \/
   exists stack, tech_stack md = Some stack /\ In t stack).

(** What the collection keeps true of the topics. *)
Definition topics_ok (named : str -> Prop) (topics : list str) : Prop :=
NoDup topics /\ Forall (fun t => t <> [] /\ named t) topics.

(** What the pipeline passes: a chunk of the extractor, which has the
keys [text], [source_type] and [file_path] and no [metadata]. *)
Definition of_repository_chunk (c : Chunk.chunk) : content_chunk :=
{| metadata := None |}.

End Research.

(** ** Configuration ([config/config_loader.py]) *)

Module Config.
Import Py.

#[local] Set Warnings "-register-all".

(** A loaded configuration: mappings with string keys, and values that
are not mappings. *)
Inductive node :=
| Scalar (v : Z)
| Text (s : str)
| Null
| Mapping (items : list (str * node)).

(** [part in current] and [current[part]] for a mapping. *)
Fixpoint item (items : list (str * node)) (part : str) : option node :=
match items with
| [] => None
| (k, v) :: rest => if str_eqb k part then Some v else item rest part
end.

(** The walk of [get_nested_config] along the parts of the path. *)
Fixpoint walk (current : node) (parts : list str) (default : node) : node :=
match parts with
| [] => current
| part :: rest =>
    match current with
    | Mapping items =>
        match item items part with
        | Some next => walk next rest default
        | None => default
        end
    | _ => default
    end
end.

Definition get_nested_config (config : node) (key_path : str) (default : node)
    : node :=
walk config (Extractor.split key_path (lit ".")) default.

Definition REQUIRED_CONFIG_KEYS : list str :=
[lit "pinecone.dimension"; lit "pinecone.metric"; lit "embedding.model"].

(** The inner loop of [_validate_config] for one key path: [true] when
the path breaks off. *)
Fixpoint breaks_off (current : node) (parts : list str) : bool :=
match parts with
| [] => false
| part :: rest =>
    match current with
    | Mapping items =>
        match item items part with
        | Some next => breaks_off next rest
        | None => true
        end
    | _ => true
    end
end.

(** The [missing_keys] that [_validate_config] collects. *)
Definition missing_keys (config : node) : list str :=
filter (fun key_path => breaks_off config (Extractor.split key_path (lit ".")))
       REQUIRED_CONFIG_KEYS.

(** [_validate_config]: [None] when it returns, the keys of the
[ValueError] otherwise. *)
Definition validate_config (config : node) : option (list str) :=
if truthy (missing_keys config) then Some (missing_keys config) else None.

Definition sample_config : node :=
Mapping [(lit "pinecone", Mapping [(lit "dimension", Scalar 1536);
                                   (lit "metric", Text (lit "cosine"))]);
         (lit "embedding", Mapping [(lit "model", Text (lit "multilingual-e5-large"))])].

End Config.

(** ** Ingestion validator ([validation/validation.py]), up to the
sampling: reading the dump and extracting the candidate paths *)

Module Listing.
Import Py.

(** [s.lstrip(chars)] *)
Fixpoint lstrip_chars (chars : str) (s : str) : str :=
match s with
| [] => []
| c :: s' => if existsb (Z.eqb c) chars then lstrip_chars chars s' else s
end.

(** [s.endswith(suffix)] *)
Definition ends_with (suffix s : str) : bool :=
Extractor.starts_with (rev suffix) (rev s).

Definition newline : str := [10].

(** The characters that mark a line as a code fragment. *)
Definition code_marks : list str :=
[lit "="; lit "("; lit ")"; lit "{"; lit "}"; lit "<"; lit ">"; lit ";";
 lit ":"].

Section Pattern.
(** [\w] of the regular expressions on [str]: the alphanumeric
characters of Unicode and the underscore. *)
Variable word : codepoint -> bool.

(** The class [[\w\-./]]. *)
Definition path_char (c : codepoint) : bool :=
word c || (c =? 45) || (c =? 46) || (c =? 47).

(** [[\w\-./]+\.[\w]+] up to the end of [s]; [before] tells that at least
one character of the first run has been read.  Every position of the dot
is tried. *)
Fixpoint fits (before : bool) (s : str) : bool :=
match s with
| [] => false
| c :: s' =>
    (before && (c =? 46) && truthy s' && forallb word s')
    || (path_char c && fits true s')
end.

(** [re.compile(r'^[\w\-./]+\.[\w]+$').match(s)]: the [$] also matches
before a newline that ends the string. *)
Definition file_path_pattern_match (s : str) : bool :=
fits false s || (ends_with newline s && fits false (removelast s)).

(** The body of the first loop for one line: the path appended, if
any. *)
Definition pattern_line (line : str) : option str :=
let line := strip line in
if negb (truthy line) || ends_with (lit "/") line then None
else
  let clean_line := lstrip_chars (lit " -") line in
  if existsb (fun x => Extractor.contains x clean_line) code_marks then None
  else if len (Dispatcher.split clean_line) >? 2 then None
  else if file_path_pattern_match clean_line
          || Extractor.contains (lit "/") clean_line
       then Some clean_line
       else None.

(** The body of the second, lenient loop for one line. *)
Definition lenient_line (line : str) : option str :=
let line := strip line in
if truthy line && negb (ends_with (lit "/") line) then
  let clean_line := lstrip_chars (lit " -") line in
  if (len (Dispatcher.split clean_line) >? 3)
     || Extractor.contains (lit "=") clean_line
     || Extractor.contains (lit "(") clean_line
  then None
  else Some clean_line
else None.

(** A loop that appends what its body gives for each line. *)
Fixpoint collect (body : str -> option str) (lines : list str) : list str :=
match lines with
| [] => []
| line :: rest =>
    match body line with
    | Some p => p :: collect body rest
    | None => collect body rest
    end
end.

(** [dir_structure] *)
Definition dir_structure (repomix_content : str) : str :=
if Extractor.contains Extractor.directory_structure repomix_content
then strip (nth 1 (Extractor.split repomix_content
                     Extractor.directory_structure) [])
else [].

(** [file_paths], as it is when the sampling starts. *)
Definition extract_file_paths (repomix_content : str) : list str :=
let lines := Extractor.split (dir_structure repomix_content) newline in
let file_paths := collect pattern_line lines in
if negb (truthy file_paths) then collect lenient_line lines
else file_paths.

End Pattern.

(** How [validate_repository_ingestion] ends: with the dictionary that
carries an [error], with a report (and the paths sampled), or with an
exception. *)
Inductive outcome :=
| Unvalidated (error : str)
| Validated (r : Validator.report) (sample_paths : list str)
| Raises (e : Extractor.exception).

Section Whole.
Variable word : codepoint -> bool.
Variable Index : Type.
Variable query : Index -> str -> Z -> list float -> Validator.query_outcome Index.
(** [open(path, 'r').read()] *)
Variable open_read : str -> Extractor.io str.
Variable random_sample : list str -> Z -> list str.

Definition validate_repository_ingestion (index : Index)
    (namespace repomix_output_path : str) (embedding_dimension : Z)
    : outcome * Index :=
match open_read repomix_output_path with
| Extractor.Raised (Extractor.FileNotFoundError _) =>
    (Unvalidated (lit "Repomix output file not found: " ++ repomix_output_path),
     index)
| Extractor.Raised e => (Raises e, index)
| Extractor.Value repomix_content =>
    let file_paths := extract_file_paths word repomix_content in
    if negb (truthy file_paths)
    then (Unvalidated (lit "No file paths found in Repomix output"), index)
    else
      let '(r, sample_paths, index') :=
        Validator.validate_file_paths Index query random_sample index
          namespace file_paths embedding_dimension in
      (Validated r sample_paths, index')
end.

End Whole.

(** [\w] on ASCII. *)
Definition ascii_word (c : codepoint) : bool :=
((48 <=? c) && (c <=? 57)) || ((65 <=? c) && (c <=? 90)) || (c =? 95)
|| ((97 <=? c) && (c <=? 122)).

(** A line of the listing that names nothing: not blank, and made of
spaces and dashes only. *)
Definition rule_line (line : str) : Prop :=
strip line <> [] /\ Forall (fun c => c = 32 \/ c = 45) (strip line).

(** A line that neither loop looks at: blank, or the name of a
directory. *)
Definition skipped_line (line : str) : Prop :=
strip line = [] \/ ends_with (lit "/") (strip line) = true.

(** A clean path: not empty, not begun by a space or a dash, not ended
by white space or a slash, without a character that marks code, of at most
two words, and of the shape of the pattern or with a slash inside. *)
Definition clean_path (word : codepoint -> bool) (p : str) : Prop :=
p <> [] /\
hd 0 p <> 32 /\ hd 0 p <> 45 /\
isspace (last p 0) = false /\ last p 0 <> 47 /\
(forall x, In x code_marks -> Extractor.contains x p = false) /\
len (Dispatcher.split p) <= 2 /\
(file_path_pattern_match word p = true
 \/ Extractor.contains (lit "/") p = true).

(** A dump with a listing of a directory, two files and a line of
code. *)
Definition sample_dump : str :=
lit "Summary <directory_structure>" ++ newline ++ lit "src/" ++ newline
++ lit "  cli.py" ++ newline ++ lit "  - docs/guide.md" ++ newline
++ lit "x = compute(1)" ++ newline.

(** A dump whose listing is a rule and nothing else. *)
Definition rule_dump : str :=
lit "Summary <directory_structure>" ++ newline ++ lit "---" ++ newline.

End Listing.

(** ** Scraping ([firecrawl/crawler.py]): the client's [scrape],
[scrape_url], the individual scraping of [scrape_urls] and
[process_firecrawl_results] *)

Module Crawler.
Import Py.

(** What can be raised, by the classes that the handlers tell apart:
[FirecrawlError], any other [Exception], and what is no [Exception] at all
([KeyboardInterrupt], [SystemExit]), which [except Exception] lets
through. *)
Inductive exception :=
| FirecrawlError (msg : str)
| OtherException (msg : str)
| Interruption (msg : str).

(** [str(e)] *)
Definition message (e : exception) : str :=
match e with FirecrawlError m | OtherException m | Interruption m => m end.

Inductive io (A : Type) :=
| Value (a : A)
| Raised (e : exception).
Arguments Value {A} a.
Arguments Raised {A} e.

(** [except Exception as e: raise FirecrawlError(f"...{e}")] around a
body. *)
Definition reraise {A : Type} (prefix : str) (r : io A) : io A :=
match r with
| Value a => Value a
| Raised (Interruption m) => Raised (Interruption m)
| Raised e => Raised (FirecrawlError (prefix ++ message e))
end.

(** A dictionary whose values are strings or [None], in insertion
order. *)
Definition pydict := list (str * option str).

Fixpoint lookup (d : pydict) (k : str) : option (option str) :=
match d with
| [] => None
| (k', v) :: d' => if str_eqb k' k then Some v else lookup d' k
end.

(** The [data] of an answer of the SDK: no such attribute; a dictionary,
or an object that [model_dump], [dict] or [vars] turns into one; or a value
that none of them converts, such as [None], for which [vars] raises
[TypeError] with the message given (a conversion that raises anything else
counts here too). *)
Inductive data_value :=
| NoData
| DataDict (d : pydict)
| DataUnconvertible (msg : str).

(** What the SDK's [scrape_url] answers: the attributes [success] and
[error], when it has them, and its [data]. *)
Record scrape_response := mk_scrape_response {
  success : option bool;
  data : data_value;
  error : option str
}.

(** A call of the SDK answers, raises an [Exception], or is cut short by
what is no [Exception]. *)
Inductive sdk_outcome :=
| Responds (r : scrape_response)
| Throws (msg : str)
| Interrupted (msg : str).

Inductive content_value :=
| ContentStr (s : str)
| ContentDict (d : pydict).

(** A result of scraping or searching: the keys that are read later, and
[source] of its [metadata]. *)
Record firecrawl_result := mk_firecrawl_result {
  url : option str;
  title : option str;
  content : option content_value;
  source_type : option str;
  source : option str
}.

(** [self.client is not None and hasattr(self.client, 'scrape_url')] for a
[FirecrawlClient]; any other object is [OtherClient]. *)
Inductive client :=
| FirecrawlClient (sdk_available : bool)
| OtherClient.

(** The text of the mock result. *)
Definition placeholder (url : str) : str :=
lit "# Content from " ++ url ++ [10; 10]
++ lit "This is a placeholder for the content that would be scraped from "
++ url ++ lit ".".

Definition mock_result (url : str) : firecrawl_result :=
{| url := Some url;
   title := Some (lit "Content from " ++ url);
   content := Some (ContentDict [(lit "markdown", Some (placeholder url))]);
   source_type := None;
   source := Some (lit "firecrawl_mock") |}.

(** [formatted_result] of [FirecrawlClient.scrape]. *)
Definition formatted_result (url : str) (content_data : pydict)
    : firecrawl_result :=
let content := [] in
let content :=
  match lookup content_data (lit "markdown") with
  | Some v => content ++ [(lit "markdown", v)]
  | None => content
  end in
let content :=
  match lookup content_data (lit "html") with
  | Some v => content ++ [(lit "html", v)]
  | None => content
  end in
{| url := Some url; title := None; content := Some (ContentDict content);
   source_type := None; source := None |}.

Section Client.
Variable World : Type.
(** [self.client.scrape_url(url=..., formats=["markdown"],
onlyMainContent=True, waitFor=1000)] *)
Variable sdk_scrape_url : World -> str -> sdk_outcome * World.

(** The body of the [try] of [FirecrawlClient.scrape]. *)
Definition scrape_body (sdk_available : bool) (w : World) (url : str)
    : io firecrawl_result * World :=
if sdk_available then
  match sdk_scrape_url w url with
  | (Interrupted msg, w') => (Raised (Interruption msg), w')
  | (Throws msg, w') => (Raised (OtherException msg), w')
  | (Responds scrape_response, w') =>
      if Chunk.get (success scrape_response) false
      then
        match data scrape_response with
        | NoData => (Value (formatted_result url []), w')
        | DataDict content_data =>
            (Value (formatted_result url content_data), w')
        | DataUnconvertible msg => (Raised (OtherException msg), w')
        end
      else (Raised (FirecrawlError
                      (lit "Scraping failed: "
                       ++ Chunk.get (error scrape_response)
                            (lit "Unknown error"))), w')
  end
else
  (Raised (FirecrawlError
             (lit "Firecrawl SDK not available or scrape_url method not found")),
   w).

(** [FirecrawlClient.scrape] *)
Definition client_scrape (sdk_available : bool) (w : World) (url : str)
    : io firecrawl_result * World :=
let '(r, w') := scrape_body sdk_available w url in
(reraise (lit "Error during Firecrawl scraping: ") r, w').

Definition scrape_url (c : client) (w : World) (url : str)
    : io firecrawl_result * World :=
let '(r, w') :=
  match c with
  | FirecrawlClient sdk_available =>
      match client_scrape sdk_available w url with
      | (Value result, w') => (Value result, w')
      | (Raised (FirecrawlError _), w') => (Value (mock_result url), w')
      | (Raised e, w') => (Raised e, w')
      end
  | OtherClient => (Value (mock_result url), w)
  end in
(reraise (lit "Error scraping URL " ++ url ++ lit ": ") r, w').

(** The [while retries < max_retries and not success] loop for one URL;
[budget] is [max_retries - retries].  It gives the result appended, if
any, and the number of calls of [scrape_url] made. *)
Fixpoint retry_loop (c : client) (budget : nat) (w : World) (url : str)
    : io (option firecrawl_result) * World * nat :=
match budget with
| O => (Value None, w, O)
| S budget' =>
    match scrape_url c w url with
    | (Value result, w') => (Value (Some result), w', 1%nat)
    | (Raised (FirecrawlError _), w') =>
        let '(r, w'', n) := retry_loop c budget' w' url in (r, w'', S n)
    | (Raised e, w') => (Raised e, w', 1%nat)
    end
end.

(** The [for i, url in enumerate(urls)] loop; [calls] lists the URLs that
[scrape_url] was called with, in order. *)
Fixpoint scrape_loop (c : client) (max_retries : Z) (w : World)
    (urls : list str) (results : list firecrawl_result) (calls : list str)
    : io (list firecrawl_result) * World * list str :=
match urls with
| [] => (Value results, w, calls)
| url :: rest =>
    match retry_loop c (Z.to_nat max_retries) w url with
    | (Value (Some result), w', n) =>
        scrape_loop c max_retries w' rest (results ++ [result])
          (calls ++ repeat url n)
    | (Value None, w', n) =>
        scrape_loop c max_retries w' rest results (calls ++ repeat url n)
    | (Raised e, w', n) => (Raised e, w', calls ++ repeat url n)
    end
end.

(** [scrape_urls] from the fallback to individual scraping on: the
function gets there when the batch scraper cannot be imported, when
there is at most one URL, and when the batch call raises. *)
Definition scrape_urls_individually (c : client) (w : World)
    (urls : list str) (max_retries : Z)
    : io (list firecrawl_result) * World * list str :=
scrape_loop c max_retries w urls [] [].

(** The calls of [scrape_url] on the URLs, made one after the other from
the state [w], all return: [results] are what they return, in order, and
[w'] is the state that the last call leaves. *)
Inductive scraped (c : client)
    : World -> list str -> list firecrawl_result -> World -> Prop :=
| scraped_nil (w : World) : scraped c w [] [] w
| scraped_cons (w w1 w' : World) (url : str) (urls : list str)
    (result : firecrawl_result) (results : list firecrawl_result) :
    scrape_url c w url = (Value result, w1) ->
    scraped c w1 urls results w' ->
    scraped c w (url :: urls) (result :: results) w'.

End Client.

(** The [text] of a processed chunk: the content as it was found. *)
Inductive text_value :=
| TextStr (s : str)
| TextNone
| TextDict (d : pydict).

(** [if not content] *)
Definition text_truthy (t : text_value) : bool :=
match t with
| TextStr s => truthy s
| TextNone => false
| TextDict d => truthy d
end.

(** A chunk of [process_firecrawl_results]. *)
Record web_chunk := mk_web_chunk {
  chunk_text : text_value;
  chunk_metadata : list (str * str);
  chunk_source_type : str;
  chunk_url : str
}.

(** The body of the loop of [process_firecrawl_results]: the chunk
appended, if any. *)
Definition result_chunk (result : firecrawl_result) : option web_chunk :=
let url := Chunk.get (url result) [] in
let title := Chunk.get (title result) [] in
let content :=
  match content result with
  | Some (ContentStr s) => TextStr s
  | Some (ContentDict d) =>
      match lookup d (lit "markdown") with
      | Some (Some s) => TextStr s
      | Some None => TextNone
      | None => TextDict d
      end
  | None => TextStr []
  end in
let source_type := Chunk.get (source_type result) (lit "web") in
if negb (text_truthy content) then None
else Some {| chunk_text := content;
             chunk_metadata := [(lit "url", url); (lit "title", title);
                                (lit "source_type", source_type)];
             chunk_source_type := source_type;
             chunk_url := url |}.

Fixpoint process_loop (results : list firecrawl_result) : list web_chunk :=
match results with
| [] => []
| result :: rest =>
    match result_chunk result with
    | Some chunk => chunk :: process_loop rest
    | None => process_loop rest
    end
end.

Definition process_firecrawl_results (results : list firecrawl_result)
    (max_chunk_size overlap : Z) : list web_chunk :=
process_loop results.

(** The chunk of a scraped page: its [source_type] is the default. *)
Definition page_chunk (url title : str) (text : text_value) : web_chunk :=
{| chunk_text := text;
   chunk_metadata := [(lit "url", url); (lit "title", title);
                      (lit "source_type", lit "web")];
   chunk_source_type := lit "web";
   chunk_url := url |}.

(** The chunk as [embed_chunks] and the packager read it, when its text
is a string. *)
Definition as_chunk (c : web_chunk) : option Chunk.chunk :=
match chunk_text c with
| TextStr s =>
    Some (Packager.firecrawl_chunk (chunk_url c) s (chunk_source_type c))
| _ => None
end.

(** An SDK that throws on its first two calls and answers with a page
afterwards; the state counts the calls. *)
Definition slow_sdk (calls : nat) (url : str) : sdk_outcome * nat :=
if Nat.ltb calls 2 then (Throws (lit "timed out"), S calls)
else (Responds {| success := Some true;
                  data := DataDict [(lit "markdown", Some (lit "# Guide"))];
                  error := None |}, S calls).

End Crawler.

(** ** Enrichment ([firecrawl/deep_research.py]) *)

Module Enrichment.
Import Py.

(** A research result, and the dictionary of the results by topic. *)
Definition research_result := list (str * str).
Definition results_dict := list (str * research_result).

(** [d.get(k)] and [d[k] = v] on a dictionary in insertion order. *)
Fixpoint get_key {V : Type} (d : list (str * V)) (k : str) : option V :=
match d with
| [] => None
| (k', v) :: d' => if str_eqb k' k then Some v else get_key d' k
end.

Fixpoint set_key {V : Type} (d : list (str * V)) (k : str) (v : V)
    : list (str * V) :=
match d with
| [] => [(k, v)]
| (k', v') :: d' =>
    if str_eqb k' k then (k', v) :: d' else (k', v') :: set_key d' k v
end.

(** The values of a [metadata] dictionary. *)
Inductive mvalue :=
| MStr (s : str)
| MContext (research_context : results_dict).

Definition metadata_dict := list (str * mvalue).

(** The [metadata] dictionaries are objects: a chunk holds a reference,
and the store maps the references to the dictionaries as they are now. *)
Definition heap := list metadata_dict.

Fixpoint update (h : heap) (a : nat) (d : metadata_dict) : heap :=
match h, a with
| [], _ => []
| _ :: h', O => d :: h'
| x :: h', S a' => x :: update h' a' d
end.

(** A chunk: its other keys, and the reference under [metadata] when it
has that key. *)
Record content_chunk := mk_content_chunk {
  fields : Chunk.chunk;
  metadata : option nat
}.

(** ["error" in result] *)
Definition has_error (result : research_result) : bool :=
match get_key result (lit "error") with Some _ => true | None => false end.

(** The [for topic, result in research_results.items()] loop. *)
Fixpoint fill (research_context : results_dict)
    (research_results : results_dict) : results_dict :=
match research_results with
| [] => research_context
| (topic, result) :: rest =>
    fill (if negb (has_error result)
          then set_key research_context topic result
          else research_context) rest
end.

Definition research_context_key : str := lit "research_context".

(** The body of the loop over the chunks.  [chunk.copy()] copies the
reference, so a chunk that has [metadata] shares the dictionary with its
copy; a chunk without it gets a new dictionary. *)
Definition enrich_chunk (h : heap) (chunk : content_chunk)
    (research_results : results_dict) : content_chunk * heap :=
let filled := MContext (fill [] research_results) in
match metadata chunk with
| Some a =>
    let md := set_key (nth a h []) research_context_key (MContext []) in
    let md := set_key md research_context_key filled in
    ({| fields := fields chunk; metadata := Some a |}, update h a md)
| None =>
    let md := set_key [] research_context_key (MContext []) in
    let md := set_key md research_context_key filled in
    ({| fields := fields chunk; metadata := Some (List.length h) |},
     h ++ [md])
end.

Fixpoint enrich_content_with_research (h : heap)
    (content_chunks : list content_chunk) (research_results : results_dict)
    : list content_chunk * heap :=
match content_chunks with
| [] => ([], h)
| chunk :: rest =>
    let '(enriched_chunk, h1) := enrich_chunk h chunk research_results in
    let '(enriched_chunks, h2) :=
      enrich_content_with_research h1 rest research_results in
    (enriched_chunk :: enriched_chunks, h2)
end.

(** The chunk refers to the dictionary at [a]. *)
Definition refers (a : nat) (c : content_chunk) : bool :=
match metadata c with Some a' => Nat.eqb a' a | None => false end.

(** The results that are kept: those without an [error]. *)
Definition kept (research_results : results_dict) : results_dict :=
filter (fun tr => negb (has_error (snd tr))) research_results.

(** The references of the chunks are in the store. *)
Definition in_store (h : heap) (content_chunks : list content_chunk) : Prop :=
Forall (fun c => forall a, metadata c = Some a -> (a < List.length h)%nat)
       content_chunks.

(** An enriched chunk [e] of a chunk [c], in the store [h'] that the
function leaves, when [n] dictionaries were there before. *)
Definition enriched_as (research_results : results_dict) (n : nat)
    (h' : heap) (c e : content_chunk) : Prop :=
fields e = fields c /\
exists a,
  metadata e = Some a /\ (a < List.length h')%nat /\
  get_key (nth a h' []) research_context_key
  = Some (MContext (kept research_results)) /\
  (forall a0, metadata c = Some a0 -> a = a0) /\
  (metadata c = None -> (n <= a)%nat).

(** A web chunk that has [metadata] and a repository chunk that has
none. *)
Definition sample_heap : heap :=
[[(lit "url", MStr (lit "https://example.com"));
  (lit "title", MStr (lit "Guide"))]].

Definition sample_chunks : list content_chunk :=
[{| fields := Packager.firecrawl_chunk (lit "https://example.com")
                (lit "Guide text") (lit "web");
    metadata := Some 0%nat |};
 {| fields := Extractor.repository_chunk (lit "x = 1") (lit "a.py");
    metadata := None |}].

Definition sample_results : results_dict :=
[(lit "rocq", [(lit "summary", lit "A proof assistant")]);
 (lit "pinecone", [(lit "error", lit "timed out")])].

End Enrichment.

(** * Properties *)

(** ** Sequences, slices and stripping *)

Section PyFacts.
Import Py.

Lemma len_nonneg {A : Type} (s : list A) : 0 <= len s.
Proof. unfold len; lia. Qed.

Lemma len_app {A : Type} (a b : list A) : len (a ++ b) = len a + len b.
Proof. unfold len; rewrite length_app; lia. Qed.

Lemma adjust_index_range n i : 0 <= n -> 0 <= adjust_index n i <= n.
Proof. unfold adjust_index; destruct (i <? 0) eqn:E; lia. Qed.

Lemma adjust_index_inside n i : 0 <= i <= n -> adjust_index n i = i.
Proof. unfold adjust_index; destruct (i <? 0) eqn:E; lia. Qed.




Lemma lstrip_spec s : exists l, s = l ++ lstrip s /\ all_space l.
Proof.
  induction s as [|c s [l [E Hl]]]; simpl.
  - exists []. split; [reflexivity | constructor].
  - destruct (isspace c) eqn:Hc.
    + exists (c :: l). split; [simpl; congruence | constructor; assumption].
    + exists []. split; [reflexivity | constructor].
Qed.

Lemma rstrip_spec s : exists r, s = rstrip s ++ r /\ all_space r.
Proof.
  unfold rstrip. destruct (lstrip_spec (rev s)) as [l [E Hl]].
  exists (rev l). split.
  - rewrite <- rev_app_distr, <- E, rev_involutive. reflexivity.
  - apply Forall_rev. exact Hl.
Qed.



Lemma last_index_lt ch w i : last_index ch w = Some i -> (i < List.length w)%nat.
Proof.
  revert i; induction w as [|c w IH]; simpl; intros i H; [discriminate|].
  destruct (last_index ch w) as [j|].
  - injection H as <-. specialize (IH j eq_refl). lia.
  - destruct (c =? ch); [injection H as <-; lia | discriminate].
Qed.

(** [rfind] answers [-1] or a position between its normalised bounds. *)
Lemma rfind_range s ch start stop :
  rfind s ch start stop = -1 \/
  (0 <= rfind s ch start stop < adjust_index (len s) stop /\
   (0 <= start -> start <= rfind s ch start stop)).
Proof.
  unfold rfind.
  set (n := len s). set (b := adjust_index n stop).
  set (a := if start <? 0 then Z.max 0 (start + n) else start).
  destruct (last_index ch _) as [i|] eqn:E; [right | left; reflexivity].
  apply last_index_lt in E. rewrite length_firstn in E.
  assert (0 <= a) by (subst a; destruct (start <? 0) eqn:S0; lia).
  split; [lia|]. intros Hs. subst a.
  destruct (start <? 0) eqn:S0; lia.
Qed.

End PyFacts.

(** ** Content chunker *)

Section ChunkerFacts.
Import Py Chunker.

Lemma window_end_le content max_chunk_size start :
  window_end content max_chunk_size start <= len content.
Proof.
  unfold window_end. pose proof (len_nonneg content) as Hn.
  destruct (start + max_chunk_size <? len content) eqn:E; [|lia].
  destruct (rfind_range content space start (start + max_chunk_size))
    as [R | [R _]].
  - rewrite R. simpl. lia.
  - pose proof (adjust_index_range (len content) (start + max_chunk_size) Hn).
    destruct (negb _); lia.
Qed.


(** With a positive overlap the loop condition stays true for ever:
    every window ends at the end of the text at the latest, so the next
    one starts before it. *)
Lemma chunk_loop_overlap_diverges content max_chunk_size overlap :
  0 < overlap ->
  forall fuel start chunks,
    start < len content ->
    chunk_loop fuel content max_chunk_size overlap start chunks = None.
Proof.
  intros Hov. induction fuel as [|fuel IH]; intros start chunks Hs; simpl.
  - reflexivity.
  - apply Z.ltb_lt in Hs as Hs'. rewrite Hs'. apply IH.
    pose proof (window_end_le content max_chunk_size start). lia.
Qed.

(** A window that gives back its own start is entered again and
    again. *)
Lemma chunk_loop_stalls content max_chunk_size overlap start :
  start < len content ->
  window_end content max_chunk_size start - overlap = start ->
  forall fuel chunks,
    chunk_loop fuel content max_chunk_size overlap start chunks = None.
Proof.
  intros Hs Hw. induction fuel as [|fuel IH]; intros chunks; simpl.
  - reflexivity.
  - apply Z.ltb_lt in Hs as Hs'. rewrite Hs', Hw. apply IH.
Qed.

Lemma chunk_firecrawl_content_overlap_diverges content max_chunk_size overlap :
  0 < overlap -> len content > max_chunk_size -> 0 <= max_chunk_size ->
  forall fuel,
    chunk_firecrawl_content fuel content max_chunk_size overlap = None.
Proof.
  intros Hov Hlen Hm fuel. unfold chunk_firecrawl_content.
  destruct (len content <=? max_chunk_size) eqn:E; [lia|].
  apply chunk_loop_overlap_diverges; lia.
Qed.

(** C3 (refuted on the code): the loop of the chunker has no guard.
    With [overlap >= max_chunk_size] (text ["aaaa"], window 2, overlap 2)
    no amount of iterations ends it; the same holds for the call with
    [overlap=20] of the repository's own test, and, without any overlap,
    for a text in which a space is followed by a word that fills the
    window. *)
Theorem chunker_loop_is_not_guarded :
  (forall fuel, chunk_firecrawl_content fuel (lit "aaaa") 2 2 = None) /\
  (forall fuel, chunk_firecrawl_content fuel test_content 100 20 = None) /\
  (forall fuel, chunk_firecrawl_content fuel (lit "ab cdefghij") 5 0 = None).
Proof.
  split; [|split]; intros fuel.
  - apply chunk_firecrawl_content_overlap_diverges;
      [lia | vm_compute; reflexivity | lia].
  - apply chunk_firecrawl_content_overlap_diverges;
      [lia | vm_compute; reflexivity | lia].
  - unfold chunk_firecrawl_content.
    replace (len (lit "ab cdefghij") <=? 5) with false by reflexivity.
    destruct fuel as [|fuel]; [reflexivity|].
    cbn [chunk_loop].
    replace (0 <? len (lit "ab cdefghij")) with true by reflexivity.
    replace (window_end (lit "ab cdefghij") 5 0 - 0) with 2 by reflexivity.
    apply chunk_loop_stalls; reflexivity.
Qed.










End ChunkerFacts.

(** ** Vector packager *)

Section PackagerFacts.
Import Py Chunk Packager.

Lemma records_length uuid4 chunks :
  forall drawn, List.length (records uuid4 drawn chunks) = List.length chunks.
Proof.
  induction chunks as [|c rest IH]; intros drawn; simpl;
    [reflexivity | rewrite IH; reflexivity].
Qed.

Lemma records_nth uuid4 chunks :
  forall drawn i c,
    nth_error chunks i = Some c ->
    nth_error (records uuid4 drawn chunks) i
    = Some (package (uuid4 (drawn + i)%nat) c).
Proof.
  induction chunks as [|c0 rest IH]; intros drawn i c H.
  - destruct i; discriminate.
  - destruct i as [|i]; simpl in *.
    + injection H as <-. rewrite Nat.add_0_r. reflexivity.
    + rewrite (IH (S drawn) i c H). do 3 f_equal. lia.
Qed.

(** The metadata that come before the text have none of the keys
    [text] and [truncated]. *)
Lemma base_metadata_keys c :
  dict_get (base_metadata c) (lit "text") = None /\
  dict_get (base_metadata c) (lit "truncated") = None.
Proof.
  unfold base_metadata.
  destruct (is_str (source_type c) (lit "repository") && has (file_path c));
    [split; reflexivity|].
  destruct (is_str (source_type c) (lit "firecrawl") && has (source_url c));
    split; reflexivity.
Qed.

Lemma str_eqb_refl k : str_eqb k k = true.
Proof.
  induction k as [|x k IH]; simpl; [reflexivity|].
  rewrite Z.eqb_refl. exact IH.
Qed.

Lemma str_eqb_eq a : forall b, str_eqb a b = true -> a = b.
Proof.
  induction a as [|x a IHa]; destruct b as [|y b]; simpl;
    try discriminate; [reflexivity|].
  intros H. apply andb_prop in H as [H1 H2].
  apply Z.eqb_eq in H1. f_equal; [exact H1 | apply IHa; exact H2].
Qed.

Lemma dict_get_set_same d k v : dict_get (dict_set d k v) k = Some v.
Proof.
  induction d as [|[k' v'] d IH]; simpl.
  - rewrite str_eqb_refl. reflexivity.
  - destruct (str_eqb k' k) eqn:E; simpl; rewrite E; [reflexivity | exact IH].
Qed.

Lemma dict_get_set_other d k k' v :
  str_eqb k k' = false ->
  dict_get (dict_set d k v) k' = dict_get d k'.
Proof.
  intros E2. induction d as [|[k0 v0] d IH]; simpl.
  - rewrite E2. reflexivity.
  - destruct (str_eqb k0 k) eqn:E; simpl.
    + destruct (str_eqb k0 k') eqn:E'; [|reflexivity].
      apply str_eqb_eq in E, E'. subst. rewrite str_eqb_refl in E2.
      discriminate.
    + destruct (str_eqb k0 k'); [reflexivity | exact IH].
Qed.

(** The part of C1 that the code keeps: a text that fits the space
    computed for it goes into the metadata as it is, and no [truncated]
    entry is made. *)
Lemma chunk_metadata_fitting_text c :
  len (encode_utf8 (get (text c) [])) <= available_space (base_metadata c) ->
  dict_get (chunk_metadata c) (lit "text") = Some (VStr (get (text c) [])) /\
  dict_get (chunk_metadata c) (lit "truncated") = None.
Proof.
  intros H. unfold chunk_metadata.
  destruct (len (encode_utf8 (get (text c) [])) >? available_space (base_metadata c)) eqn:E;
    [lia|].
  split; [apply dict_get_set_same|].
  rewrite dict_get_set_other by reflexivity.
  apply base_metadata_keys.
Qed.

(** C1 (refuted on the code): the space left for the text does not
    count the key [text], the quotes and the [truncated] entry that are
    added after the measurement.  For a repository chunk with 50000
    letters the text is cut to 40892 bytes and [truncated] is set, but
    the metadata then serialize to 40981 bytes, above the limit of
    40960. *)
Theorem packager_truncation_overshoots_limit :
  let m := metadata (package (lit "0000") oversized_chunk) in
  dict_get m (lit "truncated") = Some (VBool true) /\
  (exists t, dict_get m (lit "text") = Some (VStr t) /\ len t = 40892) /\
  serialized_size m = 40981 /\
  MAX_METADATA_SIZE < serialized_size m.
Proof.
  intros m.
  assert (serialized_size m = 40981) as Hsize by (vm_compute; reflexivity).
  split; [vm_compute; reflexivity|].
  split; [|split; [exact Hsize | rewrite Hsize; reflexivity]].
  destruct (dict_get m (lit "text")) as [[t|b]|] eqn:E.
  - exists t. split; [reflexivity|].
    change (match Some (VStr t) with
            | Some (VStr t') => len t'
            | _ => -1
            end = 40892).
    rewrite <- E. vm_compute. reflexivity.
  - exfalso.
    assert (match dict_get m (lit "text") with
            | Some (VStr _) => true
            | _ => false
            end = true) as H by (vm_compute; reflexivity).
    rewrite E in H. discriminate.
  - exfalso.
    assert (match dict_get m (lit "text") with
            | Some (VStr _) => true
            | _ => false
            end = true) as H by (vm_compute; reflexivity).
    rewrite E in H. discriminate.
Qed.

Lemma firecrawl_chunk_base_metadata page_url content page_source_type e :
  base_metadata
    (with_embedding (firecrawl_chunk page_url content page_source_type) e)
  = [(lit "source_type", VStr page_source_type)].
Proof.
  unfold base_metadata. cbn. rewrite !andb_false_r. reflexivity.
Qed.

(** C8 (refuted on the code): the packager adds [source_url] only for
    chunks whose [source_type] is ["firecrawl"] and that carry a
    [source_url] key; the chunks that the pipeline makes from web pages
    have another [source_type] and keep the address under [url], so
    their records have neither [source_url] nor [file_path]. *)
Theorem web_chunk_metadata_lacks_source_url :
  forall page_url content page_source_type unique_id e,
    let v := package unique_id
               (with_embedding
                  (firecrawl_chunk page_url content page_source_type) e) in
    dict_get (metadata v) (lit "source_url") = None /\
    dict_get (metadata v) (lit "file_path") = None /\
    metadata (package unique_id
                (with_embedding
                   (firecrawl_chunk (lit "https://example.com/docs")
                      (lit "Guide") (lit "web_search")) e))
    = [(lit "source_type", VStr (lit "web_search"));
       (lit "text", VStr (lit "Guide"))].
Proof.
  intros page_url content page_source_type unique_id e v.
  split; [|split; [|reflexivity]]; subst v; unfold package; cbn [metadata];
    unfold chunk_metadata; rewrite firecrawl_chunk_base_metadata;
    match goal with |- context [if ?b then _ else _] => destruct b end;
    rewrite ?dict_get_set_other by reflexivity; reflexivity.
Qed.

(** When no chunk raises, the loop returns the records of the chunks. *)
Lemma prepare_loop_records uuid4 chunks :
  Forall (fun r => raises r = None) chunks ->
  forall drawn vectors,
    prepare_loop uuid4 drawn chunks vectors
    = Packaged (vectors ++ records uuid4 drawn (map chunk_of chunks)).
Proof.
  induction 1 as [|r rest Hr _ IH]; intros drawn vectors; cbn.
  - rewrite app_nil_r. reflexivity.
  - rewrite Hr, IH, <- app_assoc. reflexivity.
Qed.

(** The first chunk that raises ends the loop. *)
Lemma prepare_loop_raises uuid4 good bad rest e :
  Forall (fun r => raises r = None) good ->
  raises bad = Some e ->
  forall drawn vectors,
    prepare_loop uuid4 drawn (good ++ bad :: rest) vectors = PackagingRaises e.
Proof.
  intros Hg Hb. induction Hg as [|r good Hr _ IH]; intros drawn vectors; cbn.
  - rewrite Hb. reflexivity.
  - rewrite Hr. apply IH.
Qed.

(** A loop that returns met no chunk that raises. *)
Lemma prepare_loop_packaged uuid4 chunks :
  forall drawn vectors vs,
    prepare_loop uuid4 drawn chunks vectors = Packaged vs ->
    Forall (fun r => raises r = None) chunks.
Proof.
  induction chunks as [|r rest IH]; intros drawn vectors vs H; [constructor|].
  cbn in H. destruct (raises r) eqn:Hr; [discriminate|].
  constructor; [exact Hr | eapply IH; exact H].
Qed.

Lemma nth_error_map_chunk_of chunks i r :
  nth_error chunks i = Some r ->
  nth_error (map chunk_of chunks) i = Some (chunk_of r).
Proof.
  intros H. rewrite nth_error_map, H. reflexivity.
Qed.

(** C10 (corrected): when the text of every chunk can be encoded, the
    packager returns one record per chunk, in the order of the chunks;
    the values of a record are the embedding of its chunk as it is, and
    the empty sequence when the chunk has no embedding.  The first chunk
    whose text cannot be encoded (it holds a surrogate, or it is no
    string) makes the whole call raise, and no record is returned. *)
Theorem packager_one_record_per_chunk :
  forall (uuid4 : nat -> str) (chunks : list received),
    let run := prepare_vectors_for_upsert uuid4 chunks in
    (Forall (fun r => raises r = None) chunks ->
     exists vectors,
       run = Packaged vectors /\
       List.length vectors = List.length chunks /\
       (forall i r,
           nth_error chunks i = Some r ->
           exists v, nth_error vectors i = Some v /\
                     v = package (uuid4 i) (chunk_of r) /\
                     values v = match embedding (chunk_of r) with
                                | Some e => e
                                | None => []
                                end) /\
       map values vectors
       = map (fun r => get (embedding (chunk_of r)) []) chunks) /\
    (forall good bad rest e,
        chunks = good ++ bad :: rest ->
        Forall (fun r => raises r = None) good ->
        raises bad = Some e ->
        run = PackagingRaises e) /\
    (forall vectors, run = Packaged vectors ->
                     Forall (fun r => raises r = None) chunks) /\
    (forall c, raises (Textual c)
               = if existsb surrogate (get (text c) [])
                 then Some UnicodeEncodeError else None) /\
    (forall c, raises (NonTextual c) = Some AttributeError).
Proof.
  intros uuid4 chunks run. subst run. unfold prepare_vectors_for_upsert.
  split; [|split; [|split; [|split]]].
  - intros Hok. rewrite (prepare_loop_records uuid4 chunks Hok). cbn [app].
    eexists. split; [reflexivity|]. split; [|split].
    + rewrite records_length, length_map. reflexivity.
    + intros i r H. exists (package (uuid4 i) (chunk_of r)).
      rewrite (records_nth uuid4 (map chunk_of chunks) 0 i (chunk_of r))
        by (apply nth_error_map_chunk_of; exact H).
      split; [reflexivity|]. split; [reflexivity|].
      unfold package, get. simpl. destruct (embedding (chunk_of r));
        reflexivity.
    + clear Hok. generalize 0%nat.
      induction chunks as [|r rest IH]; intros n; simpl;
        [reflexivity | rewrite IH; reflexivity].
  - intros good bad rest e -> Hg Hb. apply prepare_loop_raises; assumption.
  - intros vectors H. eapply prepare_loop_packaged. exact H.
  - intros c. unfold raises, encode.
    destruct (existsb surrogate (get (text c) [])); reflexivity.
  - reflexivity.
Qed.

(** C10, the input that refutes the claim as it stands: a chunk with an
    embedding whose text is a surrogate on its own gives no record; the
    call raises [UnicodeEncodeError]. *)
Lemma packager_surrogate_text_gives_no_record :
  prepare_vectors_for_upsert counter_uuid [Textual surrogate_chunk]
  = PackagingRaises UnicodeEncodeError /\
  ~ (exists vectors,
        prepare_vectors_for_upsert counter_uuid [Textual surrogate_chunk]
        = Packaged vectors /\
        List.length vectors = List.length [Textual surrogate_chunk]).
Proof.
  split; [reflexivity|]. intros [vectors [E _]]. discriminate E.
Qed.

End PackagerFacts.

(** ** Embedding of chunk sequences *)

Section EmbedderFacts.
Import Py Chunk Embedder.
Variable f : embedding_function.
Variable dimension : Z.

(** Chunks without text change nothing: not the result, not the calls. *)
Lemma embed_loop_skips chunks :
  returns_on f chunks ->
  forall i j embedded calls,
    embed_loop f dimension i chunks embedded calls
    = embed_loop f dimension j (filter has_text chunks) embedded calls.
Proof.
  induction chunks as [|c rest IH]; intros Hret i j embedded calls;
    [reflexivity|].
  assert (returns_on f rest) as Hrest
      by (intros c' Hin; apply Hret; right; exact Hin).
  cbn [filter embed_loop]. unfold has_text at 1. fold (get_text c).
  destruct (truthy (get_text c)) eqn:T; cbn [negb].
  - destruct (Hret c (or_introl eq_refl) T) as [v Hv].
    cbn [embed_loop]. fold (get_text c). rewrite T, Hv. cbn [negb].
    destruct (negb (len v =? dimension)); [reflexivity|].
    apply IH. exact Hrest.
  - apply IH. exact Hrest.
Qed.


(** On chunks that all have text and on which the function returns, the
    loop ends with one embedded chunk per chunk, or with the dimension
    mismatch of the first vector of another length. *)
Lemma embed_loop_kept kept :
  Forall (fun c => has_text c = true) kept ->
  returns_on f kept ->
  forall i embedded calls,
    (exists out,
        fst (embed_loop f dimension i kept embedded calls)
        = Ok (embedded ++ out) /\
        Forall2 (embedded_as f dimension) kept out) \/
    (exists c v,
        In c kept /\ f (get_text c) = Returns v /\ len v <> dimension /\
        fst (embed_loop f dimension i kept embedded calls)
        = Raise (DimensionMismatch dimension (len v))).
Proof.
  induction kept as [|c rest IH]; intros Hall Hret i embedded calls.
  - left. exists []. rewrite app_nil_r. split; [reflexivity | constructor].
  - inversion Hall as [|c' rest' Hc Hrest]; subst.
    assert (returns_on f rest) as Hret'
        by (intros c' Hin; apply Hret; right; exact Hin).
    destruct (Hret c (or_introl eq_refl) Hc) as [v Hv].
    cbn [embed_loop]. fold (get_text c).
    unfold has_text in Hc. fold (get_text c) in Hc. rewrite Hc, Hv.
    cbn [negb]. destruct (len v =? dimension) eqn:L; cbn [negb].
    + apply Z.eqb_eq in L.
      destruct (IH Hrest Hret' (S i) (embedded ++ [with_embedding c v])
                   (calls ++ [get_text c]))
        as [[out [E F2]] | [c' [v' [Hin [Hv' [Hne E]]]]]].
      * left. exists (with_embedding c v :: out). split.
        -- rewrite E, <- app_assoc. reflexivity.
        -- constructor; [|exact F2]. exists v. repeat split; assumption.
      * right. exists c', v'. repeat split; try assumption. right; exact Hin.
    + apply Z.eqb_neq in L. right. exists c, v.
      repeat split; try assumption. left; reflexivity.
Qed.

End EmbedderFacts.

Section EmbedderClaims.
Import Py Chunk Embedder.

Lemma filter_has_text_all chunks :
  Forall (fun c => has_text c = true) (filter has_text chunks).
Proof.
  apply Forall_forall. intros c Hin. apply filter_In in Hin. tauto.
Qed.





End EmbedderClaims.

(** ** Batched upsert *)

Section UpsertFacts.
Import Py Packager Upsert.


Lemma adjust_index_nonneg n i : 0 <= i -> adjust_index n i = Z.min i n.
Proof. unfold adjust_index. destruct (i <? 0) eqn:E; lia. Qed.






Lemma ceil_div n b :
  0 <= n -> 0 < b ->
  (n + b - 1) / b = n / b + (if n mod b =? 0 then 0 else 1).
Proof.
  intros Hn Hb.
  pose proof (Z.div_mod n b ltac:(lia)) as E.
  pose proof (Z.mod_pos_bound n b Hb) as Hr.
  destruct (n mod b =? 0) eqn:R.
  - apply Z.eqb_eq in R. symmetry.
    rewrite Z.add_0_r.
    apply (Z.div_unique_pos (n + b - 1) b (n / b) (b - 1)); lia.
  - apply Z.eqb_neq in R. symmetry.
    apply (Z.div_unique_pos (n + b - 1) b (n / b + 1) (n mod b - 1)); lia.
Qed.

Section Trace.
Variable Index : Type.
Variable upsert : Index -> list vector -> str -> call_outcome Index.
Variable vectors : list vector.
Variable namespace : str.
Variable batch_size : Z.




End Trace.






End UpsertFacts.

(** ** Chunk extractor *)

Section ExtractorFacts.
Import Py Chunk Extractor.




End ExtractorFacts.

(** ** Ingestion validator *)

Section ValidatorFacts.
Import Py Validator.




Section Index.
Variable Index : Type.
Variable query : Index -> str -> Z -> list float -> query_outcome Index.


End Index.




End ValidatorFacts.

(** ** Hashing-based sparse embedding *)

Section SparseFacts.
Import Py Embedder Dispatcher.

Lemma holds_below_spec (P : nat -> Prop) n :
  holds_below P n -> forall j, (j < n)%nat -> P j.
Proof.
  induction n as [|n IH]; intros H j Hj; [lia|].
  destruct H as [Hn H]. destruct (Nat.eq_dec j n) as [->|Hne];
    [exact Hn | apply IH; [exact H | lia]].
Qed.

(** Adding the square of an entry to a count below 385 is exact. *)
Lemma add_zero_exact j :
  (j < 385)%nat ->
  PrimFloat.add (of_nat j) (PrimFloat.mul 0%float 0%float) = of_nat j.
Proof.
  revert j. apply holds_below_spec. vm_compute. repeat split.
Qed.

Lemma add_one_exact j :
  (j < 384)%nat ->
  PrimFloat.add (of_nat j) (PrimFloat.mul 1%float 1%float) = of_nat (S j).
Proof.
  revert j. apply holds_below_spec. vm_compute. repeat split.
Qed.

Lemma zero_entry_stays k :
  (k < 385)%nat ->
  PrimFloat.div 0%float (PrimFloat.sqrt (of_nat k)) = 0%float \/ k = 0%nat.
Proof.
  revert k. apply holds_below_spec. vm_compute.
  repeat split; first [left; reflexivity | right; reflexivity].
Qed.

Lemma norm_positive k :
  (1 <= k <= 384)%nat ->
  PrimFloat.ltb 0%float (PrimFloat.sqrt (of_nat k)) = true.
Proof.
  intros Hk.
  assert (forallb (fun k => PrimFloat.ltb 0%float (PrimFloat.sqrt (of_nat k)))
                  (seq 1 384) = true) as H by (vm_compute; reflexivity).
  rewrite forallb_forall in H. apply H. apply in_seq. lia.
Qed.

(** The rounding of the square root and of the division leaves the sum
    of [k] squares of the entry within [2^-51] of 1. *)
Lemma unit_entry_bound k :
  (1 <= k <= 384)%nat ->
  (Qabs (inject_Z (Z.of_nat k) * (to_Q (unit_entry k) * to_Q (unit_entry k)) - 1)
   <= 1 # 2251799813685248)%Q.
Proof.
  intros Hk.
  assert (forallb
            (fun k => Qle_bool
               (Qabs (inject_Z (Z.of_nat k)
                      * (to_Q (unit_entry k) * to_Q (unit_entry k)) - 1))
               (1 # 2251799813685248))
            (seq 1 384) = true) as H by (vm_compute; reflexivity).
  rewrite forallb_forall in H. apply Qle_bool_iff. apply H. apply in_seq. lia.
Qed.

(** *** Vectors of zeros and ones *)

Lemma constant_of_mask n :
  Flt.constant 0%float n = of_mask 1%float (repeat false (Z.to_nat n)).
Proof.
  unfold Flt.constant, of_mask. induction (Z.to_nat n) as [|m IH]; simpl;
    [reflexivity | rewrite IH; reflexivity].
Qed.

Lemma set_item_of_mask mask :
  forall i, set_item (of_mask 1%float mask) i 1%float
            = of_mask 1%float (mask_set mask i).
Proof.
  induction mask as [|b mask IH]; intros i; [destruct i; reflexivity|].
  destruct i as [|i]; simpl; [reflexivity|].
  f_equal. apply IH.
Qed.

Lemma mask_set_length mask :
  forall i, List.length (mask_set mask i) = List.length mask.
Proof.
  induction mask as [|b mask IH]; intros i; [destruct i; reflexivity|].
  destruct i; simpl; [reflexivity | rewrite IH; reflexivity].
Qed.

Lemma mask_set_marked_mono mask :
  forall i, (marked mask <= marked (mask_set mask i))%nat.
Proof.
  unfold marked. induction mask as [|b mask IH]; intros i;
    [destruct i; simpl; lia|].
  destruct i as [|i]; simpl.
  - destruct b; simpl; lia.
  - specialize (IH i). destruct b; simpl; lia.
Qed.

Lemma mask_set_marked_pos mask :
  forall i, (i < List.length mask)%nat -> (1 <= marked (mask_set mask i))%nat.
Proof.
  unfold marked. induction mask as [|b mask IH]; intros i Hi;
    [simpl in Hi; lia|].
  destruct i as [|i]; simpl; [lia|].
  simpl in Hi. specialize (IH i ltac:(lia)). destruct b; simpl; lia.
Qed.

Lemma marked_le_length mask : (marked mask <= List.length mask)%nat.
Proof. unfold marked. apply filter_length_le. Qed.

Section Hash.
Variable hash : str -> Z.

Let bucket := bucket hash.

Lemma bucket_lt word : (bucket word < 384)%nat.
Proof.
  unfold bucket, Dispatcher.bucket.
  pose proof (Z.mod_pos_bound (hash word) 384 ltac:(lia)).
  lia.
Qed.

(** The loop over the words marks the buckets of the words. *)
Lemma hash_words_of_mask words :
  forall mask,
    hash_words hash words (of_mask 1%float mask)
    = of_mask 1%float
        (fold_left (fun m word => mask_set m (bucket word)) words mask).
Proof.
  unfold hash_words.
  induction words as [|w words IH]; intros mask; [reflexivity|].
  cbn [fold_left]. fold (bucket w). rewrite set_item_of_mask. apply IH.
Qed.

Lemma fold_mask_length words :
  forall mask,
    List.length (fold_left (fun m word => mask_set m (bucket word)) words mask)
    = List.length mask.
Proof.
  induction words as [|w words IH]; intros mask; [reflexivity|].
  cbn [fold_left]. rewrite IH. apply mask_set_length.
Qed.

Lemma fold_mask_marked_mono words :
  forall mask,
    (marked mask
     <= marked (fold_left (fun m word => mask_set m (bucket word)) words mask))%nat.
Proof.
  induction words as [|w words IH]; intros mask; [simpl; lia|].
  cbn [fold_left].
  pose proof (mask_set_marked_mono mask (bucket w)).
  specialize (IH (mask_set mask (bucket w))). lia.
Qed.

(** At least one bucket is marked as soon as there is a word. *)
Lemma fold_mask_marked_pos words mask :
  words <> [] -> List.length mask = 384%nat ->
  (1 <= marked (fold_left (fun m word => mask_set m (bucket word)) words mask))%nat.
Proof.
  intros Hw Hl. destruct words as [|w words]; [congruence|].
  cbn [fold_left].
  pose proof (mask_set_marked_pos mask (bucket w)
                ltac:(rewrite Hl; apply bucket_lt)).
  pose proof (fold_mask_marked_mono words (mask_set mask (bucket w))). lia.
Qed.
End Hash.

(** The sum of squares that [np.linalg.norm] takes the root of is the
    number of ones, exactly. *)
Lemma float_sum_of_mask mask :
  forall j,
    (j + List.length mask < 385)%nat ->
    fold_left (fun acc x => PrimFloat.add acc (PrimFloat.mul x x))
              (of_mask 1%float mask) (of_nat j)
    = of_nat (j + marked mask).
Proof.
  unfold marked.
  induction mask as [|b mask IH]; intros j Hj;
    [simpl; rewrite Nat.add_0_r; reflexivity|].
  simpl in Hj. cbn [of_mask map fold_left filter]. fold (of_mask 1%float mask).
  destruct b.
  - rewrite add_one_exact by lia. rewrite IH by lia.
    simpl. f_equal. lia.
  - rewrite add_zero_exact by lia. apply IH. lia.
Qed.

Lemma linalg_norm_of_mask mask :
  (List.length mask < 385)%nat ->
  linalg_norm (of_mask 1%float mask) = PrimFloat.sqrt (of_nat (marked mask)).
Proof.
  intros H. unfold linalg_norm.
  change 0%float with (of_nat 0). rewrite float_sum_of_mask by (simpl; lia).
  reflexivity.
Qed.

Lemma divide_of_mask mask k :
  (1 <= k < 385)%nat ->
  map (fun x => PrimFloat.div x (PrimFloat.sqrt (of_nat k))) (of_mask 1%float mask)
  = of_mask (unit_entry k) mask.
Proof.
  intros Hk. unfold of_mask. rewrite map_map. apply map_ext. intros [|].
  - reflexivity.
  - destruct (zero_entry_stays k ltac:(lia)) as [E|E]; [exact E | lia].
Qed.

Lemma sum_squares_of_mask x mask :
  (sum_squares (of_mask x mask)
   == inject_Z (Z.of_nat (marked mask)) * (to_Q x * to_Q x))%Q.
Proof.
  unfold marked. induction mask as [|b mask IH].
  - simpl. ring.
  - cbn [of_mask map sum_squares fold_right filter] in *.
    fold (of_mask x mask). fold (sum_squares (of_mask x mask)).
    rewrite IH. destruct b.
    + cbn [List.length]. rewrite Nat2Z.inj_succ. unfold Z.succ.
      rewrite inject_Z_plus. ring.
    + change (to_Q 0%float) with 0%Q. ring.
Qed.

(** *** White space and words *)

Lemma lstrip_non_space s : truthy (lstrip s) = non_space s.
Proof.
  induction s as [|c s IH]; simpl; [reflexivity|].
  destruct (isspace c); simpl; [exact IH | reflexivity].
Qed.

Lemma non_space_app a b : non_space (a ++ b) = non_space a || non_space b.
Proof. unfold non_space. apply existsb_app. Qed.

Lemma non_space_rev s : non_space (rev s) = non_space s.
Proof.
  induction s as [|c s IH]; simpl; [reflexivity|].
  rewrite non_space_app, IH. simpl. rewrite orb_false_r. apply orb_comm.
Qed.

Lemma non_space_lstrip s : non_space (lstrip s) = non_space s.
Proof.
  induction s as [|c s IH]; simpl; [reflexivity|].
  destruct (isspace c) eqn:E; simpl; [exact IH | rewrite E; reflexivity].
Qed.

(** A text is white space only exactly when stripping leaves nothing. *)
Lemma strip_non_space s : truthy (strip s) = non_space s.
Proof.
  unfold strip, rstrip.
  transitivity (truthy (lstrip (rev (lstrip s)))).
  - destruct (lstrip (rev (lstrip s))) as [|x l]; [reflexivity|].
    simpl. destruct (rev l ++ [x]) eqn:E; [|reflexivity].
    apply app_eq_nil in E. destruct E; discriminate.
  - rewrite lstrip_non_space, non_space_rev. apply non_space_lstrip.
Qed.

Lemma split_whitespace_words s :
  forall cur, non_space s = true -> split_whitespace cur s <> [].
Proof.
  induction s as [|c s IH]; intros cur H; [discriminate|].
  simpl in *. destruct (isspace c) eqn:E; simpl in H.
  - specialize (IH [] H). intros F. apply app_eq_nil in F. tauto.
  - clear H IH. revert c cur E.
    induction s as [|d s IHs]; intros c cur E; simpl; [discriminate|].
    destruct (isspace d) eqn:Ed; [discriminate|]. apply (IHs d). exact Ed.
Qed.

Lemma ascii_lower_keeps_words : keeps_words ascii_lower.
Proof.
  assert (forall x, 65 <= x <= 122 -> isspace x = false) as Hvis.
  { intros x Hx. unfold isspace.
    repeat match goal with
           | |- context [?a <=? ?b] =>
               destruct (Z.leb_spec a b); try lia
           | |- context [?a =? ?b] =>
               destruct (Z.eqb_spec a b); try lia
           end; reflexivity. }
  intros s. unfold non_space, ascii_lower.
  induction s as [|c s IH]; [intros H; exact H|].
  cbn [map existsb]. intros H. apply orb_prop in H.
  apply orb_true_iff. destruct H as [H|H]; [left | right; apply IH; exact H].
  destruct (in_range 65 90 c) eqn:R; [|exact H].
  unfold in_range in R. apply andb_prop in R as [R1 R2].
  apply Z.leb_le in R1, R2. rewrite Hvis by lia. reflexivity.
Qed.

(** *** The embedding *)

Lemma sparse_embed_text_cases lower hash text :
  (non_space text = false /\
   sparse_embed_text lower hash text = Flt.constant 0%float 384) \/
  (non_space text = true /\
   exists mask,
     List.length mask = 384%nat /\
     (split (lower text) <> [] -> (1 <= marked mask)%nat) /\
     sparse_embed_text lower hash text
     = if PrimFloat.ltb 0%float (PrimFloat.sqrt (of_nat (marked mask)))
       then of_mask (unit_entry (marked mask)) mask
       else of_mask 1%float mask).
Proof.
  unfold sparse_embed_text. rewrite strip_non_space.
  destruct (non_space text) eqn:N.
  - right. split; [reflexivity|].
    assert (truthy text = true) as ->
        by (destruct text; [discriminate | reflexivity]).
    cbn [negb orb].
    rewrite constant_of_mask, hash_words_of_mask.
    set (mask := fold_left _ _ _).
    assert (List.length mask = 384%nat) as Hl
        by (subst mask; rewrite fold_mask_length; reflexivity).
    exists mask. split; [exact Hl|]. split.
    + intros Hw. subst mask. apply fold_mask_marked_pos;
        [exact Hw | reflexivity].
    + rewrite linalg_norm_of_mask by lia.
      destruct (PrimFloat.ltb _ _) eqn:L; [|reflexivity].
      apply divide_of_mask.
      pose proof (marked_le_length mask).
      destruct (marked mask) eqn:M; [vm_compute in L; discriminate | lia].
  - left. split; [reflexivity|]. rewrite orb_true_r. reflexivity.
Qed.

(** The statement of C9 fails on the code.  The configured dimension
    plays no part: with the sparse model and a
    configured dimension of 1536, the vector for the empty text has 384
    entries. *)
Lemma sparse_dimension_ignores_configuration :
  exists f v,
    get_embedding_function ascii_lower sum_hash (fun _ => Returns [])
      sparse_config = Function f /\
    f [] = Returns v /\
    len v = 384 /\
    len v <> pinecone_dimension sparse_config.
Proof.
  eexists. eexists. split; [reflexivity|]. split; [reflexivity|].
  split; [reflexivity | discriminate].
Qed.

Lemma nth_mask_set mask :
  forall j i,
    (j < List.length mask)%nat ->
    nth i (mask_set mask j) false = Nat.eqb i j || nth i mask false.
Proof.
  induction mask as [|b mask IH]; intros j i Hj; [simpl in Hj; lia|].
  destruct j as [|j]; destruct i as [|i]; cbn [mask_set nth Nat.eqb orb];
    try reflexivity.
  apply IH. simpl in Hj. lia.
Qed.

(** A position of the mask is marked exactly when a word falls into that
    bucket. *)
Lemma fold_mask_hits hash words i :
  forall mask,
    List.length mask = 384%nat ->
    (nth i (fold_left (fun m word => mask_set m (bucket hash word)) words mask)
         false = true
     <-> nth i mask false = true
         \/ exists word, In word words /\ bucket hash word = i).
Proof.
  induction words as [|w words IH]; intros mask Hl; cbn [fold_left].
  - split; [intros H; left; exact H | intros [H|[x [[] _]]]; exact H].
  - rewrite IH by (rewrite mask_set_length; exact Hl).
    rewrite nth_mask_set by (rewrite Hl; apply bucket_lt).
    rewrite orb_true_iff, Nat.eqb_eq. split.
    + intros [[E|H]|[x [Hx E]]].
      * right. exists w. split; [left; reflexivity | symmetry; exact E].
      * left. exact H.
      * right. exists x. split; [right; exact Hx | exact E].
    + intros [H|[x [[<-|Hx] E]]].
      * left. right. exact H.
      * left. left. symmetry. exact E.
      * right. exists x. split; assumption.
Qed.

Lemma hit_mask_spec hash words i :
  nth i (hit_mask hash words) false = true
  <-> exists word, In word words /\ bucket hash word = i.
Proof.
  unfold hit_mask. rewrite fold_mask_hits by apply repeat_length.
  split; [|intros H; right; exact H].
  intros [H|H]; [|exact H]. rewrite nth_repeat in H. discriminate.
Qed.

(** The vector of a text with a visible character, by the buckets
    hit. *)
Lemma sparse_embed_text_hit_mask lower hash text :
  non_space text = true ->
  let mask := hit_mask hash (split (lower text)) in
  List.length mask = 384%nat /\
  sparse_embed_text lower hash text
  = if PrimFloat.ltb 0%float (PrimFloat.sqrt (of_nat (marked mask)))
    then of_mask (unit_entry (marked mask)) mask
    else of_mask 1%float mask.
Proof.
  intros N mask.
  assert (List.length mask = 384%nat) as Hl
      by (subst mask; unfold hit_mask; rewrite fold_mask_length;
          apply repeat_length).
  split; [exact Hl|].
  unfold sparse_embed_text. rewrite strip_non_space, N.
  assert (truthy text = true) as ->
      by (destruct text; [discriminate | reflexivity]).
  cbn [negb orb].
  rewrite constant_of_mask, hash_words_of_mask.
  change (fold_left (fun m word => mask_set m (bucket hash word))
            (split (lower text)) (repeat false (Z.to_nat 384)))
    with mask.
  rewrite linalg_norm_of_mask by lia.
  destruct (PrimFloat.ltb _ _) eqn:L; [|reflexivity].
  apply divide_of_mask.
  pose proof (marked_le_length mask).
  destruct (marked mask) eqn:M; [vm_compute in L; discriminate | lia].
Qed.

(** C9 (amended): the sparse embedding function is total and always
    gives 384 entries, whatever dimension is configured; for an empty or
    white-space-only text they are all zero; for any other text, with [k]
    the number of buckets that its words hit (at least one, at most
    384), the vector holds the double [1 / sqrt(k)] in each bucket hit
    and zero elsewhere, and it is L2-normalized (the exact sum of the
    squares of its doubles is within [2^-51] of 1). *)
Theorem sparse_embedding_shape :
  forall (lower : str -> str) (hash : str -> Z),
    keeps_words lower ->
    forall text,
      len (sparse_embed_text lower hash text) = 384 /\
      (non_space text = false ->
       sparse_embed_text lower hash text = repeat 0%float 384) /\
      (non_space text = true ->
       l2_normalized (sparse_embed_text lower hash text)) /\
      (non_space text = true ->
       let mask := hit_mask hash (split (lower text)) in
       let k := marked mask in
       (1 <= k <= 384)%nat /\
       (forall i, nth i mask false = true
                  <-> exists word, In word (split (lower text)) /\
                                   bucket hash word = i) /\
       sparse_embed_text lower hash text
       = map (fun hit : bool =>
                if hit
                then PrimFloat.div 1%float (PrimFloat.sqrt (of_nat k))
                else 0%float) mask).
Proof.
  intros lower hash Hlow text.
  assert (non_space text = true ->
          let mask := hit_mask hash (split (lower text)) in
          let k := marked mask in
          (1 <= k <= 384)%nat /\
          (forall i, nth i mask false = true
                     <-> exists word, In word (split (lower text)) /\
                                      bucket hash word = i) /\
          sparse_embed_text lower hash text
          = map (fun hit : bool =>
                   if hit
                   then PrimFloat.div 1%float (PrimFloat.sqrt (of_nat k))
                   else 0%float) mask) as Hhit.
  { intros N mask k.
    destruct (sparse_embed_text_hit_mask lower hash text N) as [Hl E].
    fold mask in Hl, E. fold k in E.
    assert (1 <= k <= 384)%nat as Hk.
    { split.
      - subst k mask. unfold hit_mask. apply fold_mask_marked_pos.
        + apply (split_whitespace_words _ [] (Hlow _ N)).
        + apply repeat_length.
      - pose proof (marked_le_length mask). subst k. lia. }
    split; [exact Hk|]. split; [intros i; apply hit_mask_spec|].
    rewrite E, norm_positive by exact Hk. reflexivity. }
  destruct (sparse_embed_text_cases lower hash text)
    as [[N E] | [N [mask [Hl [Hpos E]]]]]; rewrite N in *.
  - rewrite E. split; [reflexivity|].
    split; [intros _; reflexivity|]. split; discriminate.
  - specialize (Hpos (split_whitespace_words _ [] (Hlow _ N))).
    pose proof (marked_le_length mask) as Hle.
    split; [|split; [discriminate|split; [intros _|exact Hhit]]];
      rewrite E, norm_positive by lia.
    + unfold len, of_mask. rewrite length_map, Hl. reflexivity.
    + unfold l2_normalized. rewrite sum_squares_of_mask.
      apply unit_entry_bound. lia.
Qed.

Lemma sparse_embedding_shape_witness :
  len (sparse_embed_text ascii_lower sum_hash (lit "Hello World")) = 384 /\
  l2_normalized (sparse_embed_text ascii_lower sum_hash (lit "Hello World")) /\
  marked (hit_mask sum_hash (split (ascii_lower (lit "Hello World"))))
  = 2%nat.
Proof.
  destruct (sparse_embedding_shape ascii_lower sum_hash
              ascii_lower_keeps_words (lit "Hello World"))
    as [H1 [_ [H3 _]]].
  split; [exact H1|]. split; [apply H3; reflexivity|].
  vm_compute. reflexivity.
Defined.

End SparseFacts.

(** ** More on the content chunker *)

Section ChunkerMore.
Import Py Chunker.

Lemma lstrip_head s c rest : lstrip s = c :: rest -> isspace c = false.
Proof.
induction s as [|x s IH]; simpl; [discriminate|].
destruct (isspace x) eqn:E; [exact IH|].
intros H. injection H as <- _. exact E.
Qed.

Lemma last_rev_head (c : codepoint) l d : last (rev (c :: l)) d = c.
Proof. simpl. apply last_last. Qed.

(** What [strip] returns is empty or trimmed. *)
Lemma strip_trimmed s : strip s = [] \/ trimmed (strip s).
Proof.
unfold strip, rstrip.
destruct (lstrip (rev (lstrip s))) as [|c t] eqn:E; [left; reflexivity|].
right.
pose proof (lstrip_head _ _ _ E) as Hc.
assert (isspace (last (rev (c :: t)) 0) = false) as Hlast
    by (rewrite last_rev_head; exact Hc).
destruct (rev (c :: t)) as [|x l] eqn:R.
- apply (f_equal (@List.length _)) in R. rewrite length_rev in R. discriminate.
- split; [|exact Hlast].
  destruct (rstrip_spec (lstrip s)) as [r [Hr Hsp]].
  unfold rstrip in Hr. rewrite E, R in Hr.
  destruct (lstrip s) as [|y u] eqn:L; [discriminate|].
  injection Hr as -> _. eapply lstrip_head. exact L.
Qed.

Lemma chunk_loop_trimmed content max_chunk_size overlap :
forall fuel start chunks pieces,
  Forall trimmed chunks ->
  chunk_loop fuel content max_chunk_size overlap start chunks = Some pieces ->
  Forall trimmed pieces.
Proof.
induction fuel as [|fuel IH]; intros start chunks pieces Hc H; simpl in H;
  [discriminate|].
destruct (start <? len content); [|injection H as <-; exact Hc].
apply IH in H; [exact H|].
destruct (strip_trimmed
            (slice content start (window_end content max_chunk_size start)))
  as [E|T].
- rewrite E. exact Hc.
- destruct (strip _) as [|c t]; [exact Hc|]. simpl.
  apply Forall_app. split; [exact Hc | constructor; [exact T | constructor]].
Qed.

(** X1: with any positive overlap the chunker does not return on a text
longer than [max_chunk_size]: no number of iterations ends its loop. *)
Theorem chunker_overlap_never_returns :
forall content max_chunk_size overlap fuel,
  0 < overlap -> 0 <= max_chunk_size -> len content > max_chunk_size ->
  chunk_firecrawl_content fuel content max_chunk_size overlap = None.
Proof.
intros content max_chunk_size overlap fuel Ho Hm Hl.
apply chunk_firecrawl_content_overlap_diverges; assumption.
Qed.

Lemma chunker_overlap_never_returns_witness :
chunk_firecrawl_content 1000 (lit "one two three four") 8 1 = None.
Proof.
apply chunker_overlap_never_returns; [lia | lia | reflexivity].
Defined.

(** X2: when the chunker returns on a text longer than
[max_chunk_size], no piece is empty and no piece starts or ends with
white space. *)
Theorem chunker_pieces_trimmed :
forall fuel content max_chunk_size overlap pieces,
  len content > max_chunk_size ->
  chunk_firecrawl_content fuel content max_chunk_size overlap = Some pieces ->
  Forall trimmed pieces.
Proof.
intros fuel content max_chunk_size overlap pieces Hl H.
unfold chunk_firecrawl_content in H.
destruct (len content <=? max_chunk_size) eqn:E; [lia|].
eapply chunk_loop_trimmed; [|exact H]. constructor.
Qed.

Lemma chunker_pieces_trimmed_witness :
Forall trimmed [lit "ab"; lit "cd"; lit "ef"].
Proof.
apply (chunker_pieces_trimmed 10 (lit "ab  cd  ef ") 5 0);
  [reflexivity | reflexivity].
Defined.

End ChunkerMore.

Section ChunkerHardCuts.
Import Py Chunker.

Lemma last_index_absent ch w : ~ In ch w -> last_index ch w = None.
Proof.
induction w as [|c w IH]; intros H; [reflexivity|].
simpl. rewrite IH by (intros F; apply H; right; exact F).
destruct (c =? ch) eqn:E; [|reflexivity].
apply Z.eqb_eq in E. exfalso. apply H. left. exact E.
Qed.

Lemma in_window {A : Type} (x : A) n m l :
In x (firstn n (skipn m l)) -> In x l.
Proof.
intros H.
rewrite <- (firstn_skipn m l). apply in_or_app. right.
rewrite <- (firstn_skipn n (skipn m l)). apply in_or_app. left. exact H.
Qed.

Lemma rfind_absent s ch start stop : ~ In ch s -> rfind s ch start stop = -1.
Proof.
intros H. unfold rfind. rewrite last_index_absent; [reflexivity|].
intros F. apply H. eapply in_window. exact F.
Qed.

(** In a text without spaces a window ends [max_chunk_size] characters
after its start, or at the end of the text. *)
Lemma window_end_hard content max_chunk_size start :
~ In space content ->
window_end content max_chunk_size start
= if start + max_chunk_size <? len content
  then start + max_chunk_size else len content.
Proof.
intros H. unfold window_end. rewrite rfind_absent by exact H. reflexivity.
Qed.

Lemma slice_clamped {A : Type} (s : list A) a b :
0 <= a -> len s <= b -> slice s a (len s) = slice s a b.
Proof.
intros Ha Hb. unfold slice. pose proof (len_nonneg s).
rewrite !adjust_index_nonneg by lia.
rewrite Z.min_id. rewrite (Z.min_r b) by lia. reflexivity.
Qed.

(** From the [m]-th window on, [r] more windows end the text. *)
Lemma chunk_loop_hard content max_chunk_size :
0 < max_chunk_size -> ~ In space content ->
forall r m fuel chunks,
  (r < fuel)%nat ->
  Z.of_nat (m + r - 1) * max_chunk_size < len content
  <= Z.of_nat (m + r) * max_chunk_size ->
  (1 <= r)%nat ->
  chunk_loop fuel content max_chunk_size 0 (Z.of_nat m * max_chunk_size) chunks
  = Some (chunks ++ filter truthy
                      (map strip (map (cut content max_chunk_size) (seq m r)))).
Proof.
intros Hm Hsp. induction r as [|r IH]; intros m fuel chunks Hf Hk Hr; [lia|].
destruct fuel as [|fuel]; [lia|].
cbn [chunk_loop seq map].
assert (Z.of_nat m * max_chunk_size < len content) as Hs by nia.
apply Z.ltb_lt in Hs as Hs'. rewrite Hs'.
rewrite window_end_hard by exact Hsp. rewrite Z.sub_0_r.
destruct (Z.of_nat m * max_chunk_size + max_chunk_size <? len content) eqn:E.
- apply Z.ltb_lt in E.
  assert (1 <= r)%nat as Hr' by (destruct r; [simpl in Hk; nia | lia]).
  replace (Z.of_nat m * max_chunk_size + max_chunk_size)
    with (Z.of_nat (S m) * max_chunk_size) by lia.
  rewrite (IH (S m) fuel) by
      (try lia; replace (S m + r - 1)%nat with (m + S r - 1)%nat by lia;
       replace (S m + r)%nat with (m + S r)%nat by lia; exact Hk).
  unfold cut at 2.
  replace (Z.of_nat m * max_chunk_size + max_chunk_size)
    with (Z.of_nat (S m) * max_chunk_size) by lia.
  cbn [filter].
  destruct (truthy (strip _)); [rewrite <- app_assoc|]; reflexivity.
- apply Z.ltb_ge in E.
  assert (r = 0%nat) as -> by nia.
  destruct fuel as [|fuel]; [lia|].
  cbn [chunk_loop seq map filter].
  replace (len content <? len content) with false by (symmetry; apply Z.ltb_irrefl).
  unfold cut.
  rewrite (slice_clamped content (Z.of_nat m * max_chunk_size)
             (Z.of_nat m * max_chunk_size + max_chunk_size)) by lia.
  destruct (truthy (strip _)); [|rewrite app_nil_r]; reflexivity.
Qed.

(** X3: on a text longer than [max_chunk_size] that has no space, and
without overlap, the chunker returns after [ceil(n / max_chunk_size)]
windows: its pieces are the consecutive windows of [max_chunk_size]
characters, stripped, those left empty dropped. *)
Theorem chunker_returns_on_text_without_spaces :
forall content max_chunk_size fuel,
  0 < max_chunk_size -> len content > max_chunk_size ->
  ~ In space content ->
  (len content + max_chunk_size - 1) / max_chunk_size < Z.of_nat fuel ->
  chunk_firecrawl_content fuel content max_chunk_size 0
  = Some (filter truthy (map strip (hard_cuts content max_chunk_size))).
Proof.
intros content max_chunk_size fuel Hm Hl Hsp Hf.
unfold chunk_firecrawl_content, hard_cuts.
destruct (len content <=? max_chunk_size) eqn:E; [lia|].
pose proof (len_nonneg content) as Hn.
set (k := Z.to_nat ((len content + max_chunk_size - 1) / max_chunk_size)).
assert (0 <= (len content + max_chunk_size - 1) / max_chunk_size) as Hk0
    by (apply Z.div_pos; lia).
assert (Z.of_nat k = len content / max_chunk_size
                     + (if len content mod max_chunk_size =? 0 then 0 else 1))
  as Hk by (subst k; rewrite Z2Nat.id by lia; apply ceil_div; lia).
pose proof (Z.div_mod (len content) max_chunk_size ltac:(lia)) as Hdm.
pose proof (Z.mod_pos_bound (len content) max_chunk_size Hm) as Hr.
assert (1 <= len content / max_chunk_size) as Hq
    by (apply Z.div_le_lower_bound; lia).
pose proof (chunk_loop_hard content max_chunk_size Hm Hsp k 0%nat fuel [])
  as H.
cbn [Z.of_nat Z.mul app] in H. apply H.
- subst k. lia.
- destruct (len content mod max_chunk_size =? 0) eqn:R;
    [apply Z.eqb_eq in R|apply Z.eqb_neq in R];
    (replace (Z.of_nat (0 + k - 1)) with (Z.of_nat k - 1) by lia);
    (replace (Z.of_nat (0 + k)) with (Z.of_nat k) by lia); nia.
- destruct (len content mod max_chunk_size =? 0); lia.
Qed.

Lemma chunker_returns_on_text_without_spaces_witness :
chunk_firecrawl_content 4 (lit "abcdefgh") 3 0
= Some (filter truthy (map strip (hard_cuts (lit "abcdefgh") 3))).
Proof.
apply chunker_returns_on_text_without_spaces;
  [lia | reflexivity | | reflexivity].
unfold space. simpl. intros H.
repeat (destruct H as [H|H]; [discriminate|]). exact H.
Defined.

End ChunkerHardCuts.

(** ** UTF-8 *)

Section Utf8Facts.
Import Py.

Lemma in_range_true lo hi b : lo <= b <= hi -> in_range lo hi b = true.
Proof.
intros H. unfold in_range. apply andb_true_intro.
split; apply Z.leb_le; lia.
Qed.

Lemma in_range_false lo hi b : b < lo \/ hi < b -> in_range lo hi b = false.
Proof.
intros H. unfold in_range. apply andb_false_iff.
destruct H; [left | right]; apply Z.leb_gt; lia.
Qed.

Lemma ltb_true a b : a < b -> (a <? b) = true.
Proof. apply Z.ltb_lt. Qed.

Lemma ltb_false a b : b <= a -> (a <? b) = false.
Proof. apply Z.ltb_ge. Qed.

Lemma second_octet_of_three c :
2048 <= c < 65536 -> scalar c ->
second_octet (224 + c / 4096) (128 + (c / 64) mod 64) = true.
Proof.
intros Hc Hs. unfold second_octet, continuation, scalar in *.
destruct (Z.eqb_spec (224 + c / 4096) 224) as [E|E];
  [apply in_range_true; Z.div_mod_to_equations; lia|].
destruct (Z.eqb_spec (224 + c / 4096) 237) as [E1|E1];
  [apply in_range_true; Z.div_mod_to_equations; lia|].
destruct (Z.eqb_spec (224 + c / 4096) 240) as [E2|E2];
  [exfalso; Z.div_mod_to_equations; lia|].
destruct (Z.eqb_spec (224 + c / 4096) 244) as [E3|E3];
  [exfalso; Z.div_mod_to_equations; lia|].
apply in_range_true; Z.div_mod_to_equations; lia.
Qed.

Lemma second_octet_of_four c :
65536 <= c < 1114112 ->
second_octet (240 + c / 262144) (128 + (c / 4096) mod 64) = true.
Proof.
intros Hc. unfold second_octet, continuation.
destruct (Z.eqb_spec (240 + c / 262144) 224) as [E|E];
  [exfalso; Z.div_mod_to_equations; lia|].
destruct (Z.eqb_spec (240 + c / 262144) 237) as [E1|E1];
  [exfalso; Z.div_mod_to_equations; lia|].
destruct (Z.eqb_spec (240 + c / 262144) 240) as [E2|E2];
  [apply in_range_true; Z.div_mod_to_equations; lia|].
destruct (Z.eqb_spec (240 + c / 262144) 244) as [E3|E3];
  [apply in_range_true; Z.div_mod_to_equations; lia|].
apply in_range_true; Z.div_mod_to_equations; lia.
Qed.

Lemma continuation_low c k : 0 <= c -> continuation (128 + (c / k) mod 64) = true.
Proof.
intros Hc. apply in_range_true.
pose proof (Z.mod_pos_bound (c / k) 64 ltac:(lia)). lia.
Qed.

Lemma continuation_last c : continuation (128 + c mod 64) = true.
Proof.
apply in_range_true. pose proof (Z.mod_pos_bound c 64 ltac:(lia)). lia.
Qed.

(** The number of octets of a character. *)
Lemma encode_codepoint_length c :
(1 <= List.length (encode_codepoint c) <= 4)%nat.
Proof.
unfold encode_codepoint.
destruct (c <? 128); [simpl; lia|].
destruct (c <? 2048); [simpl; lia|].
destruct (c <? 65536); simpl; lia.
Qed.

(** Decoding reads back a character that was encoded, whatever
follows. *)
Lemma decode_encode_codepoint c rest :
scalar c ->
decode_utf8_ignore (encode_codepoint c ++ rest) = c :: decode_utf8_ignore rest.
Proof.
intros Hs. pose proof Hs as Hs'. unfold scalar in Hs'.
unfold encode_codepoint.
destruct (Z.ltb_spec c 128) as [H1|H1].
- cbn [app decode_utf8_ignore]. rewrite ltb_true by lia. reflexivity.
- destruct (Z.ltb_spec c 2048) as [H2|H2].
  + cbn [app decode_utf8_ignore].
    rewrite ltb_false by (Z.div_mod_to_equations; lia).
    rewrite in_range_true by (Z.div_mod_to_equations; lia).
    rewrite continuation_last. f_equal. Z.div_mod_to_equations; lia.
  + destruct (Z.ltb_spec c 65536) as [H3|H3].
    * cbn [app decode_utf8_ignore].
      rewrite ltb_false by (Z.div_mod_to_equations; lia).
      rewrite in_range_false by (Z.div_mod_to_equations; lia).
      rewrite in_range_true by (Z.div_mod_to_equations; lia).
      rewrite second_octet_of_three by (assumption || lia).
      rewrite continuation_last. f_equal. Z.div_mod_to_equations; lia.
    * cbn [app decode_utf8_ignore].
      rewrite ltb_false by (Z.div_mod_to_equations; lia).
      rewrite in_range_false by (Z.div_mod_to_equations; lia).
      rewrite in_range_false by (Z.div_mod_to_equations; lia).
      rewrite in_range_true by (Z.div_mod_to_equations; lia).
      rewrite second_octet_of_four by lia.
      rewrite continuation_low by lia. rewrite continuation_last.
      f_equal. Z.div_mod_to_equations; lia.
Qed.

(** A character cut short decodes to nothing. *)
Lemma decode_cut_codepoint c n :
scalar c -> (n < List.length (encode_codepoint c))%nat ->
decode_utf8_ignore (firstn n (encode_codepoint c)) = [].
Proof.
intros Hs. pose proof Hs as Hs'. unfold scalar in Hs'.
unfold encode_codepoint.
destruct (Z.ltb_spec c 128) as [H1|H1].
- cbn [List.length]. intros Hn. replace n with 0%nat by lia. reflexivity.
- destruct (Z.ltb_spec c 2048) as [H2|H2].
  + cbn [List.length]. intros Hn.
    destruct n as [|[|n]]; [reflexivity | | lia].
    cbn [firstn decode_utf8_ignore].
    rewrite ltb_false by (Z.div_mod_to_equations; lia).
    rewrite in_range_true by (Z.div_mod_to_equations; lia). reflexivity.
  + destruct (Z.ltb_spec c 65536) as [H3|H3].
    * cbn [List.length]. intros Hn.
      destruct n as [|[|[|n]]]; [reflexivity | | | lia];
        cbn [firstn decode_utf8_ignore];
        rewrite ltb_false by (Z.div_mod_to_equations; lia);
        rewrite in_range_false by (Z.div_mod_to_equations; lia);
        rewrite in_range_true by (Z.div_mod_to_equations; lia);
        [reflexivity|].
      rewrite second_octet_of_three by (assumption || lia). reflexivity.
    * cbn [List.length]. intros Hn.
      destruct n as [|[|[|[|n]]]]; [reflexivity | | | | lia];
        cbn [firstn decode_utf8_ignore];
        rewrite ltb_false by (Z.div_mod_to_equations; lia);
        rewrite in_range_false by (Z.div_mod_to_equations; lia);
        rewrite in_range_false by (Z.div_mod_to_equations; lia);
        rewrite in_range_true by (Z.div_mod_to_equations; lia);
        [reflexivity | |];
        rewrite second_octet_of_four by lia; [reflexivity|].
      rewrite continuation_low by lia. reflexivity.
Qed.

(** Decoding the first [n] octets of an encoded text gives the whole
characters among them: a prefix of the text, whose encoding fits in [n]
octets, and a proper prefix when octets were cut off. *)
Lemma utf8_truncation s :
Forall scalar s ->
forall n,
  exists t rest,
    decode_utf8_ignore (firstn n (encode_utf8 s)) = t /\
    s = t ++ rest /\
    (List.length (encode_utf8 t) <= n)%nat /\
    ((n < List.length (encode_utf8 s))%nat -> rest <> []).
Proof.
induction 1 as [|c s Hc Hs IH]; intros n.
- exists [], []. rewrite firstn_nil. repeat split; simpl; lia.
- cbn [encode_utf8 flat_map]. fold (encode_utf8 s).
  rewrite firstn_app.
  destruct (Nat.lt_ge_cases n (List.length (encode_codepoint c))) as [Hn|Hn].
  + exists [], (c :: s).
    replace (n - List.length (encode_codepoint c))%nat with 0%nat by lia.
    rewrite firstn_O, app_nil_r, decode_cut_codepoint by assumption.
    repeat split; [simpl; lia | discriminate].
  + rewrite firstn_all2 by exact Hn.
    destruct (IH (n - List.length (encode_codepoint c))%nat)
      as [t [rest [Hd [Hsplit [Hlen Hrest]]]]].
    exists (c :: t), rest.
    rewrite decode_encode_codepoint by exact Hc. rewrite Hd.
    split; [reflexivity|]. split; [rewrite Hsplit at 1; reflexivity|].
    split.
    * cbn [encode_utf8 flat_map]. fold (encode_utf8 t).
      rewrite length_app. lia.
    * rewrite length_app. intros Hlt. apply Hrest. lia.
Qed.

(** X4: encoding a text of Unicode scalar values and decoding the
octets, malformed sequences ignored, gives the text back. *)
Theorem utf8_round_trip :
forall s, Forall scalar s -> decode_utf8_ignore (encode_utf8 s) = s.
Proof.
induction 1 as [|c s Hc Hs IH]; [reflexivity|].
cbn [encode_utf8 flat_map]. fold (encode_utf8 s).
rewrite decode_encode_codepoint by exact Hc. rewrite IH. reflexivity.
Qed.

Lemma utf8_round_trip_witness :
decode_utf8_ignore (encode_utf8 [72; 233; 8364; 128512])
= [72; 233; 8364; 128512].
Proof.
apply utf8_round_trip. unfold scalar. repeat constructor; lia.
Defined.

End Utf8Facts.

(** ** More on the vector packager *)

Section PackagerMore.
Import Py Chunk Packager.

Lemma slice_to_firstn {A : Type} (s : list A) n :
slice_to s n = firstn (Z.to_nat (adjust_index (len s) n)) s.
Proof. reflexivity. Qed.

(** X5: for a text of Unicode scalar values, the text that the packager
puts into the metadata is a prefix of the text of the chunk, cut between
two characters: the whole text when no [truncated] entry is made, and
otherwise, for a text that is not empty, a proper prefix; when the space
computed for the text is not negative, the encoding of that prefix fits
it. *)
Theorem packager_text_is_prefix :
forall c,
  Forall scalar (get (text c) []) ->
  let m := chunk_metadata c in
  let space_left := available_space (base_metadata c) in
  exists t rest,
    dict_get m (lit "text") = Some (VStr t) /\
    get (text c) [] = t ++ rest /\
    ((dict_get m (lit "truncated") = None /\ rest = [] /\
      len (encode_utf8 (get (text c) [])) <= space_left)
     \/
     (dict_get m (lit "truncated") = Some (VBool true) /\
      len (encode_utf8 (get (text c) [])) > space_left /\
      (get (text c) [] <> [] -> rest <> []) /\
      (0 <= space_left -> len (encode_utf8 t) <= space_left))).
Proof.
intros c Hs m space_left. subst m space_left.
destruct (Z_le_gt_dec (len (encode_utf8 (get (text c) [])))
                      (available_space (base_metadata c))) as [Hfit|Hcut].
- destruct (chunk_metadata_fitting_text c Hfit) as [Ht Htr].
  exists (get (text c) []), []. rewrite app_nil_r.
  split; [exact Ht|]. split; [reflexivity|]. left. tauto.
- unfold chunk_metadata.
  replace (len (encode_utf8 (get (text c) []))
           >? available_space (base_metadata c)) with true
    by (symmetry; apply Z.gtb_lt; lia).
  rewrite slice_to_firstn.
  set (bytes := encode_utf8 (get (text c) [])) in *.
  set (n := Z.to_nat (adjust_index (len bytes)
                        (available_space (base_metadata c)))).
  destruct (utf8_truncation _ Hs n) as [t [rest [Hd [Hsplit [Hlen Hrest]]]]].
  fold bytes in Hd, Hrest. rewrite Hd.
  exists t, rest.
  split; [rewrite dict_get_set_other by reflexivity; apply dict_get_set_same|].
  split; [exact Hsplit|]. right.
  split; [apply dict_get_set_same|]. split; [lia|].
  pose proof (len_nonneg bytes) as Hb.
  unfold adjust_index in n. split.
  + intros Hne. apply Hrest. unfold len in *.
    assert (List.length bytes <> 0%nat) as Hpos.
    { subst bytes. destruct (get (text c) []) as [|x l]; [congruence|].
      cbn [encode_utf8 flat_map]. rewrite length_app.
      pose proof (encode_codepoint_length x). lia. }
    subst n. destruct (available_space (base_metadata c) <? 0) eqn:E;
      [apply Z.ltb_lt in E | apply Z.ltb_ge in E]; lia.
  + intros H0. unfold len in *. subst n.
    destruct (available_space (base_metadata c) <? 0) eqn:E;
      [apply Z.ltb_lt in E | apply Z.ltb_ge in E]; lia.
Qed.

Lemma packager_text_is_prefix_witness :
exists t rest,
  dict_get (chunk_metadata accented_chunk) (lit "text") = Some (VStr t) /\
  get (text accented_chunk) [] = t ++ rest /\
  ((dict_get (chunk_metadata accented_chunk) (lit "truncated") = None /\
    rest = [] /\
    len (encode_utf8 (get (text accented_chunk) []))
    <= available_space (base_metadata accented_chunk))
   \/
   (dict_get (chunk_metadata accented_chunk) (lit "truncated")
    = Some (VBool true) /\
    len (encode_utf8 (get (text accented_chunk) []))
    > available_space (base_metadata accented_chunk) /\
    (get (text accented_chunk) [] <> [] -> rest <> []) /\
    (0 <= available_space (base_metadata accented_chunk) ->
     len (encode_utf8 t) <= available_space (base_metadata accented_chunk)))).
Proof.
apply (packager_text_is_prefix accented_chunk).
apply Forall_forall. intros x H. apply repeat_spec in H. subst x.
unfold scalar. lia.
Defined.

Lemma dict_set_keys d k v :
incl (map fst (dict_set d k v)) (k :: map fst d).
Proof.
induction d as [|[k' v'] d IH]; simpl.
- intros x H. exact H.
- destruct (str_eqb k' k); simpl.
  + intros x [H|H]; right; [left | right]; assumption.
  + intros x [H|H]; [right; left; exact H|].
    destruct (IH x H) as [E|E]; [left; exact E | right; right; exact E].
Qed.

Lemma base_metadata_shape c :
base_metadata c = [(lit "source_type", VStr (get (source_type c) (lit "unknown")))]
\/ (exists fp, file_path c = Some fp /\
      is_str (source_type c) (lit "repository") = true /\
      base_metadata c
      = [(lit "source_type", VStr (get (source_type c) (lit "unknown")));
         (lit "file_path", VStr fp)])
\/ (exists su, source_url c = Some su /\
      is_str (source_type c) (lit "firecrawl") = true /\
      base_metadata c
      = [(lit "source_type", VStr (get (source_type c) (lit "unknown")));
         (lit "source_url", VStr su)]).
Proof.
unfold base_metadata.
destruct (is_str (source_type c) (lit "repository")) eqn:R; cbn [andb].
- destruct (file_path c) as [fp|] eqn:F; cbn [has].
  + right. left. exists fp. repeat split.
  + destruct (is_str (source_type c) (lit "firecrawl")) eqn:W; cbn [andb];
      [|left; reflexivity].
    destruct (source_url c) as [su|] eqn:U; cbn [has]; [|left; reflexivity].
    right. right. exists su. repeat split.
- destruct (is_str (source_type c) (lit "firecrawl")) eqn:W; cbn [andb];
    [|left; reflexivity].
  destruct (source_url c) as [su|] eqn:U; cbn [has]; [|left; reflexivity].
  right. right. exists su. repeat split.
Qed.

(** X6: the metadata of a record always have a [source_type] entry, the
one of the chunk or ["unknown"] when the chunk has none; they never have
both a [file_path] and a [source_url]; and they have no other key than
[source_type], [file_path], [source_url], [text] and [truncated]
(nothing else of the chunk, such as its [url], is copied). *)
Theorem packager_metadata_keys :
forall c,
  let m := chunk_metadata c in
  dict_get m (lit "source_type")
  = Some (VStr (match source_type c with
                | Some st => st
                | None => lit "unknown"
                end)) /\
  (dict_get m (lit "file_path") = None \/
   dict_get m (lit "source_url") = None) /\
  incl (map fst m) packager_keys /\
  dict_get m (lit "url") = None.
Proof.
intros c m. subst m. unfold chunk_metadata.
set (t := get (text c) []).
set (cut := decode_utf8_ignore _).
destruct (base_metadata_shape c) as [E | [[fp [_ [_ E]]] | [su [_ [_ E]]]]];
  rewrite E; destruct (len (encode_utf8 t) >? _);
  (split; [reflexivity|]);
  (split; [first [left; reflexivity | right; reflexivity]|]);
  (split; [|reflexivity]);
  cbn; unfold packager_keys; intros x Hx; simpl in Hx; simpl; tauto.
Qed.

Lemma app_same_length_tail {A : Type} (a b u v : list A) :
a ++ u = b ++ v -> List.length u = List.length v -> u = v.
Proof.
intros H Hl.
assert (List.length a = List.length b) as Hab.
{ apply (f_equal (@List.length A)) in H. rewrite !length_app in H. lia. }
revert b H Hab. induction a as [|x a IH]; intros [|y b] H Hab;
  try discriminate; [exact H|].
injection H as _ H. apply (IH b); [exact H | simpl in Hab; lia].
Qed.

Lemma records_ids uuid4 chunks :
forall drawn x,
  In x (map id (records uuid4 drawn chunks)) ->
  exists k pre, (k < List.length chunks)%nat /\ x = pre ++ uuid4 (drawn + k)%nat.
Proof.
induction chunks as [|c rest IH]; intros drawn x H; [destruct H|].
cbn [records map] in H. destruct H as [H|H].
- exists 0%nat. unfold package, generate_vector_id in H. cbn [id] in H.
  rewrite Nat.add_0_r.
  destruct (truthy (get (source_type c) [])).
  + exists (get (source_type c) [] ++ lit "-"). split; [simpl; lia|].
    rewrite <- H, <- app_assoc. reflexivity.
  + exists []. split; [simpl; lia | symmetry; exact H].
- destruct (IH (S drawn) x H) as [k [pre [Hk E]]].
  exists (S k), pre. split; [simpl; lia|].
  rewrite E. do 2 f_equal. lia.
Qed.

(** X7: when the UUIDs drawn are different from one another and have the
same length, the records that a packaging run returns have different ids,
also across source types. *)
Theorem packager_ids_distinct :
forall (uuid4 : nat -> str) (chunks : list received) (vectors : list vector),
  (forall i j, uuid4 i = uuid4 j -> i = j) ->
  (forall i j, List.length (uuid4 i) = List.length (uuid4 j)) ->
  prepare_vectors_for_upsert uuid4 chunks = Packaged vectors ->
  NoDup (map id vectors).
Proof.
intros uuid4 chunks vectors Hinj Hlen Hrun.
unfold prepare_vectors_for_upsert in Hrun.
pose proof (prepare_loop_packaged uuid4 chunks _ _ _ Hrun) as Hok.
rewrite (prepare_loop_records uuid4 chunks Hok) in Hrun.
injection Hrun as <-. cbn [app].
generalize (map chunk_of chunks) as cs. clear chunks Hok.
intros cs. generalize 0%nat as drawn.
induction cs as [|c rest IH]; intros drawn; [constructor|].
cbn [records map]. constructor; [|apply IH].
intros Hin. apply records_ids in Hin as [k [pre [_ E]]].
unfold package, generate_vector_id in E. cbn [id] in E.
assert (uuid4 drawn = uuid4 (S drawn + k)%nat) as Hu.
{ destruct (truthy (get (source_type c) [])).
  - apply (app_same_length_tail (get (source_type c) [] ++ lit "-") pre);
      [rewrite <- app_assoc; exact E | apply Hlen].
  - apply (app_same_length_tail [] pre); [exact E | apply Hlen]. }
apply Hinj in Hu. lia.
Qed.

Lemma packager_ids_distinct_witness :
exists vectors,
  prepare_vectors_for_upsert counter_uuid
    [Textual oversized_chunk; Textual accented_chunk; Textual oversized_chunk]
  = Packaged vectors /\
  NoDup (map id vectors).
Proof.
assert (Forall (fun r => raises r = None)
          [Textual oversized_chunk; Textual accented_chunk;
           Textual oversized_chunk]) as Hok
    by (repeat constructor; vm_compute; reflexivity).
eexists. split.
- unfold prepare_vectors_for_upsert.
  rewrite (prepare_loop_records counter_uuid _ Hok). reflexivity.
- apply (packager_ids_distinct counter_uuid
           [Textual oversized_chunk; Textual accented_chunk;
            Textual oversized_chunk]).
  + intros i j H. unfold counter_uuid in H. apply app_inv_head in H.
    apply (f_equal (fun l => hd 0 l)) in H. cbn [hd] in H. lia.
  + intros i j. reflexivity.
  + unfold prepare_vectors_for_upsert.
    rewrite (prepare_loop_records counter_uuid _ Hok). reflexivity.
Defined.

End PackagerMore.

(** ** Size of the metadata of a truncated record *)

Section TruncationSize.
Import Py Chunk Packager.

Lemma encode_utf8_app a b : encode_utf8 (a ++ b) = encode_utf8 a ++ encode_utf8 b.
Proof. unfold encode_utf8. apply flat_map_app. Qed.

Lemma encode_utf8_ascii s :
Forall (fun c => c < 128) s -> encode_utf8 s = s.
Proof.
induction 1 as [|c s Hc _ IH]; [reflexivity|].
cbn [encode_utf8 flat_map]. fold (encode_utf8 s). rewrite IH.
unfold encode_codepoint. rewrite ltb_true by exact Hc. reflexivity.
Qed.

Lemma decode_utf8_ascii s :
Forall (fun c => c < 128) s -> decode_utf8_ignore s = s.
Proof.
induction 1 as [|c s Hc _ IH]; [reflexivity|].
cbn [decode_utf8_ignore]. rewrite ltb_true by exact Hc. rewrite IH.
reflexivity.
Qed.

Lemma plain_ascii s : Forall plain s -> Forall (fun c => c < 128) s.
Proof.
intros H. eapply Forall_impl; [|exact H]. intros c [Hc _]. lia.
Qed.

Lemma json_escape_plain s : Forall plain s -> flat_map json_escape s = s.
Proof.
induction 1 as [|c s [Hr [Hq Hb]] _ IH]; [reflexivity|].
cbn [flat_map]. rewrite IH. unfold json_escape.
destruct (Z.eqb_spec c 34); [lia|]. destruct (Z.eqb_spec c 92); [lia|].
destruct (Z.eqb_spec c 10); [lia|]. destruct (Z.eqb_spec c 13); [lia|].
destruct (Z.eqb_spec c 9); [lia|]. destruct (Z.eqb_spec c 8); [lia|].
destruct (Z.eqb_spec c 12); [lia|].
rewrite in_range_true by lia. reflexivity.
Qed.

Lemma dict_set_absent d k v :
dict_get d k = None -> dict_set d k v = d ++ [(k, v)].
Proof.
induction d as [|[k' v'] d IH]; simpl; [reflexivity|].
destruct (str_eqb k' k); [discriminate|].
intros H. rewrite IH by exact H. reflexivity.
Qed.

Lemma json_items_snoc d kv :
d <> [] -> json_items (d ++ [kv]) = json_items d ++ lit ", " ++ json_item kv.
Proof.
induction d as [|x d IH]; [congruence|]. intros _.
destruct d as [|y d]; [reflexivity|].
change (json_items ((x :: y :: d) ++ [kv]))
  with (json_item x ++ lit ", " ++ json_items ((y :: d) ++ [kv])).
rewrite IH by discriminate.
change (json_items (x :: y :: d))
  with (json_item x ++ lit ", " ++ json_items (y :: d)).
rewrite <- !app_assoc. reflexivity.
Qed.

Lemma serialized_size_snoc d kv :
d <> [] ->
serialized_size (d ++ [kv])
= serialized_size d + 2 + len (encode_utf8 (json_item kv)).
Proof.
intros Hd. unfold serialized_size, json_dumps.
rewrite json_items_snoc by exact Hd.
rewrite !encode_utf8_app, !len_app.
change (len (encode_utf8 (lit ", "))) with 2. lia.
Qed.

Lemma base_metadata_nonempty c : base_metadata c <> [].
Proof.
destruct (base_metadata_shape c) as [E | [[fp [_ [_ E]]] | [su [_ [_ E]]]]];
  rewrite E; discriminate.
Qed.

(** X8: whenever a text of plain printable ASCII characters is
truncated (and there is room for text at all), the metadata of the record
serialize to 21 bytes more than the limit: the cut leaves 10 bytes, and the
key of the text, its quotes and the [truncated] entry take 31. *)
Theorem packager_plain_truncation_size :
forall c,
  Forall plain (get (text c) []) ->
  0 <= available_space (base_metadata c) ->
  len (get (text c) []) > available_space (base_metadata c) ->
  serialized_size (chunk_metadata c) = MAX_METADATA_SIZE + 21.
Proof.
intros c Hp Hroom Hlong.
pose proof (plain_ascii _ Hp) as Hascii.
unfold chunk_metadata. rewrite (encode_utf8_ascii _ Hascii).
unfold str, codepoint in *.
match goal with
| |- context [?a >? ?b] =>
    replace (a >? b) with true by (symmetry; apply Z.gtb_lt; lia)
end.
unfold slice_to. rewrite adjust_index_inside by lia.
set (n := Z.to_nat (available_space (base_metadata c))).
set (t := firstn n _).
assert (Forall plain t) as Hp'.
{ subst t. apply Forall_forall. intros x Hx.
  rewrite Forall_forall in Hp. apply Hp.
  apply (in_window x n 0%nat). exact Hx. }
rewrite (decode_utf8_ascii _ (plain_ascii _ Hp')).
destruct (base_metadata_keys c) as [Kt Kr].
rewrite (dict_set_absent _ _ _ Kt).
rewrite dict_set_absent
  by (rewrite <- (dict_set_absent _ _ _ Kt), dict_get_set_other;
      [exact Kr | reflexivity]).
rewrite !serialized_size_snoc
  by (try (intros F; apply app_eq_nil in F; destruct F; discriminate);
      apply base_metadata_nonempty).
unfold json_item. cbn [fst snd json_value].
unfold json_string at 2. rewrite (json_escape_plain _ Hp').
rewrite !encode_utf8_app, !len_app.
rewrite (encode_utf8_ascii t (plain_ascii _ Hp')).
assert (len t = available_space (base_metadata c)) as Hn.
{ subst t. unfold len in *. rewrite length_firstn. subst n. lia. }
rewrite Hn.
change (len (encode_utf8 (json_string (lit "text")))) with 6.
change (len (encode_utf8 (lit ": "))) with 2.
change (len (encode_utf8 [34])) with 1.
change (len (encode_utf8 (json_string (lit "truncated")))) with 11.
change (len (encode_utf8 (lit "true"))) with 4.
unfold available_space, MAX_METADATA_SIZE. lia.
Qed.

Lemma packager_plain_truncation_size_witness :
serialized_size (chunk_metadata oversized_chunk) = MAX_METADATA_SIZE + 21.
Proof.
apply packager_plain_truncation_size.
- apply Forall_forall. intros x H. apply repeat_spec in H. subst x.
  unfold plain. lia.
- vm_compute. discriminate.
- vm_compute. reflexivity.
Defined.

End TruncationSize.

(** ** More on the batched upsert *)

Section UpsertMore.
Import Py Packager Upsert.



(** X10: a batch size that is not positive sends nothing and leaves the
index as it is: with zero the result is a [PineconeError], with a negative
size it is a success that counts 0 records, whatever the number of
records. *)
Theorem upsert_vectors_without_positive_batch_size :
forall (Index : Type)
       (upsert : Index -> list vector -> str -> call_outcome Index)
       (index : Index) (vectors : list vector) (namespace : str)
       (batch_size : Z),
  batch_size <= 0 ->
  let run := upsert_vectors Index upsert index vectors namespace batch_size in
  snd run = [] /\ snd (fst run) = index /\
  (batch_size = 0 -> exists msg, fst (fst run) = PineconeError msg) /\
  (batch_size < 0 -> fst (fst run) = Upserted 0).
Proof.
intros Index upsert index vectors namespace batch_size Hb run. subst run.
unfold upsert_vectors, range0.
destruct (Z.eqb_spec batch_size 0) as [E|E].
- repeat split; [eexists; reflexivity | lia].
- destruct (Z.ltb_spec batch_size 0) as [L|L]; [|lia].
  repeat split. intros F. contradiction.
Qed.

Lemma upsert_vectors_without_positive_batch_size_witness :
let run := upsert_vectors MockIndex mock_upsert [] scenario_vectors
             (lit "repo-code") (-100) in
snd run = [] /\ snd (fst run) = [] /\
(-100 = 0 -> exists msg, fst (fst run) = PineconeError msg) /\
(-100 < 0 -> fst (fst run) = Upserted 0).
Proof.
apply (upsert_vectors_without_positive_batch_size MockIndex mock_upsert []
         scenario_vectors (lit "repo-code") (-100)).
lia.
Defined.

Lemma lookup_store_same ns v : lookup (store ns v) (id v) = Some v.
Proof.
induction ns as [|[k w] ns IH]; simpl.
- rewrite str_eqb_refl. reflexivity.
- destruct (str_eqb k (id v)) eqn:E; simpl; rewrite E;
    [reflexivity | exact IH].
Qed.

Lemma lookup_store_other ns v k :
str_eqb (id v) k = false -> lookup (store ns v) k = lookup ns k.
Proof.
intros E. induction ns as [|[k0 w] ns IH]; simpl.
- rewrite E. reflexivity.
- destruct (str_eqb k0 (id v)) eqn:E0; simpl.
  + destruct (str_eqb k0 k) eqn:E1; [|reflexivity].
    apply str_eqb_eq in E0, E1. subst. rewrite str_eqb_refl in E.
    discriminate.
  + destruct (str_eqb k0 k); [reflexivity | exact IH].
Qed.

Lemma store_all_snoc ns vs v :
store_all ns (vs ++ [v])
= if truthy (id v) then store (store_all ns vs) v else store_all ns vs.
Proof. unfold store_all. rewrite fold_left_app. reflexivity. Qed.

(** After a batch is stored, an id of the batch that is not empty gives
a vector of the batch with that id. *)
Lemma store_all_lookup ns vs :
forall v, In v vs -> truthy (id v) = true ->
          exists w, In w vs /\ id w = id v /\
                    lookup (store_all ns vs) (id v) = Some w.
Proof.
induction vs as [|x vs IH] using rev_ind; intros v Hin Ht; [destruct Hin|].
rewrite store_all_snoc.
destruct (str_eqb (id x) (id v)) eqn:E.
- apply str_eqb_eq in E. exists x.
  split; [apply in_or_app; right; left; reflexivity|].
  split; [exact E|]. rewrite E, Ht, <- E. apply lookup_store_same.
- assert (In v vs) as Hin'.
  { apply in_app_or in Hin as [H|[H|[]]]; [exact H|].
    subst x. rewrite str_eqb_refl in E. discriminate. }
  destruct (IH v Hin' Ht) as [w [Hw [Hid Hl]]].
  exists w. split; [apply in_or_app; left; exact Hw|]. split; [exact Hid|].
  destruct (truthy (id x)); [rewrite lookup_store_other by exact E|];
    exact Hl.
Qed.

Lemma lookup_mock_namespaces index namespace vectors :
exists ns, lookup (mock_namespaces index namespace vectors) namespace
           = Some (store_all ns vectors).
Proof.
induction index as [|[k ns] index IH]; simpl.
- rewrite str_eqb_refl. eexists. reflexivity.
- destruct (str_eqb k namespace) eqn:E; simpl; rewrite E;
    [eexists; reflexivity | exact IH].
Qed.

Lemma lookup_mock_namespaces_other index namespace vectors other :
str_eqb namespace other = false ->
lookup (mock_namespaces index namespace vectors) other = lookup index other.
Proof.
intros E. induction index as [|[k ns] index IH]; simpl.
- rewrite E. reflexivity.
- destruct (str_eqb k namespace) eqn:E0; simpl.
  + destruct (str_eqb k other) eqn:E1; [|reflexivity].
    apply str_eqb_eq in E0, E1. subst. rewrite str_eqb_refl in E.
    discriminate.
  + destruct (str_eqb k other); [reflexivity | exact IH].
Qed.

(** X11: the mock index acknowledges the length of the batch it is
given; afterwards every id of the batch that is not empty leads, in the
namespace written, to a vector of the batch with that id, and the other
namespaces hold what they held. *)
Theorem mock_upsert_stores_batch :
forall (index : MockIndex) (vectors : list vector) (namespace : str),
  exists index',
    mock_upsert index vectors namespace
    = Responds (RestResponse (Some (len vectors))) index' /\
    (forall v, In v vectors -> truthy (id v) = true ->
       exists w, In w vectors /\ id w = id v /\
                 mock_fetch index' namespace (id v) = Some w) /\
    (forall other vector_id,
       str_eqb namespace other = false ->
       mock_fetch index' other vector_id = mock_fetch index other vector_id).
Proof.
intros index vectors namespace.
exists (mock_namespaces index namespace vectors).
split; [reflexivity|]. split.
- intros v Hin Ht. unfold mock_fetch.
  destruct (lookup_mock_namespaces index namespace vectors) as [ns ->].
  apply store_all_lookup; assumption.
- intros other vector_id E. unfold mock_fetch.
  rewrite lookup_mock_namespaces_other by exact E. reflexivity.
Qed.

End UpsertMore.

(** ** More on the embedding stage *)

Section EmbedderMore.
Import Py Chunk Embedder Dispatcher.

Lemma sparse_embed_text_length lower hash text :
len (sparse_embed_text lower hash text) = 384.
Proof.
destruct (sparse_embed_text_cases lower hash text)
  as [[_ E] | [_ [mask [Hl [_ E]]]]]; rewrite E; [reflexivity|].
destruct (PrimFloat.ltb _ _); unfold len, of_mask;
  rewrite length_map, Hl; reflexivity.
Qed.

(** A function that always returns [k] numbers passes the check of
[embed_chunks] exactly when [k] is the expected dimension. *)
Lemma embed_chunks_fixed_length f k chunks dimension :
(forall text, exists v, f text = Returns v /\ len v = k) ->
(dimension = k ->
 exists out, fst (embed_chunks chunks f dimension) = Ok out /\
             List.length out = List.length (filter has_text chunks)) /\
(dimension <> k ->
 (exists c, In c chunks /\ has_text c = true) ->
 fst (embed_chunks chunks f dimension)
 = Raise (DimensionMismatch dimension k)).
Proof.
intros Hf.
assert (forall cs, returns_on f cs) as Hret.
{ intros cs c _ _. destruct (Hf (get_text c)) as [v [E _]]. exists v. exact E. }
unfold embed_chunks.
rewrite (embed_loop_skips f dimension chunks (Hret chunks) 0%nat 0%nat [] []).
destruct (embed_loop_kept f dimension (filter has_text chunks)
            (filter_has_text_all chunks) (Hret _) 0%nat [] [])
  as [[out [E F2]] | [c [v [Hin [Hv [Hne E]]]]]].
- split.
  + intros _. exists out. split; [exact E|].
    symmetry. eapply Forall2_length. exact F2.
  + intros Hd [c [Hin Ht]]. exfalso.
    assert (In c (filter has_text chunks)) as Hin'
        by (apply filter_In; split; assumption).
    clear E. induction F2 as [|x o xs os [v [Hv [Hl _]]] _ IH];
      [destruct Hin'|].
    destruct Hin' as [->|Hin']; [|apply IH; exact Hin'].
    destruct (Hf (get_text c)) as [v' [Hv' Hk]]. congruence.
- destruct (Hf (get_text c)) as [v' [Hv' Hk]].
  assert (v' = v) as -> by congruence.
  split; [intros Hd; congruence|]. intros _ _. rewrite E, Hk. reflexivity.
Qed.

(** X12: the models computed locally have a length of their own (384
for the sparse and the mock model, 0 for the placeholder of
[llama-text-embed-v2]) that the configuration does not change: with such a
model [embed_chunks] succeeds when the expected dimension is that length,
and otherwise raises the dimension mismatch as soon as one chunk has
text. *)
Theorem local_models_need_their_own_dimension :
forall (lower : str -> str) (hash : str -> Z) (e5 f : embedding_function)
       (cfg : config) (k : Z) (chunks : list chunk) (dimension : Z),
  get_embedding_function lower hash e5 cfg = Function f ->
  fixed_dimension (embedding_model cfg) = Some k ->
  (dimension = k ->
   exists out, fst (embed_chunks chunks f dimension) = Ok out /\
               List.length out = List.length (filter has_text chunks)) /\
  (dimension <> k ->
   (exists c, In c chunks /\ has_text c = true) ->
   fst (embed_chunks chunks f dimension)
   = Raise (DimensionMismatch dimension k)).
Proof.
intros lower hash e5 f cfg k chunks dimension Hg Hk.
apply embed_chunks_fixed_length.
unfold get_embedding_function in Hg. unfold fixed_dimension in Hk.
destruct (negb (truthy (embedding_model cfg))); [discriminate|].
destruct (str_eqb (embedding_model cfg) (lit "multilingual-e5-large")) eqn:E1.
{ apply str_eqb_eq in E1. rewrite E1 in Hk. discriminate. }
destruct (str_eqb (embedding_model cfg) (lit "llama-text-embed-v2")).
{ injection Hg as <-. injection Hk as <-. intros text. exists [].
  split; reflexivity. }
destruct (str_eqb (embedding_model cfg) (lit "pinecone-sparse-english-v0")).
{ injection Hg as <-. injection Hk as <-. intros text.
  exists (sparse_embed_text lower hash text).
  split; [reflexivity | apply sparse_embed_text_length]. }
destruct (str_eqb (embedding_model cfg) (lit "mock_embedding_model"));
  [|discriminate].
injection Hg as <-. injection Hk as <-. intros text.
exists (mock_embed_text text). split; reflexivity.
Qed.

Lemma local_models_need_their_own_dimension_witness :
let chunks := [plain_chunk (lit "alpha"); plain_chunk []] in
(1536 = 384 ->
 exists out,
   fst (embed_chunks chunks (fun text => Returns (mock_embed_text text)) 1536)
   = Ok out /\
   List.length out = List.length (filter has_text chunks)) /\
(1536 <> 384 ->
 (exists c, In c chunks /\ has_text c = true) ->
 fst (embed_chunks chunks (fun text => Returns (mock_embed_text text)) 1536)
 = Raise (DimensionMismatch 1536 384)).
Proof.
apply (local_models_need_their_own_dimension ascii_lower sum_hash
         (fun _ => Returns []) (fun text => Returns (mock_embed_text text))
         (mock_config 1536) 384);
  reflexivity.
Defined.

(** X13: the dispatcher gives an embedding function exactly for the four
model names it knows; for any other name, the empty one included, it
fails with a [ValueError] before anything is embedded. *)
Theorem dispatcher_recognized_models :
forall (lower : str -> str) (hash : str -> Z) (e5 : embedding_function)
       (cfg : config),
  (exists f, get_embedding_function lower hash e5 cfg = Function f)
  <-> In (embedding_model cfg) recognized_models.
Proof.
intros lower hash e5 [model dimension]. unfold get_embedding_function.
cbn [embedding_model]. split.
- intros [f H].
  destruct (negb (truthy model)); [discriminate|].
  destruct (str_eqb model (lit "multilingual-e5-large")) eqn:E1;
    [apply str_eqb_eq in E1; left; symmetry; exact E1|].
  destruct (str_eqb model (lit "llama-text-embed-v2")) eqn:E2;
    [apply str_eqb_eq in E2; right; left; symmetry; exact E2|].
  destruct (str_eqb model (lit "pinecone-sparse-english-v0")) eqn:E3;
    [apply str_eqb_eq in E3; right; right; left; symmetry; exact E3|].
  destruct (str_eqb model (lit "mock_embedding_model")) eqn:E4;
    [apply str_eqb_eq in E4; right; right; right; left; symmetry; exact E4|].
  discriminate.
- intros [<- | [<- | [<- | [<- | []]]]]; eexists; reflexivity.
Qed.

Lemma embed_loop_failure f dimension pre c post :
(forall x, In x pre -> has_text x = true ->
   exists v, f (get_text x) = Returns v /\ len v = dimension) ->
has_text c = true ->
forall i embedded calls,
  (forall msg, f (get_text c) = RaisesException msg ->
     embed_loop f dimension i (pre ++ c :: post) embedded calls
     = (Raise (Unexpected (i + List.length pre) msg),
        calls ++ map get_text (filter has_text pre) ++ [get_text c])) /\
  (forall msg, f (get_text c) = RaisesEmbeddingError msg ->
     embed_loop f dimension i (pre ++ c :: post) embedded calls
     = (Raise (Reraised msg),
        calls ++ map get_text (filter has_text pre) ++ [get_text c])).
Proof.
intros Hpre Hc. unfold has_text in Hc. fold (get_text c) in Hc.
induction pre as [|x pre IH]; intros i embedded calls.
- cbn [app embed_loop List.length filter map]. fold (get_text c).
  rewrite Hc, Nat.add_0_r. cbn [negb].
  split; intros msg E; rewrite E; reflexivity.
- assert (forall y, In y pre -> has_text y = true ->
            exists v, f (get_text y) = Returns v /\ len v = dimension) as Hpre'
      by (intros y Hy; apply Hpre; right; exact Hy).
  specialize (IH Hpre').
  cbn [app embed_loop List.length filter]. fold (get_text x).
  destruct (has_text x) eqn:T; pose proof T as T';
    unfold has_text in T'; fold (get_text x) in T'; rewrite T'; cbn [negb].
  + destruct (Hpre x (or_introl eq_refl) T) as [v [Hv Hl]].
    rewrite Hv. apply Z.eqb_eq in Hl. rewrite Hl. cbn [negb map].
    destruct (IH (S i) (embedded ++ [with_embedding x v])
                 (calls ++ [get_text x])) as [H1 H2].
    split; intros msg E; [rewrite (H1 msg E) | rewrite (H2 msg E)];
      rewrite <- ?app_assoc, ?Nat.add_succ_comm; reflexivity.
  + destruct (IH (S i) embedded calls) as [H1 H2].
    split; intros msg E; [rewrite (H1 msg E) | rewrite (H2 msg E)];
      rewrite ?Nat.add_succ_comm; reflexivity.
Qed.

(** X14: when the embedding function raises on a chunk,
[embed_chunks] stops there: no later chunk is embedded and the chunks
embedded so far are not returned.  An [EmbeddingError] is raised again as
it is; any other exception is wrapped in an [EmbeddingError] that names
the position of the chunk in the input, skipped chunks counted. *)
Theorem embed_chunks_stops_at_failing_chunk :
forall (f : embedding_function) (dimension : Z) (pre : list chunk)
       (c : chunk) (post : list chunk),
  (forall x, In x pre -> has_text x = true ->
     exists v, f (get_text x) = Returns v /\ len v = dimension) ->
  has_text c = true ->
  (forall msg, f (get_text c) = RaisesException msg ->
     embed_chunks (pre ++ c :: post) f dimension
     = (Raise (Unexpected (List.length pre) msg),
        map get_text (filter has_text pre) ++ [get_text c])) /\
  (forall msg, f (get_text c) = RaisesEmbeddingError msg ->
     embed_chunks (pre ++ c :: post) f dimension
     = (Raise (Reraised msg),
        map get_text (filter has_text pre) ++ [get_text c])).
Proof.
intros f dimension pre c post Hpre Hc. unfold embed_chunks.
apply (embed_loop_failure f dimension pre c post Hpre Hc 0%nat [] []).
Qed.

Lemma embed_chunks_stops_at_failing_chunk_witness :
embed_chunks
  ([plain_chunk (lit "alpha"); plain_chunk []]
     ++ plain_chunk (lit "boom") :: [plain_chunk (lit "omega")])
  breaks_on_boom 384
= (Raise (Unexpected 2 (lit "connection reset")),
   [lit "alpha"; lit "boom"]).
Proof.
destruct (embed_chunks_stops_at_failing_chunk breaks_on_boom 384
            [plain_chunk (lit "alpha"); plain_chunk []]
            (plain_chunk (lit "boom")) [plain_chunk (lit "omega")])
  as [H _].
- intros x [<-|[<-|[]]] Ht; [|discriminate].
  eexists. split; reflexivity.
- reflexivity.
- apply H. reflexivity.
Defined.

End EmbedderMore.

(** ** More on the chunk extractor *)

Section ExtractorMore.
Import Py Chunk Extractor.

Lemma xml_chunks_filter elems :
xml_chunks elems = map chunk_of_elem (filter has_path elems).
Proof.
induction elems as [|fe elems IH]; [reflexivity|].
cbn [xml_chunks filter]. unfold has_path at 1.
destruct (truthy (get (path_attr fe) [])); cbn [negb map];
  rewrite IH; reflexivity.
Qed.

Lemma repository_chunk_well_formed t fp : well_formed (repository_chunk t fp).
Proof.
unfold well_formed, repository_chunk. cbn.
repeat split; try (eexists; reflexivity). left. reflexivity.
Qed.

Lemma fallback_chunks_well_formed env content :
Forall well_formed (fallback_chunks env content).
Proof.
unfold fallback_chunks.
assert (Forall well_formed
          ([repository_chunk
              (strip (if contains directory_structure content
                      then nth 0 (split content directory_structure) []
                      else content))
              (lit "repository_summary.txt")]
             ++ map (fun fc => repository_chunk (strip (snd fc)) (fst fc))
                    (findall_file_sections env content))) as H.
{ apply Forall_app. split.
  - constructor; [apply repository_chunk_well_formed | constructor].
  - apply Forall_forall. intros c Hc. apply in_map_iff in Hc as [fc [<- _]].
    apply repository_chunk_well_formed. }
destruct (_ && _); [|exact H].
apply Forall_app. split; [exact H|].
constructor; [apply repository_chunk_well_formed | constructor].
Qed.

(** X15: every chunk that the extractor returns, on the XML path, on the
fallback path and on the error path alike, has a text, a [file_path] and
a [source_type] that is [repository] or [error], and no embedding yet. *)
Theorem extractor_chunks_well_formed :
forall env xml_path chunks,
  parse_repomix_output env xml_path = Value chunks ->
  Forall well_formed chunks.
Proof.
intros env xml_path chunks H. unfold parse_repomix_output in H.
assert (forall e, well_formed (error_chunk e)) as He.
{ intros e. unfold well_formed, error_chunk. cbn.
  repeat split; try (eexists; reflexivity). right. reflexivity. }
destruct (open_read env xml_path) as [content|[m|m|m]];
  try discriminate;
  try (injection H as <-; constructor; [apply He | constructor]).
destruct (ET_parse env xml_path) as [elems|[m|m|m]];
  try discriminate;
  try (injection H as <-; first [ apply fallback_chunks_well_formed
                                | constructor; [apply He | constructor] ]).
destruct (truthy (xml_chunks elems)); injection H as <-;
  [|apply fallback_chunks_well_formed].
rewrite xml_chunks_filter. apply Forall_forall. intros c Hc.
apply in_map_iff in Hc as [fe [<- _]]. apply repository_chunk_well_formed.
Qed.

Lemma extractor_chunks_well_formed_witness :
Forall well_formed [repository_chunk (lit "x = 1") (lit "a.py")].
Proof.
apply (extractor_chunks_well_formed two_files_env (lit "repomix-output.xml")).
reflexivity.
Defined.

(** X16: when the dump parses as XML and some [<file>] element has a
path, the extractor returns one chunk per element with a path, in document
order, with the element's text (empty when it has none) and path; the
elements without a path are skipped and the fallback is not used. *)
Theorem extractor_xml_path :
forall env xml_path content elems,
  open_read env xml_path = Value content ->
  ET_parse env xml_path = Value elems ->
  Exists (fun fe => has_path fe = true) elems ->
  parse_repomix_output env xml_path
  = Value (map chunk_of_elem (filter has_path elems)).
Proof.
intros env xml_path content elems Ho Hp Hex.
unfold parse_repomix_output. rewrite Ho, Hp, xml_chunks_filter.
apply Exists_exists in Hex as [fe [Hin Hfe]].
assert (In fe (filter has_path elems)) as Hin'
    by (apply filter_In; split; assumption).
destruct (filter has_path elems) as [|x l]; [destruct Hin' | reflexivity].
Qed.

Lemma extractor_xml_path_witness :
parse_repomix_output two_files_env (lit "repomix-output.xml")
= Value (map chunk_of_elem
           (filter has_path
              [ {| path_attr := Some (lit "a.py");
                   elem_text := Some (lit "x = 1") |};
                {| path_attr := None; elem_text := Some (lit "lost") |} ])).
Proof.
apply (extractor_xml_path two_files_env (lit "repomix-output.xml")
         (lit "<repo><file path='a.py'>x = 1</file><file>lost</file></repo>"));
  [reflexivity | reflexivity |].
apply Exists_cons_hd. reflexivity.
Defined.

(** *** Substrings and splitting *)

Lemma starts_with_spec prefix s :
starts_with prefix s = true <-> exists after, s = prefix ++ after.
Proof.
revert s. induction prefix as [|p prefix IH]; intros s.
- split; [intros _; exists s; reflexivity | reflexivity].
- destruct s as [|c s]; simpl.
  + split; [discriminate | intros [after H]; discriminate].
  + rewrite andb_true_iff, IH, Z.eqb_eq. split.
    * intros [-> [after ->]]. exists after. reflexivity.
    * intros [after H]. injection H as -> ->. split; [reflexivity|].
      exists after. reflexivity.
Qed.

(** [sub in s] is the substring test. *)
Lemma contains_spec sub s : contains sub s = true <-> substring sub s.
Proof.
unfold substring. induction s as [|c s IH].
- simpl. rewrite orb_false_r, starts_with_spec. split.
  + intros [after H]. exists [], after. exact H.
  + intros [before [after H]]. destruct before; [|discriminate].
    exists after. exact H.
- cbn [contains]. rewrite orb_true_iff, starts_with_spec, IH. split.
  + intros [[after H] | [before [after H]]].
    * exists [], after. exact H.
    * exists (c :: before), after. rewrite H. reflexivity.
  + intros [[|x before] [after H]].
    * left. exists after. exact H.
    * right. injection H as _ H. exists before, after. exact H.
Qed.

Lemma split_from_skip sep cur :
forall tail s, split_from sep (List.length tail) cur (tail ++ s)
               = split_from sep 0 cur s.
Proof.
induction tail as [|x tail IH]; intros s; [reflexivity|].
cbn [List.length app split_from]. apply IH.
Qed.

Lemma split_from_nonempty sep :
forall s skip cur, split_from sep skip cur s <> [].
Proof.
induction s as [|c s IH]; intros skip cur; simpl; [discriminate|].
destruct skip; [|apply IH].
destruct (starts_with sep (c :: s)); [discriminate | apply IH].
Qed.

Lemma join_cons sep p rest :
rest <> [] -> join sep (p :: rest) = p ++ sep ++ join sep rest.
Proof. destruct rest; [congruence | reflexivity]. Qed.

Lemma join_split_from sep :
sep <> [] ->
forall n s cur, (List.length s <= n)%nat ->
                join sep (split_from sep 0 cur s) = rev cur ++ s.
Proof.
intros Hsep. induction n as [|n IH]; intros s cur Hn.
- destruct s; [|simpl in Hn; lia]. simpl. rewrite app_nil_r. reflexivity.
- destruct s as [|c s]; [simpl; rewrite app_nil_r; reflexivity|].
  cbn [split_from].
  destruct (starts_with sep (c :: s)) eqn:E.
  + apply starts_with_spec in E as [after E].
    destruct sep as [|x sep']; [congruence|].
    injection E as -> ->.
    replace (List.length (x :: sep') - 1)%nat with (List.length sep')
      by (simpl; lia).
    rewrite split_from_skip.
    rewrite join_cons by apply split_from_nonempty.
    rewrite IH by (simpl in Hn; rewrite length_app in Hn; lia).
    reflexivity.
  + rewrite IH by (simpl in Hn; lia). simpl. rewrite <- app_assoc.
    reflexivity.
Qed.

(** X17: splitting a text at a separator that is not empty and joining
the parts with the separator gives the text back, and there is always at
least one part; so the parts before and after the directory marker that
the fallback extraction and the validator take lose nothing but the
marker. *)
Theorem split_join_round_trip :
forall s sep, sep <> [] -> join sep (split s sep) = s /\ split s sep <> [].
Proof.
intros s sep Hsep. split; [|apply split_from_nonempty].
unfold split. apply (join_split_from sep Hsep (List.length s) s []). lia.
Qed.

Lemma split_join_round_trip_witness :
join directory_structure
     (split (lit "summary<directory_structure>src/a.py") directory_structure)
= lit "summary<directory_structure>src/a.py" /\
split (lit "summary<directory_structure>src/a.py") directory_structure <> [].
Proof.
apply split_join_round_trip. discriminate.
Defined.

End ExtractorMore.

(** ** More on the ingestion validator *)

Section ValidatorMore.
Import Py Validator.

Lemma matching_item_related fp items key val :
matching_item fp items = Some (key, val) ->
In (key, VStr val) items /\
(Extractor.substring fp val \/ Extractor.substring val fp).
Proof.
induction items as [|[k [v|b]] items IH]; simpl; [discriminate| |].
- destruct (Extractor.contains fp v || Extractor.contains v fp) eqn:E.
  + intros H. injection H as -> ->. split; [left; reflexivity|].
    apply orb_true_iff in E. rewrite !contains_spec in E. exact E.
  + intros H. destruct (IH H) as [Hin Hr]. split; [right; exact Hin | exact Hr].
- intros H. destruct (IH H) as [Hin Hr]. split; [right; exact Hin | exact Hr].
Qed.

Lemma scan_matches_related fp ms entry :
scan_matches fp ms = Some entry ->
exists m key val,
  In m ms /\ In (key, VStr val) (Chunk.get (match_metadata m) []) /\
  entry = found_result fp key val (match_score m) /\
  (Extractor.substring fp val \/ Extractor.substring val fp).
Proof.
induction ms as [|m ms IH]; simpl; [discriminate|].
destruct (matching_item fp (Chunk.get (match_metadata m) []))
  as [[key val]|] eqn:E.
- intros H. injection H as <-. apply matching_item_related in E as [Hin Hr].
  exists m, key, val. repeat split; try assumption. left. reflexivity.
- intros H. destruct (IH H) as [m' [key [val [Hin [Hit [He Hr]]]]]].
  exists m', key, val. repeat split; try assumption. right. exact Hin.
Qed.

(** X18: an entry with [found = True] always comes from a match that
the index returned for this path, in its answer to the first query or, when
that answer had no matching item, in its answer to the second query: the
entry names a metadata field of that match whose string value contains the
sampled path or is contained in it, and carries the path, that field, that
value and the score of that match. *)
Theorem validator_found_is_substring_match :
forall (Index : Type)
       (query : Index -> str -> Z -> list float -> query_outcome Index)
       (index : Index) (namespace fp : str) (embedding_dimension : Z),
  let run := validate_path Index query index namespace fp
               embedding_dimension in
  found (fst run) = true ->
  exists r index' m key val,
    (query index namespace 50 (Flt.constant 0.1%float embedding_dimension)
     = Answers r index'
     \/
     exists r1 index1,
       query index namespace 50 (Flt.constant 0.1%float embedding_dimension)
       = Answers r1 index1 /\
       scan_matches fp (Chunk.get (matches r1) []) = None /\
       query index1 namespace 100 (alternating embedding_dimension)
       = Answers r index') /\
    In m (Chunk.get (matches r) []) /\
    In (key, VStr val) (Chunk.get (match_metadata m) []) /\
    run = (found_result fp key val (match_score m), index') /\
    (Extractor.substring fp val \/ Extractor.substring val fp).
Proof.
intros Index query index namespace fp dim run Hf. subst run.
unfold validate_path in *.
destruct (query index namespace 50 _) as [r1 i1|msg i1] eqn:Q1;
  [|discriminate].
destruct (scan_matches fp (Chunk.get (matches r1) [])) as [e1|] eqn:S1.
- apply scan_matches_related in S1 as [m [key [val [Hm [Hkv [-> Hr]]]]]].
  exists r1, i1, m, key, val.
  split; [left; reflexivity|]. repeat split; assumption.
- destruct (query i1 namespace 100 _) as [r2 i2|msg i2] eqn:Q2;
    [|discriminate].
  destruct (scan_matches fp (Chunk.get (matches r2) [])) as [e2|] eqn:S2;
    [|discriminate].
  apply scan_matches_related in S2 as [m [key [val [Hm [Hkv [-> Hr]]]]]].
  exists r2, i2, m, key, val.
  split; [right; exists r1, i1; repeat split; assumption|].
  repeat split; assumption.
Qed.

Lemma validator_found_is_substring_match_witness :
exists r index' m key val,
  (flaky_query 0%nat (lit "repo-code") 50 (Flt.constant 0.1%float 384)
   = Answers r index'
   \/
   exists r1 index1,
     flaky_query 0%nat (lit "repo-code") 50 (Flt.constant 0.1%float 384)
     = Answers r1 index1 /\
     scan_matches (lit "src/a.py") (Chunk.get (matches r1) []) = None /\
     flaky_query index1 (lit "repo-code") 100 (alternating 384)
     = Answers r index') /\
  In m (Chunk.get (matches r) []) /\
  In (key, VStr val) (Chunk.get (match_metadata m) []) /\
  validate_path nat flaky_query 0%nat (lit "repo-code") (lit "src/a.py") 384
  = (found_result (lit "src/a.py") key val (match_score m), index') /\
  (Extractor.substring (lit "src/a.py") val
   \/ Extractor.substring val (lit "src/a.py")).
Proof.
apply (validator_found_is_substring_match nat flaky_query 0%nat
         (lit "repo-code") (lit "src/a.py") 384).
reflexivity.
Defined.

End ValidatorMore.

Section FallbackFacts.
Import Py Chunk Extractor.

Lemma split_from_two sep :
sep <> [] ->
forall s cur, contains sep s = true ->
              (2 <= List.length (split_from sep 0 cur s))%nat.
Proof.
intros Hsep. induction s as [|c s IH]; intros cur H.
- simpl in H. rewrite orb_false_r in H.
  destruct sep; [congruence | discriminate].
- cbn [split_from]. cbn [contains] in H.
  destruct (starts_with sep (c :: s)) eqn:E.
  + cbn [List.length].
    pose proof (split_from_nonempty sep s (List.length sep - 1) []) as Hne.
    destruct (split_from sep (List.length sep - 1) [] s); [congruence|].
    simpl. lia.
  + simpl in H. apply IH. exact H.
Qed.

(** The first part that [split] gives ends where the separator first
starts, or at the end of the text; the other parts are the parts of what
follows that separator. *)
Lemma split_from_head sep :
sep <> [] ->
forall s cur,
  exists q ps,
    split_from sep 0 cur s = (rev cur ++ q) :: ps /\
    (forall i, (i < List.length q)%nat ->
               starts_with sep (skipn i s) = false) /\
    ((ps = [] /\ s = q) \/
     (exists s', s = q ++ sep ++ s' /\ ps = split_from sep 0 [] s')).
Proof.
intros Hsep. induction s as [|c s IH]; intros cur.
- exists [], []. cbn. rewrite app_nil_r.
  split; [reflexivity|]. split; [intros i Hi; lia|]. left. split; reflexivity.
- cbn [split_from].
  destruct (starts_with sep (c :: s)) eqn:E.
  + exists [], (split_from sep (List.length sep - 1) [] s).
    rewrite app_nil_r. split; [reflexivity|].
    split; [intros i Hi; simpl in Hi; lia|].
    right. apply starts_with_spec in E as [after E].
    destruct sep as [|x sep']; [congruence|].
    injection E as Ex Es. exists after. split.
    * cbn [app]. rewrite Ex, Es. reflexivity.
    * replace (List.length (x :: sep') - 1)%nat with (List.length sep')
        by (simpl; lia).
      rewrite Es. apply split_from_skip.
  + destruct (IH (c :: cur)) as [q [ps [Hs [Hno Hrest]]]].
    exists (c :: q), ps. split.
    * rewrite Hs. cbn [rev]. rewrite <- app_assoc. reflexivity.
    * split.
      -- intros i Hi. destruct i as [|i]; [exact E|].
         cbn [skipn]. apply Hno. simpl in Hi. lia.
      -- destruct Hrest as [[Hp Hq] | [s' [Hq Hp]]].
         ++ left. split; [exact Hp | rewrite Hq at 1; reflexivity].
         ++ right. exists s'. split; [rewrite Hq at 1; reflexivity | exact Hp].
Qed.

(** X19: when the fallback extraction finds the directory marker and no
file section, it returns two chunks: the stripped text before the first
marker as [repository_summary.txt] and the stripped text between the first
marker and the next one (or the end) as [directory_structure.txt]; what
follows a second marker is not extracted.  The marker starts nowhere in
the text before the first part ends, and nowhere in what follows it before
the second part ends. *)
Theorem fallback_directory_listing :
forall env content,
  contains directory_structure content = true ->
  findall_file_sections env content = [] ->
  exists before listing rest,
    let tail := join directory_structure (listing :: rest) in
    content = before ++ directory_structure ++ tail /\
    (forall i, (i < List.length before)%nat ->
               starts_with directory_structure (skipn i content) = false) /\
    (forall i, (i < List.length listing)%nat ->
               starts_with directory_structure (skipn i tail) = false) /\
    (rest = [] -> tail = listing) /\
    (rest <> [] ->
     tail = listing ++ directory_structure ++ join directory_structure rest) /\
    fallback_chunks env content
    = [repository_chunk (strip before) (lit "repository_summary.txt");
       repository_chunk (strip listing) (lit "directory_structure.txt")].
Proof.
intros env content Hc Hf.
assert (directory_structure <> []) as Hsep by discriminate.
pose proof (split_from_two directory_structure Hsep content [] Hc) as H2.
destruct (split_from_head directory_structure Hsep content [])
  as [before [ps [Hs [Hno Hrest]]]].
cbn [rev app] in Hs.
destruct Hrest as [[Hp _] | [s' [Hq Hp]]];
  [rewrite Hs, Hp in H2; simpl in H2; lia|].
destruct (split_from_head directory_structure Hsep s' [])
  as [listing [rest [Hs' [Hno' _]]]].
cbn [rev app] in Hs'.
pose proof (join_split_from directory_structure Hsep
              (List.length s') s' [] ltac:(lia)) as Hj.
cbn [rev app] in Hj. rewrite Hs' in Hj.
exists before, listing, rest. intros tail.
assert (tail = s') as Ht by exact Hj. clearbody tail. subst tail.
split; [exact Hq|]. split; [exact Hno|]. split; [exact Hno'|].
split; [|split].
- intros ->. rewrite <- Hj. reflexivity.
- intros Hr. rewrite <- Hj. apply join_cons. exact Hr.
- unfold fallback_chunks. rewrite Hc, Hf. unfold split.
  rewrite Hs, Hp, Hs'. reflexivity.
Qed.

Lemma fallback_directory_listing_witness :
exists before listing rest,
  let content :=
    lit "A summary. <directory_structure> src/a.py <directory_structure> x" in
  let tail := join directory_structure (listing :: rest) in
  content = before ++ directory_structure ++ tail /\
  (forall i, (i < List.length before)%nat ->
             starts_with directory_structure (skipn i content) = false) /\
  (forall i, (i < List.length listing)%nat ->
             starts_with directory_structure (skipn i tail) = false) /\
  (rest = [] -> tail = listing) /\
  (rest <> [] ->
   tail = listing ++ directory_structure ++ join directory_structure rest) /\
  fallback_chunks listing_only_env content
  = [repository_chunk (strip before) (lit "repository_summary.txt");
     repository_chunk (strip listing) (lit "directory_structure.txt")].
Proof.
apply (fallback_directory_listing listing_only_env
         (lit "A summary. <directory_structure> src/a.py <directory_structure> x"));
  reflexivity.
Defined.

End FallbackFacts.

(** ** From a parse failure to the index *)

Section ErrorChunkFacts.
Import Py Chunk Extractor Embedder Packager.

Lemma error_chunk_base_metadata e v :
base_metadata (with_embedding (error_chunk e) v)
= [(lit "source_type", VStr (lit "error"))].
Proof. reflexivity. Qed.

Lemma existsb_surrogate_app a b :
existsb surrogate (a ++ b) = existsb surrogate a || existsb surrogate b.
Proof. apply existsb_app. Qed.

(** X20: the synthetic chunk that the extractor returns for an
unexpected error is not told apart from content afterwards: its text is
not empty, so [embed_chunks] embeds it (here with the mock model), and the
packager makes a record of it with an id that starts with [error-] and
[source_type] [error] in its metadata; only a surrogate in the message of
the exception stops it, by the [UnicodeEncodeError] of the packager. *)
Theorem error_chunk_is_ingested :
forall (e : exception) (uuid4 : nat -> str),
  let f := fun text => Returns (Dispatcher.mock_embed_text text) in
  let embedded := with_embedding (error_chunk e)
                    (Flt.constant 0%float 384) in
  embed_chunks [error_chunk e] f 384
  = (Ok [embedded], [lit "Error parsing Repomix output: " ++ message e]) /\
  exists v,
    prepare_vectors_for_upsert uuid4 [Textual embedded]
    = (if existsb surrogate (message e)
       then PackagingRaises UnicodeEncodeError
       else Packaged [v]) /\
    v = package (uuid4 0%nat) embedded /\
    id v = lit "error-" ++ uuid4 0%nat /\
    values v = Flt.constant 0%float 384 /\
    dict_get (metadata v) (lit "source_type") = Some (VStr (lit "error")).
Proof.
intros e uuid4 f embedded. split; [reflexivity|].
eexists. split; [|split; [reflexivity|]].
- unfold prepare_vectors_for_upsert. cbn [prepare_loop raises].
  unfold encode. subst embedded.
  cbn [with_embedding error_chunk text get].
  rewrite existsb_surrogate_app.
  change (existsb surrogate (lit "Error parsing Repomix output: "))
    with false. cbn [orb].
  destruct (existsb surrogate (message e)); reflexivity.
- split; [reflexivity|]. split; [reflexivity|].
  cbn [metadata package]. unfold chunk_metadata.
  subst embedded. rewrite error_chunk_base_metadata.
  destruct (_ >? _); rewrite ?dict_get_set_other by reflexivity; reflexivity.
Qed.

End ErrorChunkFacts.

(** ** Research topics *)

Section ResearchFacts.
Import Py Research.

Lemma mem_spec x topics : mem x topics = true <-> In x topics.
Proof.
unfold mem. rewrite existsb_exists. split.
- intros [y [Hin E]]. apply str_eqb_eq in E. subst. exact Hin.
- intros H. exists x. split; [exact H | apply str_eqb_refl].
Qed.

Lemma add_topic_ok named topics t :
named t -> topics_ok named topics -> topics_ok named (add_topic topics t).
Proof.
intros Ht [Hnd Hall]. unfold add_topic.
destruct (truthy t) eqn:T; [|split; assumption].
destruct (mem t topics) eqn:M; [split; assumption|].
cbn [negb andb]. split.
- apply NoDup_app; [exact Hnd | repeat constructor; intros [] |].
  intros x Hx [<-|[]]. apply mem_spec in Hx. congruence.
- apply Forall_app. split; [exact Hall|].
  constructor; [|constructor]. split; [|exact Ht].
  intros E. rewrite E in T. discriminate.
Qed.

Lemma fold_add_topic_ok named stack :
forall topics,
  (forall t, In t stack -> named t) ->
  topics_ok named topics -> topics_ok named (fold_left add_topic stack topics).
Proof.
induction stack as [|t stack IH]; intros topics Hn Hok; [exact Hok|].
cbn [fold_left]. apply IH.
- intros x Hx. apply Hn. right. exact Hx.
- apply add_topic_ok; [apply Hn; left; reflexivity | exact Hok].
Qed.

Lemma chunk_topics_ok named topics c :
(forall md, metadata c = Some md ->
   (forall t, repository_name md = Some t -> named t) /\
   (forall stack t, tech_stack md = Some stack -> In t stack -> named t)) ->
topics_ok named topics -> topics_ok named (chunk_topics topics c).
Proof.
intros Hc Hok. unfold chunk_topics.
destruct (metadata c) as [md|]; cbn [Chunk.get]; [|exact Hok].
destruct (Hc md eq_refl) as [Hr Hs].
apply fold_add_topic_ok.
- destruct (tech_stack md) as [stack|]; cbn [Chunk.get]; [|intros t []].
  intros t Ht. eapply Hs; [reflexivity | exact Ht].
- destruct (repository_name md) as [r|]; [|exact Hok].
  apply add_topic_ok; [apply Hr; reflexivity | exact Hok].
Qed.

Lemma fold_chunk_topics_ok named chunks :
forall topics,
  (forall c md, In c chunks -> metadata c = Some md ->
     (forall t, repository_name md = Some t -> named t) /\
     (forall stack t, tech_stack md = Some stack -> In t stack -> named t)) ->
  topics_ok named topics ->
  topics_ok named (fold_left chunk_topics chunks topics).
Proof.
induction chunks as [|c chunks IH]; intros topics Hn Hok; [exact Hok|].
cbn [fold_left]. apply IH.
- intros c' md Hin. apply Hn. right. exact Hin.
- apply chunk_topics_ok; [|exact Hok].
  intros md. apply Hn. left. reflexivity.
Qed.

(** X21: [extract_research_topics] returns at most five topics, without
repetition and without empty strings, each of them a repository name or a
technology named in the metadata of some chunk; chunks without a
[metadata] key, as the extractor makes them, give no topic at all. *)
Theorem research_topics_shape :
forall content_chunks : list content_chunk,
  let topics := extract_research_topics content_chunks in
  len topics <= 5 /\
  NoDup topics /\
  Forall (fun t => t <> [] /\ named_by content_chunks t) topics /\
  (Forall (fun c => metadata c = None) content_chunks -> topics = []) /\
  (forall chunks : list Chunk.chunk,
      extract_research_topics (map of_repository_chunk chunks) = []).
Proof.
intros content_chunks topics. subst topics. unfold extract_research_topics.
assert (topics_ok (named_by content_chunks)
          (fold_left chunk_topics content_chunks [])) as [Hnd Hall].
{ apply fold_chunk_topics_ok; [|split; constructor].
  intros c md Hin Hmd. split.
  - intros t Ht. exists c, md. repeat split; try assumption. left. exact Ht.
  - intros stack t Hs Ht. exists c, md. repeat split; try assumption.
    right. exists stack. split; assumption. }
assert (forall cs topics0,
          Forall (fun c => metadata c = None) cs ->
          fold_left chunk_topics cs topics0 = topics0) as Hnone.
{ induction cs as [|c cs IH]; intros topics0 H; [reflexivity|].
  inversion H as [|c' cs' Hc Hcs]; subst. cbn [fold_left].
  unfold chunk_topics at 2. rewrite Hc. cbn. apply IH. exact Hcs. }
unfold slice_to. set (all := fold_left chunk_topics content_chunks []) in *.
set (n := Z.to_nat (adjust_index (len all) 5)).
assert (n <= 5)%nat as Hn.
{ subst n. pose proof (adjust_index_range (len all) 5 (len_nonneg all)).
  unfold adjust_index in *. simpl in *. lia. }
split; [unfold len; rewrite length_firstn; lia|].
split; [|split; [|split]].
- rewrite <- (firstn_skipn n all) in Hnd. apply NoDup_app_remove_r in Hnd.
  exact Hnd.
- rewrite <- (firstn_skipn n all) in Hall. apply Forall_app in Hall.
  tauto.
- intros H. subst n all. rewrite (Hnone _ [] H). reflexivity.
- intros chunks. rewrite (Hnone _ []); [reflexivity|].
  apply Forall_forall. intros c Hc. apply in_map_iff in Hc as [x [<- _]].
  reflexivity.
Qed.

End ResearchFacts.

(** ** Configuration *)

Section ConfigFacts.
Import Py Config.

(** A path breaks off exactly when the walk falls back on the default,
whatever the default is. *)
Lemma walk_breaks_off parts :
forall current default,
  (breaks_off current parts = true -> walk current parts default = default) /\
  (breaks_off current parts = false ->
   forall other, walk current parts other = walk current parts default).
Proof.
induction parts as [|part rest IH]; intros current default.
- split; [discriminate | reflexivity].
- cbn [breaks_off walk]. destruct current as [v|s0| |items];
    try (split; [reflexivity | discriminate]).
  destruct (item items part) as [next|];
    [apply IH | split; [reflexivity | discriminate]].
Qed.

(** X22: [_validate_config] accepts a configuration exactly when each of
the three required key paths leads to a value; [get_nested_config] then
returns that value whatever default it is given, and for a path that
breaks off (a key is missing, or a value on the way is no mapping) it
returns the default. *)
Theorem validated_config_has_required_values :
forall config : node,
  (validate_config config = None <->
   forall key_path, In key_path REQUIRED_CONFIG_KEYS ->
     forall default other,
       get_nested_config config key_path default
       = get_nested_config config key_path other) /\
  (forall key_path default,
     In key_path (missing_keys config) ->
     get_nested_config config key_path default = default).
Proof.
intros config. split; [split|].
- intros H key_path Hin default other.
  unfold validate_config in H.
  destruct (missing_keys config) as [|k l] eqn:M; [|discriminate].
  assert (breaks_off config (Extractor.split key_path (lit ".")) = false) as Hb.
  { destruct (breaks_off config (Extractor.split key_path (lit "."))) eqn:B;
      [|reflexivity].
    assert (In key_path (missing_keys config)) as Hm
        by (apply filter_In; split; assumption).
    rewrite M in Hm. destruct Hm. }
  apply (walk_breaks_off _ config other). exact Hb.
- intros H. unfold validate_config.
  destruct (missing_keys config) as [|k l] eqn:M; [reflexivity|].
  exfalso.
  assert (In k (missing_keys config)) as Hk by (rewrite M; left; reflexivity).
  apply filter_In in Hk as [Hin Hb].
  pose proof (H k Hin (Scalar 0) (Scalar 1)) as E.
  unfold get_nested_config in E.
  rewrite !(proj1 (walk_breaks_off _ config _) Hb) in E. discriminate.
- intros key_path default Hin. apply filter_In in Hin as [_ Hb].
  apply (walk_breaks_off _ config default). exact Hb.
Qed.

End ConfigFacts.

(** ** The candidate paths of the validator *)

Section ListingFacts.
Import Py Listing.

Lemma lstrip_chars_spec chars s :
exists pre, s = pre ++ lstrip_chars chars s /\
  Forall (fun c => existsb (Z.eqb c) chars = true) pre.
Proof.
induction s as [|c s [pre [E F]]]; [exists []; split; [reflexivity|constructor]|].
cbn [lstrip_chars]. destruct (existsb (Z.eqb c) chars) eqn:H.
- exists (c :: pre). split; [cbn; f_equal; exact E | constructor; assumption].
- exists []. split; [reflexivity | constructor].
Qed.

Lemma lstrip_chars_head chars s :
lstrip_chars chars s <> [] ->
existsb (Z.eqb (hd 0 (lstrip_chars chars s))) chars = false.
Proof.
induction s as [|c s IH]; cbn [lstrip_chars]; [congruence|].
destruct (existsb (Z.eqb c) chars) eqn:H; [exact IH|].
intros _. exact H.
Qed.

Lemma last_app_nonempty (pre p : str) d :
p <> [] -> last (pre ++ p) d = last p d.
Proof.
intros Hp. induction pre as [|x pre IH]; [reflexivity|].
cbn [app]. destruct (pre ++ p) as [|y l] eqn:E.
- destruct pre; [cbn in E; congruence | discriminate].
- cbn [last]. rewrite <- IH. reflexivity.
Qed.

Lemma ends_with_last c s :
s <> [] -> ends_with [c] s = (c =? last s 0).
Proof.
intros Hs. unfold ends_with.
rewrite (app_removelast_last 0 Hs) at 1. rewrite rev_app_distr.
cbn. rewrite andb_true_r. reflexivity.
Qed.

Section Route.
Variable word : codepoint -> bool.

Lemma pattern_line_clean line p :
pattern_line word line = Some p -> clean_path word p.
Proof.
unfold pattern_line.
destruct (truthy (strip line)) eqn:T; [|discriminate].
destruct (ends_with (lit "/") (strip line)) eqn:E; [discriminate|].
cbn [negb orb].
set (q := lstrip_chars (lit " -") (strip line)).
destruct (existsb (fun x => Extractor.contains x q) code_marks) eqn:M;
  [discriminate|].
destruct (len (Dispatcher.split q) >? 2) eqn:W; [discriminate|].
destruct (file_path_pattern_match word q || Extractor.contains (lit "/") q)
  eqn:P; [|discriminate].
intros H. injection H as <-.
assert (q <> []) as Hq.
{ intros Q. rewrite Q in P. cbn in P. discriminate. }
destruct (lstrip_chars_spec (lit " -") (strip line)) as [pre [Hpre _]].
fold q in Hpre.
assert (strip line <> []) as Hl by (intros Z0; rewrite Z0 in T; discriminate).
assert (last (strip line) 0 = last q 0) as Hlast
    by (rewrite Hpre at 1; apply last_app_nonempty; exact Hq).
split; [exact Hq|].
pose proof (lstrip_chars_head (lit " -") (strip line) Hq) as Hh.
fold q in Hh. cbn in Hh. rewrite orb_false_r in Hh.
apply orb_false_iff in Hh as [H32 H45].
split; [intros Z0; rewrite Z0 in H32; discriminate|].
split; [intros Z0; rewrite Z0 in H45; discriminate|].
split.
{ rewrite <- Hlast. destruct (strip_trimmed line) as [Z0|Tr];
    [congruence|].
  unfold Chunker.trimmed in Tr. destruct (strip line); [contradiction|].
  apply Tr. }
split.
{ rewrite <- Hlast. pose proof (ends_with_last 47 _ Hl) as EL.
  change (ends_with (lit "/") (strip line) = (47 =? last (strip line) 0))
    in EL.
  rewrite E in EL. symmetry in EL. apply Z.eqb_neq in EL. congruence. }
split.
{ intros x Hx. destruct (Extractor.contains x q) eqn:C; [|reflexivity].
  assert (existsb (fun x => Extractor.contains x q) code_marks = true) as A
      by (apply existsb_exists; exists x; split; assumption).
  congruence. }
split.
{ destruct (Z.gtb_spec (len (Dispatcher.split q)) 2); [discriminate | lia]. }
apply orb_true_iff in P. exact P.
Qed.

Lemma collect_Forall (body : str -> option str) (P : str -> Prop) lines :
(forall line p, body line = Some p -> P p) ->
Forall P (collect body lines).
Proof.
intros H. induction lines as [|line rest IH]; cbn [collect]; [constructor|].
destruct (body line) as [p|] eqn:B; [|exact IH].
constructor; [eapply H; exact B | exact IH].
Qed.

Lemma collect_In (body : str -> option str) lines line p :
In line lines -> body line = Some p -> In p (collect body lines).
Proof.
intros Hin Hb. induction lines as [|l rest IH]; [destruct Hin|].
cbn [collect]. destruct Hin as [->|Hin].
- rewrite Hb. left. reflexivity.
- destruct (body l); [right|]; apply IH; exact Hin.
Qed.

Lemma collect_skipped (body : str -> option str) lines :
Forall (fun line => body line = None) lines -> collect body lines = [].
Proof.
induction 1 as [|line rest H _ IH]; [reflexivity|].
cbn [collect]. rewrite H. exact IH.
Qed.

Lemma skipped_pattern_line line :
skipped_line line -> pattern_line word line = None.
Proof.
unfold pattern_line. intros [H|H]; rewrite H; [reflexivity|].
rewrite orb_true_r. reflexivity.
Qed.

Lemma skipped_lenient_line line :
skipped_line line -> lenient_line line = None.
Proof.
unfold lenient_line. intros [H|H]; rewrite H; [reflexivity|].
rewrite andb_false_r. reflexivity.
Qed.

Lemma rule_lstrip_chars s :
Forall (fun c => c = 32 \/ c = 45) s -> lstrip_chars (lit " -") s = [].
Proof.
intros H. induction H as [|c s Hc _ IH]; [reflexivity|].
destruct Hc as [Hc|Hc]; subst c; cbn; exact IH.
Qed.

Lemma rule_lenient_line line :
rule_line line -> lenient_line line = Some [].
Proof.
intros [Hne Hall]. unfold lenient_line.
assert (truthy (strip line) = true) as T
    by (destruct (strip line); [congruence | reflexivity]).
rewrite T.
assert (ends_with (lit "/") (strip line) = false) as E.
{ pose proof (ends_with_last 47 _ Hne) as EL.
  change (ends_with (lit "/") (strip line) = (47 =? last (strip line) 0))
    in EL.
  rewrite EL. apply Z.eqb_neq. intros L.
  assert (In (last (strip line) 0) (strip line)) as Hin.
  { rewrite (app_removelast_last 0 Hne) at 2. apply in_or_app. right.
    left. reflexivity. }
  rewrite Forall_forall in Hall. destruct (Hall _ Hin); lia. }
rewrite E. cbn [negb andb]. rewrite (rule_lstrip_chars _ Hall). reflexivity.
Qed.

End Route.

(** X23: when the first, pattern-based loop of the validator finds
anything, the candidate paths are its finds, and each of them is clean:
not empty, not begun by a space or a dash, not ended by white space or a
slash, free of the nine characters that mark code, of at most two words,
and either of the shape [name.extension] or with a slash inside. *)
Theorem validator_pattern_paths_clean :
forall (word : codepoint -> bool) (repomix_content : str),
  let lines := Extractor.split (dir_structure repomix_content) newline in
  collect (pattern_line word) lines <> [] ->
  extract_file_paths word repomix_content = collect (pattern_line word) lines /\
  Forall (clean_path word) (extract_file_paths word repomix_content).
Proof.
intros word content lines Hne.
assert (extract_file_paths word content = collect (pattern_line word) lines)
    as E.
{ unfold extract_file_paths. fold lines.
  destruct (collect (pattern_line word) lines); [congruence | reflexivity]. }
split; [exact E|]. rewrite E.
apply collect_Forall. apply pattern_line_clean.
Qed.

Lemma validator_pattern_paths_clean_witness :
extract_file_paths ascii_word sample_dump
= [lit "cli.py"; lit "docs/guide.md"] /\
Forall (clean_path ascii_word) (extract_file_paths ascii_word sample_dump).
Proof.
assert (collect (pattern_line ascii_word)
          (Extractor.split (dir_structure sample_dump) newline)
        = [lit "cli.py"; lit "docs/guide.md"]) as E
    by (vm_compute; reflexivity).
destruct (validator_pattern_paths_clean ascii_word sample_dump) as [H1 H2].
- rewrite E. discriminate.
- split; [rewrite H1; exact E | exact H2].
Defined.

(** X24: a dump that gives no candidate path ends the validation before
any query: a missing file and a listing whose lines are all blank or names
of directories (an absent listing among them) give the dictionary with an
[error] and leave the index as it was; any other failure to read the file
is not caught and leaves the function as an exception. *)
Theorem validator_unusable_dump :
forall (word : codepoint -> bool) (Index : Type)
       (query : Index -> str -> Z -> list float -> Validator.query_outcome Index)
       (open_read : str -> Extractor.io str)
       (random_sample : list str -> Z -> list str)
       (index : Index) (namespace repomix_output_path : str)
       (embedding_dimension : Z),
  let run := validate_repository_ingestion word Index query open_read
               random_sample index namespace repomix_output_path
               embedding_dimension in
  (forall m, open_read repomix_output_path
             = Extractor.Raised (Extractor.FileNotFoundError m) ->
     run = (Unvalidated (lit "Repomix output file not found: "
                          ++ repomix_output_path), index)) /\
  (forall e, open_read repomix_output_path = Extractor.Raised e ->
     Extractor.is_not_found e = false -> run = (Raises e, index)) /\
  (forall repomix_content,
     open_read repomix_output_path = Extractor.Value repomix_content ->
     (Forall skipped_line
        (Extractor.split (dir_structure repomix_content) newline)
      \/ Extractor.contains Extractor.directory_structure repomix_content
         = false) ->
     run = (Unvalidated (lit "No file paths found in Repomix output"), index)).
Proof.
intros word Index query open_read random_sample index namespace path dim run.
subst run. unfold validate_repository_ingestion.
split; [|split].
- intros m ->. reflexivity.
- intros e -> He. destruct e; [discriminate | reflexivity | reflexivity].
- intros content -> H.
  assert (Forall skipped_line
            (Extractor.split (dir_structure content) newline)) as Hs.
  { destruct H as [H|H]; [exact H|].
    unfold dir_structure. rewrite H.
    repeat constructor. }
  assert (extract_file_paths word content = []) as E.
  { unfold extract_file_paths.
    rewrite (collect_skipped (pattern_line word)).
    - cbn [truthy negb]. apply collect_skipped.
      eapply Forall_impl; [|exact Hs]. intros l. apply skipped_lenient_line.
    - eapply Forall_impl; [|exact Hs]. intros l. apply skipped_pattern_line. }
  rewrite E. reflexivity.
Qed.

Lemma validator_unusable_dump_witness :
validate_repository_ingestion ascii_word nat Validator.flaky_query
  (fun _ => Extractor.Value (lit "Summary only, no listing."))
  Validator.first_k 0%nat (lit "repo-code") (lit "repomix-output.xml") 384
= (Unvalidated (lit "No file paths found in Repomix output"), 0%nat).
Proof.
refine (proj2 (proj2 (validator_unusable_dump ascii_word nat
          Validator.flaky_query
          (fun _ => Extractor.Value (lit "Summary only, no listing."))
          Validator.first_k 0%nat (lit "repo-code")
          (lit "repomix-output.xml") 384)) _ eq_refl _).
right. vm_compute. reflexivity.
Defined.

(** X25: the lenient loop, which runs when the first loop finds nothing,
does not keep the paths clean: a line of dashes and spaces gives the empty
path, and the empty path is reported as found as soon as the first answer
of the index has a match with any string in its metadata. *)
Theorem validator_lenient_route_admits_empty_path :
forall (word : codepoint -> bool) (repomix_content : str),
  let lines := Extractor.split (dir_structure repomix_content) newline in
  collect (pattern_line word) lines = [] ->
  Exists rule_line lines ->
  In [] (extract_file_paths word repomix_content) /\
  forall (Index : Type)
         (query : Index -> str -> Z -> list float
                  -> Validator.query_outcome Index)
         (index index1 : Index) (namespace : str) (embedding_dimension : Z)
         (r : Validator.query_response) (m : Validator.query_match)
         (key val : str),
    query index namespace 50 (Flt.constant 0.1%float embedding_dimension)
    = Validator.Answers r index1 ->
    In m (Chunk.get (Validator.matches r) []) ->
    In (key, VStr val) (Chunk.get (Validator.match_metadata m) []) ->
    Validator.found
      (fst (Validator.validate_path Index query index namespace []
              embedding_dimension)) = true.
Proof.
intros word content lines Hnone Hrule. split.
- unfold extract_file_paths. fold lines. rewrite Hnone. cbn [truthy negb].
  apply Exists_exists in Hrule as [line [Hin Hr]].
  eapply collect_In; [exact Hin | apply rule_lenient_line; exact Hr].
- intros Index query index index1 namespace dim r m key val Hq Hm Hkv.
  unfold Validator.validate_path. rewrite Hq.
  assert (forall items, In (key, VStr val) items ->
            exists kv, Validator.matching_item [] items = Some kv) as Hitem.
  { induction items as [|[k [v|b]] items IH]; intros Hin; [destruct Hin| |].
    - cbn [Validator.matching_item].
      replace (Extractor.contains [] v) with true by (destruct v; reflexivity).
      eexists. reflexivity.
    - cbn. destruct Hin as [Hin|Hin]; [discriminate | apply IH; exact Hin]. }
  assert (forall ms, In m ms ->
            exists entry, Validator.scan_matches [] ms = Some entry /\
                          Validator.found entry = true) as Hscan.
  { induction ms as [|m' ms IH]; intros Hin; [destruct Hin|].
    cbn [Validator.scan_matches].
    destruct (Validator.matching_item []
                (Chunk.get (Validator.match_metadata m') [])) as [[k v]|] eqn:E.
    - eexists. split; reflexivity.
    - destruct Hin as [->|Hin]; [|apply IH; exact Hin].
      destruct (Hitem _ Hkv) as [kv Hk]. congruence. }
  destruct (Hscan _ Hm) as [entry [-> Hf]]. exact Hf.
Qed.

Lemma validator_lenient_route_admits_empty_path_witness :
In [] (extract_file_paths ascii_word rule_dump) /\
Validator.found
  (fst (Validator.validate_path nat Validator.flaky_query 0%nat
          (lit "repo-code") [] 384)) = true.
Proof.
destruct (validator_lenient_route_admits_empty_path ascii_word rule_dump)
  as [H1 H2].
- vm_compute. reflexivity.
- apply Exists_cons_hd. split.
  + vm_compute. discriminate.
  + vm_compute. repeat (constructor; [right; reflexivity|]). constructor.
- split; [exact H1|].
  eapply (H2 nat Validator.flaky_query 0%nat 1%nat (lit "repo-code") 384).
  + reflexivity.
  + left. reflexivity.
  + left. reflexivity.
Defined.

End ListingFacts.

(** ** Scraping *)

Section CrawlerFacts.
Import Py Crawler.

Section AnySdk.
Variable World : Type.
Variable sdk_scrape_url : World -> str -> sdk_outcome * World.

(** What [scrape_url] comes to. *)
Lemma scrape_url_cases c w url :
scrape_url World sdk_scrape_url c w url =
match c with
| FirecrawlClient true =>
    match sdk_scrape_url w url with
    | (Responds resp, w') =>
        if Chunk.get (success resp) false
        then
          match data resp with
          | NoData => (Value (formatted_result url []), w')
          | DataDict d => (Value (formatted_result url d), w')
          | DataUnconvertible _ => (Value (mock_result url), w')
          end
        else (Value (mock_result url), w')
    | (Throws _, w') => (Value (mock_result url), w')
    | (Interrupted msg, w') => (Raised (Interruption msg), w')
    end
| _ => (Value (mock_result url), w)
end.
Proof.
unfold scrape_url, client_scrape, scrape_body.
destruct c as [[|]|]; [|reflexivity|reflexivity].
destruct (sdk_scrape_url w url) as [[resp|msg|msg] w1]; try reflexivity.
destruct (Chunk.get (success resp) false); [|reflexivity].
destruct (data resp); reflexivity.
Qed.

(** [scrape_url] returns a result for the URL, or is interrupted. *)
Lemma scrape_url_outcome c w url :
(exists result w',
    scrape_url World sdk_scrape_url c w url = (Value result, w') /\
    Crawler.url result = Some url) \/
(exists msg w',
    scrape_url World sdk_scrape_url c w url = (Raised (Interruption msg), w') /\
    c = FirecrawlClient true /\
    sdk_scrape_url w url = (Interrupted msg, w')).
Proof.
rewrite scrape_url_cases.
destruct c as [[|]|]; try (left; eexists; eexists; split; reflexivity).
destruct (sdk_scrape_url w url) as [[resp|msg|msg] w1].
- left. destruct (Chunk.get (success resp) false);
    [destruct (data resp)|]; eexists; eexists; split; reflexivity.
- left. eexists; eexists; split; reflexivity.
- right. exists msg, w1. repeat split.
Qed.

Lemma scrape_url_value_url c w url result w' :
scrape_url World sdk_scrape_url c w url = (Value result, w') ->
Crawler.url result = Some url.
Proof.
intros H.
destruct (scrape_url_outcome c w url)
  as [[r [w1 [E Hu]]] | [msg [w1 [E _]]]]; rewrite E in H.
- injection H as <- _. exact Hu.
- discriminate.
Qed.

Lemma scraped_urls c w urls results w' :
scraped World sdk_scrape_url c w urls results w' ->
map Crawler.url results = map Some urls.
Proof.
induction 1 as [w|w w1 w' url urls result results E _ IH]; [reflexivity|].
cbn [map]. rewrite IH, (scrape_url_value_url c w url result w1 E).
reflexivity.
Qed.

(** With a budget of one attempt or more, the loop calls [scrape_url]
once per URL, each call on the state that the call before left, until a
call is interrupted. *)
Lemma scrape_loop_trace c max_retries :
1 <= max_retries ->
forall urls w results calls,
  (exists rs w',
      scraped World sdk_scrape_url c w urls rs w' /\
      scrape_loop World sdk_scrape_url c max_retries w urls results calls
      = (Value (results ++ rs), w', calls ++ urls))
  \/
  (exists done url rest rs w1 msg w',
      urls = done ++ url :: rest /\
      scraped World sdk_scrape_url c w done rs w1 /\
      scrape_url World sdk_scrape_url c w1 url
      = (Raised (Interruption msg), w') /\
      scrape_loop World sdk_scrape_url c max_retries w urls results calls
      = (Raised (Interruption msg), w', calls ++ done ++ [url])).
Proof.
intros Hm. induction urls as [|u urls IH]; intros w results calls.
- left. exists [], w. rewrite !app_nil_r. split; [constructor | reflexivity].
- cbn [scrape_loop].
  destruct (Z.to_nat max_retries) as [|k] eqn:K; [lia|].
  cbn [retry_loop].
  destruct (scrape_url_outcome c w u)
    as [[r [w1 [E Hu]]] | [msg [w1 [E _]]]]; rewrite E.
  + destruct (IH w1 (results ++ [r]) (calls ++ repeat u 1))
      as [[rs [w2 [Hs Hr]]]
         | [done [url [rest [rs [w2 [msg [w3 [Hsplit [Hs [Hi Hr]]]]]]]]]]].
    * left. exists (r :: rs), w2. split.
      -- econstructor; [exact E | exact Hs].
      -- rewrite Hr. cbn [repeat]. rewrite <- !app_assoc. reflexivity.
    * right. exists (u :: done), url, rest, (r :: rs), w2, msg, w3.
      split; [rewrite Hsplit; reflexivity|].
      split; [econstructor; [exact E | exact Hs]|].
      split; [exact Hi|].
      rewrite Hr. cbn [repeat]. rewrite <- !app_assoc. reflexivity.
  + right. exists [], u, urls, [], w, msg, w1.
    split; [reflexivity|]. split; [constructor|].
    split; [exact E | reflexivity].
Qed.

Lemma scrape_loop_none c max_retries :
max_retries <= 0 ->
forall urls w results calls,
  scrape_loop World sdk_scrape_url c max_retries w urls results calls
  = (Value results, w, calls).
Proof.
intros Hm. induction urls as [|u urls IH]; intros w results calls;
  [reflexivity|].
cbn [scrape_loop]. replace (Z.to_nat max_retries) with O by lia.
cbn [retry_loop repeat]. rewrite app_nil_r. apply IH.
Qed.

End AnySdk.

(** X26: [scrape_url] absorbs every [Exception]: it ends with a result
for the URL asked, or with what is no [Exception] ([KeyboardInterrupt],
[SystemExit]) when the SDK call itself is cut short by it.  With a
[FirecrawlClient] whose SDK answers with [success] and whose data convert
to a dictionary (or are missing), the result is the formatted answer; in
every other case that returns (another client, no SDK, an answer without
[success], data that do not convert such as [None], any [Exception] of the
SDK) it is the mock result with its placeholder text. *)
Theorem scrape_url_absorbs_every_exception :
forall (World : Type) (sdk_scrape_url : World -> str -> sdk_outcome * World)
       (c : client) (w : World) (url : str),
  let run := scrape_url World sdk_scrape_url c w url in
  (c <> FirecrawlClient true -> run = (Value (mock_result url), w)) /\
  (c = FirecrawlClient true ->
     snd run = snd (sdk_scrape_url w url) /\
     fst run
     = match fst (sdk_scrape_url w url) with
       | Responds resp =>
           if Chunk.get (success resp) false
           then
             match data resp with
             | NoData => Value (formatted_result url [])
             | DataDict d => Value (formatted_result url d)
             | DataUnconvertible _ => Value (mock_result url)
             end
           else Value (mock_result url)
       | Throws _ => Value (mock_result url)
       | Interrupted msg => Raised (Interruption msg)
       end) /\
  (forall e, fst run = Raised e ->
     exists msg, e = Interruption msg /\ c = FirecrawlClient true /\
                 fst (sdk_scrape_url w url) = Interrupted msg) /\
  (forall result, fst run = Value result -> Crawler.url result = Some url).
Proof.
intros World sdk c w url run. subst run.
split; [|split; [|split]].
- intros Hc. rewrite scrape_url_cases.
  destruct c as [[|]|]; [congruence | reflexivity | reflexivity].
- intros ->. rewrite scrape_url_cases.
  destruct (sdk w url) as [[resp|msg|msg] w1]; cbn [fst snd];
    try (split; reflexivity).
  destruct (Chunk.get (success resp) false); [|split; reflexivity].
  destruct (data resp); split; reflexivity.
- intros e H.
  destruct (scrape_url_outcome World sdk c w url)
    as [[r [w1 [E _]]] | [msg [w1 [E [Hc Hs]]]]]; rewrite E in H;
    [discriminate|].
  injection H as <-. exists msg. rewrite Hs. repeat split. exact Hc.
- intros result H.
  destruct (scrape_url World sdk c w url) as [r w1] eqn:E. cbn [fst] in H.
  subst r. eapply scrape_url_value_url. exact E.
Qed.

(** X27: the individual scraping never retries and never drops a URL:
with [max_retries] at least 1 it calls [scrape_url] once for each URL, in
order, each call on the state that the call before left, and returns one
result per URL, for that URL; only an interruption of the SDK call (what
is no [Exception]) ends it early, at that URL, and no SDK call is
interrupted unless a run ends so.  With [max_retries] not positive it
calls nothing and returns the empty list. *)
Theorem scrape_urls_never_retries :
forall (World : Type) (sdk_scrape_url : World -> str -> sdk_outcome * World)
       (c : client) (w : World) (urls : list str) (max_retries : Z),
  let run := scrape_urls_individually World sdk_scrape_url c w urls
               max_retries in
  (1 <= max_retries ->
   ((exists results w',
        scraped World sdk_scrape_url c w urls results w' /\
        run = (Value results, w', urls) /\
        map Crawler.url results = map Some urls)
    \/
    (exists done url rest results w1 msg w',
        urls = done ++ url :: rest /\
        scraped World sdk_scrape_url c w done results w1 /\
        sdk_scrape_url w1 url = (Interrupted msg, w') /\
        c = FirecrawlClient true /\
        run = (Raised (Interruption msg), w', done ++ [url]))) /\
   ((forall w0 u msg w1, sdk_scrape_url w0 u <> (Interrupted msg, w1)) ->
    exists results w',
      run = (Value results, w', urls) /\
      map Crawler.url results = map Some urls)) /\
  (max_retries <= 0 -> run = (Value [], w, [])).
Proof.
intros World sdk c w urls max_retries run. subst run.
unfold scrape_urls_individually. split; intros Hm.
- assert ((exists results w',
              scraped World sdk c w urls results w' /\
              scrape_loop World sdk c max_retries w urls [] []
              = (Value results, w', urls) /\
              map Crawler.url results = map Some urls)
          \/
          (exists done url rest results w1 msg w',
              urls = done ++ url :: rest /\
              scraped World sdk c w done results w1 /\
              sdk w1 url = (Interrupted msg, w') /\
              c = FirecrawlClient true /\
              scrape_loop World sdk c max_retries w urls [] []
              = (Raised (Interruption msg), w', done ++ [url]))) as H.
  { destruct (scrape_loop_trace World sdk c max_retries Hm urls w [] [])
      as [[rs [w' [Hs Hr]]]
         | [done [url [rest [rs [w1 [msg [w' [Hsplit [Hs [Hi Hr]]]]]]]]]]].
    - left. exists rs, w'. split; [exact Hs|]. split; [exact Hr|].
      eapply scraped_urls. exact Hs.
    - right. exists done, url, rest, rs, w1, msg, w'.
      split; [exact Hsplit|]. split; [exact Hs|].
      destruct (scrape_url_outcome World sdk c w1 url)
        as [[r [w2 [E _]]] | [msg' [w2 [E [Hc Hsdk]]]]]; rewrite E in Hi;
        [discriminate|].
      injection Hi as <- <-.
      split; [exact Hsdk|]. split; [exact Hc | exact Hr]. }
  split; [exact H|].
  intros Hno.
  destruct H as [[rs [w' [_ [Hr Hu]]]]
                | [done [url [rest [rs [w1 [msg [w' [_ [_ [Hi _]]]]]]]]]]].
  + exists rs, w'. split; assumption.
  + exfalso. exact (Hno _ _ _ _ Hi).
- apply scrape_loop_none. exact Hm.
Qed.

Lemma scrape_urls_never_retries_witness :
exists results w',
  scrape_urls_individually nat slow_sdk (FirecrawlClient true) 0%nat
    [lit "https://a.example"; lit "https://b.example"] 3
  = (Value results, w',
     [lit "https://a.example"; lit "https://b.example"]) /\
  map Crawler.url results
  = map Some [lit "https://a.example"; lit "https://b.example"].
Proof.
destruct (scrape_urls_never_retries nat slow_sdk (FirecrawlClient true)
            0%nat [lit "https://a.example"; lit "https://b.example"] 3)
  as [H _].
destruct (H ltac:(lia)) as [_ Hno]. apply Hno.
intros w0 u msg w1. unfold slow_sdk. destruct (Nat.ltb w0 2); discriminate.
Defined.

Lemma process_loop_truthy results :
Forall (fun c => text_truthy (chunk_text c) = true) (process_loop results).
Proof.
induction results as [|r rest IH]; cbn [process_loop]; [constructor|].
destruct (result_chunk r) as [c|] eqn:E; [|exact IH].
constructor; [|exact IH].
unfold result_chunk in E.
match type of E with
| (if negb (text_truthy ?t) then _ else _) = _ =>
    destruct (text_truthy t) eqn:T; cbn in E; [|discriminate]
end.
injection E as <-. exact T.
Qed.

(** X28: what [process_firecrawl_results] makes of a scraped page.  The
two size parameters have no effect and no text is split.  The mock result
becomes a chunk like any other, with the placeholder as its text, a text
that the embedder and the packager take; a formatted answer becomes a
chunk with its markdown when that is a non-empty string, is dropped when
the markdown is [None] or empty or when there is neither markdown nor
HTML, and with HTML alone gives a chunk whose text is the dictionary, not
a string.  The [source_type] of these chunks is always [web]. *)
Theorem scraped_page_chunks :
forall (url : str) (content_data : pydict) (max_chunk_size overlap : Z),
  process_firecrawl_results [mock_result url] max_chunk_size overlap
  = [page_chunk url (lit "Content from " ++ url) (TextStr (placeholder url))] /\
  as_chunk (page_chunk url (lit "Content from " ++ url)
              (TextStr (placeholder url)))
  = Some (Packager.firecrawl_chunk url (placeholder url) (lit "web")) /\
  Embedder.has_text
    (Packager.firecrawl_chunk url (placeholder url) (lit "web")) = true /\
  process_firecrawl_results [formatted_result url content_data]
    max_chunk_size overlap
  = match lookup content_data (lit "markdown") with
    | Some (Some s) =>
        if truthy s then [page_chunk url [] (TextStr s)] else []
    | Some None => []
    | None =>
        match lookup content_data (lit "html") with
        | Some v => [page_chunk url [] (TextDict [(lit "html", v)])]
        | None => []
        end
    end /\
  (forall v, as_chunk (page_chunk url [] (TextDict [(lit "html", v)])) = None) /\
  forall results max_chunk_size' overlap',
    process_firecrawl_results results max_chunk_size overlap
    = process_firecrawl_results results max_chunk_size' overlap' /\
    Forall (fun c => text_truthy (chunk_text c) = true)
      (process_firecrawl_results results max_chunk_size overlap).
Proof.
intros url content_data m o.
split; [reflexivity|]. split; [reflexivity|]. split; [reflexivity|].
split; [|split; [reflexivity|]].
- unfold process_firecrawl_results, formatted_result.
  cbn [process_loop]. unfold result_chunk.
  cbn [Crawler.url title content source_type Chunk.get app].
  destruct (lookup content_data (lit "markdown")) as [[s|]|] eqn:M.
  + destruct (lookup content_data (lit "html")) as [h|];
      cbn [app lookup]; change (str_eqb (lit "markdown") (lit "markdown"))
        with true; cbn [text_truthy];
      destruct (truthy s); reflexivity.
  + destruct (lookup content_data (lit "html")) as [h|]; reflexivity.
  + destruct (lookup content_data (lit "html")) as [h|]; reflexivity.
- intros results m' o'. split; [reflexivity|].
  apply process_loop_truthy.
Qed.

End CrawlerFacts.

(** ** Enrichment *)

Section EnrichmentFacts.
Import Py Enrichment.

Lemma str_eqb_neq a b : a <> b -> str_eqb a b = false.
Proof.
intros H. destruct (str_eqb a b) eqn:E; [|reflexivity].
apply str_eqb_eq in E. contradiction.
Qed.

Lemma get_set_same {V : Type} (d : list (str * V)) k v :
get_key (set_key d k v) k = Some v.
Proof.
induction d as [|[k' v'] d IH]; cbn.
- rewrite str_eqb_refl. reflexivity.
- destruct (str_eqb k' k) eqn:E; cbn; rewrite E; [reflexivity | exact IH].
Qed.

Lemma get_set_other {V : Type} (d : list (str * V)) k k' v :
k' <> k -> get_key (set_key d k v) k' = get_key d k'.
Proof.
intros H. induction d as [|[k0 v0] d IH]; cbn.
- rewrite str_eqb_neq by congruence. reflexivity.
- destruct (str_eqb k0 k) eqn:E; cbn.
  + apply str_eqb_eq in E. subst k0.
    rewrite str_eqb_neq by congruence. reflexivity.
  + rewrite IH. reflexivity.
Qed.

Lemma set_key_absent {V : Type} (d : list (str * V)) k v :
get_key d k = None -> set_key d k v = d ++ [(k, v)].
Proof.
induction d as [|[k0 v0] d IH]; cbn; [reflexivity|].
destruct (str_eqb k0 k); [discriminate|].
intros H. rewrite (IH H). reflexivity.
Qed.

Lemma get_key_snoc_other {V : Type} (d : list (str * V)) k k' v :
k' <> k -> get_key (d ++ [(k, v)]) k' = get_key d k'.
Proof.
intros H. induction d as [|[k0 v0] d IH]; cbn.
- rewrite str_eqb_neq by congruence. reflexivity.
- rewrite IH. reflexivity.
Qed.

(** With topics that differ from one another, the context is filled
with the results that have no [error], in their order. *)
Lemma fill_kept results :
NoDup (map fst results) ->
forall ctx,
  (forall t, In t (map fst results) -> get_key ctx t = None) ->
  fill ctx results = ctx ++ kept results.
Proof.
induction results as [|[topic result] rest IH]; intros Hnd ctx Hctx.
- cbn. rewrite app_nil_r. reflexivity.
- cbn [map fst] in Hnd. inversion Hnd as [|x l Hnotin Hnd']; subst.
  cbn [fill]. unfold kept. cbn [filter snd]. fold (kept rest).
  destruct (has_error result); cbn [negb].
  + apply IH; [exact Hnd'|].
    intros t Ht. apply Hctx. right. exact Ht.
  + rewrite (set_key_absent ctx topic result)
      by (apply Hctx; left; reflexivity).
    rewrite IH; [rewrite <- app_assoc; reflexivity | exact Hnd' |].
    intros t Ht. rewrite get_key_snoc_other.
    * apply Hctx. right. exact Ht.
    * intros ->. contradiction.
Qed.

Lemma length_update h a d : List.length (update h a d) = List.length h.
Proof.
revert a. induction h as [|x h IH]; intros [|a]; cbn; try reflexivity.
rewrite IH. reflexivity.
Qed.

Lemma nth_update_same h a d :
(a < List.length h)%nat -> nth a (update h a d) [] = d.
Proof.
revert a. induction h as [|x h IH]; intros [|a]; cbn; try lia;
  [reflexivity|].
intros H. apply IH. lia.
Qed.

Lemma nth_update_other h a b d :
a <> b -> nth b (update h a d) [] = nth b h [].
Proof.
revert a b. induction h as [|x h IH]; intros [|a] [|b] H; cbn;
  try reflexivity; try congruence.
apply IH. congruence.
Qed.

Section Results.
Variable research_results : results_dict.
Hypothesis distinct_topics : NoDup (map fst research_results).

Let context := MContext (kept research_results).

(** One chunk. *)
Lemma enrich_chunk_spec h c :
(forall a, metadata c = Some a -> (a < List.length h)%nat) ->
let '(e, h1) := enrich_chunk h c research_results in
(List.length h <= List.length h1)%nat /\
enriched_as research_results (List.length h) h1 c e /\
(forall a, (a < List.length h)%nat ->
   if refers a c
   then get_key (nth a h1 []) research_context_key = Some context /\
        forall k, k <> research_context_key ->
          get_key (nth a h1 []) k = get_key (nth a h []) k
   else nth a h1 [] = nth a h []).
Proof.
intros Hin. unfold enrich_chunk, refers.
rewrite (fill_kept research_results distinct_topics [])
  by (intros; reflexivity).
cbn [app]. fold context.
destruct (metadata c) as [a0|] eqn:M.
- pose proof (Hin a0 eq_refl) as Ha0.
  split; [rewrite length_update; lia|]. split.
  + split; [reflexivity|]. exists a0. cbn [metadata].
    rewrite length_update, nth_update_same by exact Ha0.
    rewrite get_set_same.
    repeat split; try assumption; try reflexivity.
    * intros a1 H. congruence.
    * intros H. congruence.
  + intros a Ha. destruct (Nat.eqb_spec a0 a) as [->|Hne].
    * rewrite nth_update_same by exact Ha. rewrite get_set_same.
      split; [reflexivity|]. intros k Hk.
      rewrite !get_set_other by exact Hk. reflexivity.
    * apply nth_update_other. exact Hne.
- split; [rewrite length_app; cbn; lia|]. split.
  + split; [reflexivity|]. exists (List.length h). cbn [metadata].
    rewrite length_app, app_nth2, Nat.sub_diag by lia. cbn [nth List.length].
    rewrite get_set_same.
    repeat split; try reflexivity; try lia.
    intros a1 H. congruence.
  + intros a Ha. rewrite app_nth1 by exact Ha. reflexivity.
Qed.

Lemma existsb_refers_cons a c rest :
existsb (refers a) (c :: rest) = refers a c || existsb (refers a) rest.
Proof. reflexivity. Qed.

(** All the chunks. *)
Lemma enrich_loop_spec content_chunks :
forall h,
  in_store h content_chunks ->
  let '(es, h') := enrich_content_with_research h content_chunks
                     research_results in
  (List.length h <= List.length h')%nat /\
  Forall2 (enriched_as research_results (List.length h) h') content_chunks es /\
  (forall a, (a < List.length h)%nat ->
     if existsb (refers a) content_chunks
     then get_key (nth a h' []) research_context_key = Some context /\
          forall k, k <> research_context_key ->
            get_key (nth a h' []) k = get_key (nth a h []) k
     else nth a h' [] = nth a h []).
Proof.
induction content_chunks as [|c rest IH]; intros h Hin.
- cbn. split; [lia|]. split; [constructor|]. intros a _. reflexivity.
- inversion Hin as [|c' rest' Hc Hrest]; subst.
  cbn [enrich_content_with_research].
  pose proof (enrich_chunk_spec h c Hc) as S1.
  destruct (enrich_chunk h c research_results) as [e h1].
  destruct S1 as [L1 [E1 U1]].
  assert (in_store h1 rest) as Hrest1.
  { eapply Forall_impl; [|exact Hrest]. cbn. intros x Hx a Ha.
    specialize (Hx a Ha). lia. }
  pose proof (IH h1 Hrest1) as S2.
  destruct (enrich_content_with_research h1 rest research_results)
    as [es h2].
  destruct S2 as [L2 [E2 U2]].
  split; [lia|]. split.
  + constructor.
    * destruct E1 as [Hf [a [Ma [Hlt [Hg [Hsh Hfr]]]]]].
      split; [exact Hf|]. exists a.
      split; [exact Ma|]. split; [lia|]. split; [|split; assumption].
      pose proof (U2 a Hlt) as Ua.
      destruct (existsb (refers a) rest); [apply Ua | rewrite Ua; exact Hg].
    * eapply Forall2_impl; [|exact E2].
      intros x y [Hf [a [Ma [Hlt [Hg [Hsh Hfr]]]]]].
      split; [exact Hf|]. exists a. repeat split; try assumption.
      intros Hn. specialize (Hfr Hn). lia.
  + intros a Ha. rewrite existsb_refers_cons.
    pose proof (U1 a Ha) as Ua1.
    assert (a < List.length h1)%nat as Ha1 by lia.
    pose proof (U2 a Ha1) as Ua2.
    destruct (refers a c); destruct (existsb (refers a) rest); cbn [orb].
    * destruct Ua1 as [_ K1]. destruct Ua2 as [G2 K2].
      split; [exact G2|]. intros k Hk. rewrite K2, K1 by exact Hk.
      reflexivity.
    * destruct Ua1 as [G1 K1]. rewrite Ua2. split; assumption.
    * destruct Ua2 as [G2 K2]. split; [exact G2|].
      intros k Hk. rewrite K2 by exact Hk. rewrite Ua1. reflexivity.
    * rewrite Ua2. exact Ua1.
Qed.

End Results.

Lemma Forall2_fields research_results n h' cs es :
Forall2 (enriched_as research_results n h') cs es ->
map fields es = map fields cs.
Proof.
induction 1 as [|c e cs es [Hf _] _ IH]; [reflexivity|].
cbn. rewrite Hf, IH. reflexivity.
Qed.

(** X29: [enrich_content_with_research] returns one enriched chunk per
chunk, in order and with the other keys as they were, whose [metadata]
has under [research_context] the results that carry no [error], in the
order of the topics.  The copy is shallow: a chunk that already has
[metadata] shares that dictionary with its enriched copy, so the input
chunk is changed too (its [research_context] is set, its other entries
are kept), while a chunk without [metadata] gets a new dictionary and
stays as it was; dictionaries that no chunk refers to are untouched. *)
Theorem enrichment_changes_shared_metadata :
forall (h : heap) (content_chunks : list content_chunk)
       (research_results : results_dict),
  NoDup (map fst research_results) ->
  in_store h content_chunks ->
  let enriched := fst (enrich_content_with_research h content_chunks
                         research_results) in
  let h' := snd (enrich_content_with_research h content_chunks
                   research_results) in
  map fields enriched = map fields content_chunks /\
  Forall2 (enriched_as research_results (List.length h) h')
    content_chunks enriched /\
  (forall c a, In c content_chunks -> metadata c = Some a ->
     get_key (nth a h' []) research_context_key
     = Some (MContext (kept research_results)) /\
     forall k, k <> research_context_key ->
       get_key (nth a h' []) k = get_key (nth a h []) k) /\
  (forall a, (a < List.length h)%nat ->
     (forall c, In c content_chunks -> metadata c <> Some a) ->
     nth a h' [] = nth a h []).
Proof.
intros h cs results Hnd Hin enriched h'. subst enriched h'.
pose proof (enrich_loop_spec results Hnd cs h Hin) as S.
destruct (enrich_content_with_research h cs results) as [es h2].
cbn [fst snd]. destruct S as [L [E U]].
split; [eapply Forall2_fields; exact E|]. split; [exact E|]. split.
- intros c a Hc Ma.
  assert (a < List.length h)%nat as Ha.
  { unfold in_store in Hin. rewrite Forall_forall in Hin.
    exact (Hin c Hc a Ma). }
  pose proof (U a Ha) as Ua.
  assert (existsb (refers a) cs = true) as R.
  { apply existsb_exists. exists c. split; [exact Hc|].
    unfold refers. rewrite Ma. apply Nat.eqb_refl. }
  rewrite R in Ua. exact Ua.
- intros a Ha Hno. pose proof (U a Ha) as Ua.
  destruct (existsb (refers a) cs) eqn:R; [|exact Ua].
  apply existsb_exists in R as [c [Hc Hr]]. unfold refers in Hr.
  destruct (metadata c) as [a'|] eqn:M; [|discriminate].
  apply Nat.eqb_eq in Hr. subst a'. exfalso. exact (Hno c Hc M).
Qed.

Lemma enrichment_changes_shared_metadata_witness :
get_key (nth 0 (snd (enrich_content_with_research sample_heap sample_chunks
                       sample_results)) [])
  research_context_key
= Some (MContext [(lit "rocq", [(lit "summary", lit "A proof assistant")])]) /\
get_key (nth 0 (snd (enrich_content_with_research sample_heap sample_chunks
                       sample_results)) [])
  (lit "url")
= Some (MStr (lit "https://example.com")).
Proof.
assert (NoDup (map fst sample_results)) as Hnd.
{ cbn. constructor; [|constructor; [intros []|constructor]].
  intros [H|[]]. vm_compute in H. discriminate. }
assert (in_store sample_heap sample_chunks) as Hin.
{ constructor; [|constructor; [|constructor]]; cbn; intros a H;
    [injection H as <-; lia | discriminate]. }
destruct (enrichment_changes_shared_metadata sample_heap sample_chunks
            sample_results Hnd Hin) as [_ [_ [H _]]].
destruct (H (nth 0 sample_chunks
               {| fields := Extractor.repository_chunk [] [];
                  metadata := None |}) 0%nat) as [G K].
- left. reflexivity.
- reflexivity.
- split; [exact G|].
  rewrite (K (lit "url")); [reflexivity|].
  intros E. vm_compute in E. discriminate.
Defined.

End EnrichmentFacts.
